(** * Export pipeline of the reel caption editor: a shallow embedding

    The server (server/index.js) turns an uploaded video and a list of
    timed text overlays into an FFmpeg command, runs it, and keeps its
    upload and output directories tidy.  This file embeds

    - [createTextFilter], the overlay-to-drawtext compiler;
    - the two request handlers, [process_video] and [process_batch],
      as programs of a small state-and-exception monad over the two
      directories;
    - [video_route] and [batch_route], the two routes from multer's file
      parts on;
    - [cleanupOldFiles], the hourly sweep;
    - the editor-side duration helpers of App.tsx ([getEffectiveDuration],
      [handleMaxDurationChange]) and the font list of VideoList.tsx;
    - the download route, and on the editor side the overlay and video
      handlers of App.tsx, the seek and drag handlers of Timeline.tsx,
      [formatTime] and [calculateReelDimensions] of videoUtils, and the
      batch export of videoExportService.ts with its caller
      [handleMultiExport].

    Modelling decisions, once and for all:

    - a JavaScript number is kept as the rational it denotes ([Q]).
      Where the compiler turns a product into an integer (lines 55-57)
      the product is computed on IEEE doubles ([Binary64]), and
      [Math.round] is applied to the double.  The editor's arithmetic on
      times is done on the rationals;
    - a string is a [string] of bytes.  The two characters the compiler
      rewrites are ASCII, so a byte-wise rewrite agrees with the
      UTF-16 one;
    - the handlers [process_video] and [process_batch] take the request
      as they see it after multer and [JSON.parse]; [video_route] and
      [batch_route] start at the multipart body and at the outcome of
      [JSON.parse];
    - a path is a directory and a file name: [mkPath dir name] stands for
      [path.join(dir, name)], which is the file [name] of [dir] when
      [name] is a file name proper (no path separator, and not empty,
      [.] or [..]); the statements about where files end up say so;
    - [fs.remove] succeeds in the handlers; in the sweep, [fs.stat] and
      [fs.remove] may be refused ([Faults]);
    - FFmpeg, ffprobe, [uuidv4] and the clock are external: they enter as
      the fields of an environment record and are never given a body. *)

From Stdlib Require Import QArith Qround Qminmax Lqa ZArith String Ascii List Lia DecimalString.
From Stdlib Require Import PrimFloat FloatOps SpecFloat.
From stdpp Require Import gmap strings list fin_maps.

Open Scope Z_scope.

(* ===================================================================== *)
(** * Part I: definitions                                                  *)
(* ===================================================================== *)

(** ** JavaScript numbers and strings *)

Module JS.

(** The nearest integer to a number, a tie going up: what [Math.round]
    makes of the number its argument is (see [Binary64.Math_round]). *)
Definition Math_round (q : Q) : Z := Qfloor (q + (1 # 2)).

(** [Math.min] on two numbers. *)
Definition Math_min (a b : Q) : Q := if Qle_bool a b then a else b.

(** Template-literal rendering of an integer. *)
Definition Integer_toString (z : Z) : string := NilZero.string_of_int (Z.to_int z).

Definition digit (d : Z) : ascii := ascii_of_nat (48 + Z.to_nat d).

(** Digits after the decimal point of [r / d], for [0 <= r < d], by long
    division.  Seventeen digits are all a double ever prints. *)
Fixpoint fraction_digits (fuel : nat) (r d : Z) : string :=
  match fuel with
  | O => EmptyString
  | S fuel' =>
      if r =? 0 then EmptyString
      else String (digit (10 * r / d)) (fraction_digits fuel' ((10 * r) mod d) d)
  end.

(** Template-literal rendering of a number: [18] gives ["18"], [1/2]
    gives ["0.5"].  The digits are those of the number itself, so this is
    [Number::toString] for the numbers a double prints exactly: the
    integers below 1e21 and the decimal fractions of at most fifteen
    significant digits from 1e-6 on, which is what the editor's form
    fields and sliders produce.  For other numbers (1/120, say, or one
    that prints with an exponent) the engine prints the shortest decimal
    that reads back as the double, which is not modelled. *)
Definition Number_toString (q : Q) : string :=
  let n := Qnum q in
  let d := Z.pos (Qden q) in
  let a := Z.abs n in
  let r := a mod d in
  ((if n <? 0 then "-" else "") +:+ Integer_toString (a / d)) +:+
  (if r =? 0 then EmptyString else "." +:+ fraction_digits 17 r d).

(** [s.replace(/c/g, r)] for a one-character pattern [c]. *)
Fixpoint replace_all (c : ascii) (r : string) (s : string) : string :=
  match s with
  | EmptyString => EmptyString
  | String a s' =>
      if Ascii.eqb a c then r +:+ replace_all c r s'
      else String a (replace_all c r s')
  end.

(** [parts.join(sep)]. *)
Fixpoint join (sep : string) (parts : list string) : string :=
  match parts with
  | [] => EmptyString
  | [p] => p
  | p :: rest => p +:+ sep +:+ join sep rest
  end.

(** Truthiness of a string: the empty one is falsy. *)
Definition truthy (s : string) : bool := negb (String.eqb s EmptyString).

End JS.

(** ** Binary64 *)

(** Where the code turns a product of numbers into an integer, the
    product is the one of IEEE doubles, which can fall on the other side
    of a half than the product of the numbers themselves. *)
Module Binary64.

(** The double a number is held as: the binary64 value nearest to it, a
    tie going to the even mantissa, as [JSON.parse] and [parseFloat]
    make it from a numeral. *)
Definition double (q : Q) : float :=
  let r := Qred q in
  let quotient (negative : bool) (numerator : positive) :=
    SF2Prim (SFdiv prec emax (S754_finite negative numerator 0)
                             (S754_finite false (Qden r) 0)) in
  match Qnum r with
  | Z0 => PrimFloat.zero
  | Zpos numerator => quotient false numerator
  | Zneg numerator => quotient true numerator
  end.

(** The number a finite double is. *)
Definition value (f : float) : option Q :=
  match Prim2SF f with
  | S754_zero _ => Some 0%Q
  | S754_finite negative mantissa exponent =>
      Some (inject_Z (if negative then Z.neg mantissa else Z.pos mantissa) * Qpower 2 exponent)%Q
  | S754_infinity _ | S754_nan => None
  end.

(** What [Math.round] returns: an integer, or its argument when that is
    an infinity or NaN. *)
Inductive Rounded :=
| Integer (n : Z)
| Infinite (negative : bool)
| NotANumber.

(** [Math.round] on a double: the nearest integer to the number the
    double is, a tie going up. *)
Definition Math_round (f : float) : Rounded :=
  match value f with
  | Some q => Integer (JS.Math_round q)
  | None =>
      match Prim2SF f with
      | S754_infinity negative => Infinite negative
      | _ => NotANumber
      end
  end.

(** Template-literal rendering of a rounded number.  (An integer from
    2^53 on is written by JavaScript with the shortest digits that
    identify its double, padded with zeros, and from 1e21 on with an
    exponent; these are not modelled.) *)
Definition toString (r : Rounded) : string :=
  match r with
  | Integer n => JS.Integer_toString n
  | Infinite false => "Infinity"
  | Infinite true => "-Infinity"
  | NotANumber => "NaN"
  end.

End Binary64.

(** ** The overlay record (src/types) *)

Inductive TextAlign := left | center | right.
Inductive Animation := none | fadeIn | slideUp | typewriter.

Module TextOverlay.
Record t := mk {
  id : string;
  text : string;
  x : Q;
  y : Q;
  width : Q;
  height : Q;
  fontSize : Q;
  fontWeight : string;
  color : string;
  outlineColor : string;
  outlineWidth : Q;
  opacity : Q;
  startTime : Q;
  endTime : Q;
  fontFamily : string;
  textAlign : TextAlign;
  animation : Animation
}.
End TextOverlay.

(** ** The overlay filter compiler (server/index.js, 53-78) *)

Module Compiler.
Import JS.

(** Line 60: the two chained [replace] calls. *)
Definition escapeText (text : string) : string :=
  replace_all ":" "\:" (replace_all "'" "\'" text).

(** [(percent / 100) * size] and [fontSize * (videoWidth / 400)] of
    lines 55-57, as the doubles the code computes. *)
Definition position (percent size : Q) : float :=
  PrimFloat.mul (PrimFloat.div (Binary64.double percent) 100%float) (Binary64.double size).

Definition font_scale (fontSize videoWidth : Q) : float :=
  PrimFloat.mul (Binary64.double fontSize) (PrimFloat.div (Binary64.double videoWidth) 400%float).

Definition pixel_x (overlay : TextOverlay.t) (videoWidth : Q) : Binary64.Rounded :=
  Binary64.Math_round (position (TextOverlay.x overlay) videoWidth).

Definition pixel_y (overlay : TextOverlay.t) (videoHeight : Q) : Binary64.Rounded :=
  Binary64.Math_round (position (TextOverlay.y overlay) videoHeight).

Definition scaled_fontSize (overlay : TextOverlay.t) (videoWidth : Q) : Binary64.Rounded :=
  Binary64.Math_round (font_scale (TextOverlay.fontSize overlay) videoWidth).

(** Line 66, the suffix added for an outlined overlay. *)
Definition outline_clause (overlay : TextOverlay.t) : string :=
  ":borderw=" +:+ Number_toString (TextOverlay.outlineWidth overlay) +:+
  ":bordercolor=" +:+ TextOverlay.outlineColor overlay.

(** Line 71. *)
Definition fontfile_clause (fontFamily : string) : string :=
  ":fontfile=/System/Library/Fonts/" +:+ fontFamily +:+ ".ttf".

(** Line 75. *)
Definition enable_clause (startTime endTime : Q) : string :=
  ":enable='between(t," +:+ Number_toString startTime +:+ "," +:+
  Number_toString endTime +:+ ")'".

(** Line 70: [overlay.fontFamily && overlay.fontFamily !== 'Inter']. *)
Definition wants_fontfile (fontFamily : string) : bool :=
  truthy fontFamily && negb (String.eqb fontFamily "Inter").

Definition createTextFilter (overlay : TextOverlay.t) (videoWidth videoHeight : Q) : string :=
  let x := pixel_x overlay videoWidth in
  let y := pixel_y overlay videoHeight in
  let fontSize := scaled_fontSize overlay videoWidth in
  let escapedText := escapeText (TextOverlay.text overlay) in
  let filter :=
    "drawtext=text='" +:+ escapedText +:+ "':x=" +:+ Binary64.toString x +:+
    ":y=" +:+ Binary64.toString y +:+ ":fontsize=" +:+ Binary64.toString fontSize +:+
    ":fontcolor=" +:+ TextOverlay.color overlay in
  let filter :=
    if Qlt_le_dec 0 (TextOverlay.outlineWidth overlay)
    then filter +:+ outline_clause overlay
    else filter in
  let filter :=
    if wants_fontfile (TextOverlay.fontFamily overlay)
    then filter +:+ fontfile_clause (TextOverlay.fontFamily overlay)
    else filter in
  filter +:+ enable_clause (TextOverlay.startTime overlay) (TextOverlay.endTime overlay).

(** Lines 143-148 (and 250-254): one filter per overlay, joined by a comma. *)
Definition filterComplex (overlays : list TextOverlay.t) (videoWidth videoHeight : Q) : string :=
  join "," (map (fun overlay => createTextFilter overlay videoWidth videoHeight) overlays).

End Compiler.

(** ** The two directories and the external collaborators *)

(** [uploadsDir] and [outputDir] of lines 22-23; a path is a directory and
    a file name, as [path.join] builds it. *)
Inductive area := Uploads | Output.

#[global] Instance area_eq_dec : EqDecision area.
Proof. solve_decision. Defined.

Record path := mkPath { dir : area; base : string }.

(** The state a handler runs in: each directory maps a file name to its
    modification time (milliseconds); [removals] records every
    [fs.remove] call, newest first; [tokens] counts the [uuidv4] calls. *)
Record World := mkWorld {
  uploadsDir : gmap string Z;
  outputDir : gmap string Z;
  removals : list path;
  tokens : nat
}.

Definition listing (w : World) (a : area) : gmap string Z :=
  match a with Uploads => uploadsDir w | Output => outputDir w end.

Definition exists_at (w : World) (p : path) : bool :=
  bool_decide (is_Some (listing w (dir p) !! base p)).

Record Error := mkError { message : string }.

(** What ffprobe reports (lines 114-123). *)
Record Stream := mkStream { codec_type : string; stream_width : Q; stream_height : Q }.
Record Metadata := mkMetadata { streams : list Stream }.

(** The FFmpeg command a handler assembles (lines 126-155). *)
Record Command := mkCommand {
  input : path;
  outputOptions : list string;
  duration : option Q;
  complexFilter : option string;
  output : path
}.

(** How a run of FFmpeg ends: the [end] event, or the [error] event, after
    which a partly written output file may or may not be on disk. *)
Inductive RunOutcome :=
| RunEnd
| RunError (err : Error) (partial_output : bool).

Record Env := mkEnv {
  ffprobe : path -> Error + Metadata;
  run : Command -> RunOutcome;
  uuidv4 : nat -> string;
  now : Z
}.

(** ** A state-and-exception monad for the handlers *)

Inductive result (A : Type) :=
| Return (a : A)
| Throw (e : Error).
Arguments Return {A} a.
Arguments Throw {A} e.

Definition M (A : Type) : Type := World -> result A * World.

Definition ret {A} (a : A) : M A := fun w => (Return a, w).
Definition throw {A} (e : Error) : M A := fun w => (Throw e, w).

Definition bind {A B} (m : M A) (k : A -> M B) : M B :=
  fun w =>
    match m w with
    | (Return a, w') => k a w'
    | (Throw e, w') => (Throw e, w')
    end.

(** [try { m } catch (error) { h error }]: the state reached when [m]
    throws is the one the handler starts from. *)
Definition try_catch {A} (m : M A) (h : Error -> M A) : M A :=
  fun w =>
    match m w with
    | (Return a, w') => (Return a, w')
    | (Throw e, w') => h e w'
    end.

Notation "'let!' x ':=' m 'in' k" := (bind m (fun x => k))
  (at level 10, x name, m at level 100, k at level 200).
Notation "'exec!' m 'in' k" := (bind m (fun _ => k))
  (at level 10, m at level 100, k at level 200).

(** [for (const x of xs) { body x }]. *)
Fixpoint for_each {A} (xs : list A) (body : A -> M unit) : M unit :=
  match xs with
  | [] => ret tt
  | x :: rest => exec! body x in for_each rest body
  end.

(** ** File-system and engine primitives *)

Definition TypeError (what : string) : Error :=
  mkError ("Cannot read properties of undefined (reading '" +:+ what +:+ "')").

(** The world after [fs.remove(p)]: the entry is gone and the call is on
    record. *)
Definition unlink (p : path) (w : World) : World :=
  match dir p with
  | Uploads =>
      mkWorld (delete (base p) (uploadsDir w)) (outputDir w) (p :: removals w) (tokens w)
  | Output =>
      mkWorld (uploadsDir w) (delete (base p) (outputDir w)) (p :: removals w) (tokens w)
  end.

Definition write (p : path) (mtime : Z) (w : World) : World :=
  match dir p with
  | Uploads => mkWorld (<[base p := mtime]> (uploadsDir w)) (outputDir w) (removals w) (tokens w)
  | Output => mkWorld (uploadsDir w) (<[base p := mtime]> (outputDir w)) (removals w) (tokens w)
  end.

(** [fs.remove] as the request handlers meet it: it succeeds whether or
    not the path exists. *)
Definition fs_remove (p : path) : M unit :=
  fun w => (Return tt, unlink p w).

(** [fs.readdir]. *)
Definition fs_readdir (a : area) : M (list string) :=
  fun w => (Return (map_to_list (listing w a)).*1, w).

(** What the file system may refuse while the sweep runs.  [fs.stat]
    throws on a listed name that is a dangling link, or that a request
    handler removed after [readdir] had listed it; [fs.remove] throws on
    a file that may not be deleted.  A fault is given by the error it
    throws. *)
Record Faults := mkFaults {
  stat_error : path -> option Error;
  remove_error : path -> option Error
}.

Definition no_faults : Faults := mkFaults (fun _ => None) (fun _ => None).

(** [fs.stat], reduced to the modification time; a missing file throws,
    and so does a path the file system refuses. *)
Definition fs_stat (faults : Faults) (p : path) : M Z :=
  fun w =>
    match stat_error faults p with
    | Some error => (Throw error, w)
    | None =>
        match listing w (dir p) !! base p with
        | Some mtime => (Return mtime, w)
        | None => (Throw (mkError "ENOENT: no such file or directory"), w)
        end
    end.

(** [fs.remove] where it may fail: the error is thrown and the file
    stays. *)
Definition fs_remove_or_fail (faults : Faults) (p : path) : M unit :=
  match remove_error faults p with
  | Some error => throw error
  | None => fs_remove p
  end.

Definition fresh_uuid (env : Env) : M string :=
  fun w => (Return (uuidv4 env (tokens w)),
            mkWorld (uploadsDir w) (outputDir w) (removals w) (S (tokens w))).

(** The promise around [ffmpeg.ffprobe] (lines 114-119). *)
Definition probe (env : Env) (p : path) : M Metadata :=
  match ffprobe env p with
  | inr metadata => ret metadata
  | inl err => throw err
  end.

(** The promise around [command.output(outputPath)...run()] (lines
    153-171).  FFmpeg owns the output path while it runs: on [end] the
    file is there; on [error] whatever it had written stays. *)
Definition run_command (env : Env) (command : Command) : M unit :=
  fun w =>
    match run env command with
    | RunEnd => (Return tt, write (output command) (now env) w)
    | RunError err partial_output =>
        (Throw err, if partial_output then write (output command) (now env) w else w)
    end.

(** ** Requests and responses *)

(** A file as multer stored it: [path] is [uploadsDir/filename]. *)
Record UploadedFile := mkFile { originalname : string; filename : string }.

Definition file_path (file : UploadedFile) : path := mkPath Uploads (filename file).

Module VideoRequest.
(** [req.file] and [req.body] of /api/process-video.  [maxDuration] is
    what [parseFloat] made of the form field, [None] when the field is
    missing or not a number. *)
Record t := mk {
  file : option UploadedFile;
  textOverlays : list TextOverlay.t;
  videoName : option string;
  maxDuration : option Q
}.
End VideoRequest.

Module VideoData.
(** One entry of [videosData] (videoExportService.ts, 84-88). *)
Record t := mk {
  name : string;
  textOverlays : list TextOverlay.t;
  maxDuration : option Q
}.
End VideoData.

Module BatchRequest.
Record t := mk {
  files : list UploadedFile;
  videos : list VideoData.t
}.
End BatchRequest.

Record ItemSuccess := mkSuccess {
  success_originalName : string;
  success_filename : string;
  success_downloadUrl : string
}.

Record ItemError := mkItemError {
  error_originalName : string;
  error_message : string
}.

Inductive Response :=
| Status400 (error : string)
| Status500 (error details : string)
| VideoOk (filename downloadUrl : string)
| BatchOk (processed total : nat) (results : list ItemSuccess) (errors : list ItemError).

(** ** The FFmpeg command (lines 125-150 and 232-256) *)

Definition codec_options : list string :=
  ["-c:v libx264"; "-preset medium"; "-crf 23"; "-c:a aac"; "-b:a 128k"; "-movflags +faststart"].

(** [if (durationLimit && durationLimit > 0) command.duration(durationLimit)]. *)
Definition duration_option (durationLimit : option Q) : option Q :=
  match durationLimit with
  | Some limit => if Qlt_le_dec 0 limit then Some limit else None
  | None => None
  end.

(** [if (overlays.length > 0) command.complexFilter(textFilters.join(','))]. *)
Definition filter_option (overlays : list TextOverlay.t) (videoWidth videoHeight : Q) : option string :=
  match overlays with
  | [] => None
  | _ :: _ => Some (Compiler.filterComplex overlays videoWidth videoHeight)
  end.

Definition ffmpeg_command (inputPath : path) (durationLimit : option Q)
    (overlays : list TextOverlay.t) (videoWidth videoHeight : Q) (outputPath : path) : Command :=
  mkCommand inputPath codec_options (duration_option durationLimit)
            (filter_option overlays videoWidth videoHeight) outputPath.

(** [videoInfo.streams.find(s => s.codec_type === 'video')], then the
    read of [.width], which throws when there is no such stream. *)
Definition video_stream (videoInfo : Metadata) : M Stream :=
  match find (fun stream => String.eqb (codec_type stream) "video") (streams videoInfo) with
  | Some stream => ret stream
  | None => throw (TypeError "width")
  end.

Definition or_default (value : option string) (default : string) : string :=
  match value with
  | Some v => if JS.truthy v then v else default
  | None => default
  end.

Definition downloadUrl_of (outputFilename : string) : string :=
  "/api/download/" +:+ outputFilename.

(** ** POST /api/process-video (lines 99-195) *)

Definition process_video (env : Env) (req : VideoRequest.t) : M Response :=
  try_catch
    match VideoRequest.file req with
    | None => ret (Status400 "No video file provided")
    | Some file =>
        let overlays := VideoRequest.textOverlays req in
        let durationLimit := VideoRequest.maxDuration req in
        let inputPath := file_path file in
        let! token := fresh_uuid env in
        let outputFilename :=
          "processed-" +:+ or_default (VideoRequest.videoName req) "video" +:+ "-" +:+ token +:+ ".mp4" in
        let outputPath := mkPath Output outputFilename in
        let! videoInfo := probe env inputPath in
        let! videoStream := video_stream videoInfo in
        let videoWidth := stream_width videoStream in
        let videoHeight := stream_height videoStream in
        let command :=
          ffmpeg_command inputPath durationLimit overlays videoWidth videoHeight outputPath in
        exec! run_command env command in
        exec! fs_remove inputPath in
        ret (VideoOk outputFilename (downloadUrl_of outputFilename))
    end
    (fun error =>
       exec! match VideoRequest.file req with
             | Some file => fs_remove (file_path file)
             | None => ret tt
             end in
       ret (Status500 "Video processing failed" (message error))).

(** ** POST /api/process-batch (lines 198-312) *)

(** Reading [videoData.name]: a [TypeError] when [videos[i]] is
    [undefined]. *)
Definition name_of (videoData : option VideoData.t) : M VideoData.t :=
  match videoData with
  | Some data => ret data
  | None => throw (TypeError "name")
  end.

Definition Tally : Type := list ItemSuccess * list ItemError.

(** The body of the inner [try] (lines 216-275); [name_of] stands at the
    first read of [videoData.name], in the template of line 217. *)
Definition process_item (env : Env) (file : UploadedFile) (videoData : option VideoData.t)
    (tally : Tally) : M Tally :=
  let inputPath := file_path file in
  let! data := name_of videoData in
  let! token := fresh_uuid env in
  let outputFilename := "processed-" +:+ VideoData.name data +:+ "-" +:+ token +:+ ".mp4" in
  let outputPath := mkPath Output outputFilename in
  let! videoInfo := probe env inputPath in
  let! videoStream := video_stream videoInfo in
  let videoWidth := stream_width videoStream in
  let videoHeight := stream_height videoStream in
  let command :=
    ffmpeg_command inputPath (VideoData.maxDuration data) (VideoData.textOverlays data)
                   videoWidth videoHeight outputPath in
  exec! run_command env command in
  exec! fs_remove inputPath in
  ret (tally.1 ++ [mkSuccess (VideoData.name data) outputFilename (downloadUrl_of outputFilename)],
       tally.2).

(** The inner [catch] (lines 277-286): the log line reads
    [videoData.name] before anything else. *)
Definition item_failed (file : UploadedFile) (videoData : option VideoData.t)
    (tally : Tally) (error : Error) : M Tally :=
  let! data := name_of videoData in
  let tally' := (tally.1, tally.2 ++ [mkItemError (VideoData.name data) (message error)]) in
  exec! fs_remove (file_path file) in
  ret tally'.

(** The [for] loop of line 211, entered at index [i] with the files from
    [i] on still to do. *)
Fixpoint batch_loop (env : Env) (videos : list VideoData.t) (i : nat)
    (files : list UploadedFile) (tally : Tally) : M Tally :=
  match files with
  | [] => ret tally
  | file :: rest =>
      let videoData := videos !! i in
      let! tally' :=
        try_catch (process_item env file videoData tally)
                  (item_failed file videoData tally) in
      batch_loop env videos (S i) rest tally'
  end.

Definition process_batch (env : Env) (req : BatchRequest.t) : M Response :=
  try_catch
    match BatchRequest.files req with
    | [] => ret (Status400 "No video files provided")
    | _ :: _ =>
        let! tally := batch_loop env (BatchRequest.videos req) 0 (BatchRequest.files req) ([], []) in
        ret (BatchOk (length tally.1) (length (BatchRequest.files req)) tally.1 tally.2)
    end
    (fun error =>
       exec! for_each (BatchRequest.files req) (fun file => fs_remove (file_path file)) in
       ret (Status500 "Batch processing failed" (message error))).

(** ** The batch route as express serves it (lines 31-51, 198-213, 372-378) *)

(** [process_batch] above takes the request as the handler sees it when
    multer has accepted the upload and [videosData] is an array of
    objects.  The route below starts earlier: at the file parts of the
    multipart body and at what [JSON.parse] makes of the field. *)

(** A file part of the multipart body: the form field it comes under,
    its MIME type, its size in bytes, and the file multer stores it as. *)
Record FilePart := mkPart {
  fieldname : string;
  mimetype : string;
  file_size : Z;
  stored : UploadedFile
}.

(** Line 43. *)
Definition fileSize_limit : Z := 500 * 1024 * 1024.

(** Lines 44-50. *)
Definition fileFilter (part : FilePart) : Error + unit :=
  if String.prefix "video/" (mimetype part) then inr tt
  else inl (mkError "Only video files are allowed").

(** [upload.array(field, maxCount)] with the filter and the limit of
    lines 41-51, part by part: multer refuses a part under another field
    name and a part beyond [maxCount] (both LIMIT_UNEXPECTED_FILE), a
    part the filter refuses, and a file above the size limit. *)
Fixpoint upload_array (field : string) (maxCount : nat) (parts : list FilePart) {struct parts}
    : Error + list UploadedFile :=
  match parts with
  | [] => inr []
  | part :: rest =>
      if negb (String.eqb (fieldname part) field) then inl (mkError "Unexpected field")
      else
        match maxCount with
        | O => inl (mkError "Unexpected field")
        | S remaining =>
            match fileFilter part with
            | inl error => inl error
            | inr _ =>
                if fileSize_limit <? file_size part then inl (mkError "File too large")
                else
                  match upload_array field remaining rest with
                  | inl error => inl error
                  | inr files => inr (stored part :: files)
                  end
            end
        end
  end.

(** What [videos[i]] reads when it is not [undefined]: [null], or a
    value that is read through its properties [name], [textOverlays] and
    [maxDuration], of the types the client sends them with. *)
Inductive Entry :=
| NullEntry
| ObjectEntry (data : VideoData.t).

(** What [JSON.parse] makes of the text of [videosData]: it throws a
    [SyntaxError], or returns [null], or returns a value the loop can
    index.  Of such a value the loop sees [videos[0]], [videos[1]], ...:
    [entries] lists them from index 0 up to the first that is
    [undefined], which for an array is all of its elements.  (The loop
    stops at the first [undefined] it reads, so what may follow it is
    never read.) *)
Inductive Parsed :=
| SyntaxError (error : Error)
| NullValue
| ArrayValue (entries : list Entry).

Module BatchForm.
(** [videosData] is [None] when the field is missing or empty. *)
Record t := mk {
  parts : list FilePart;
  videosData : option Parsed
}.
End BatchForm.

(** What the client gets: the answer of the handler, or the 500 of the
    error-handling middleware (lines 372-378), which multer's errors go
    to. *)
Inductive RouteAnswer :=
| InternalServerError (error : Error)
| Handled (response : Response).

Definition TypeError_null (what : string) : Error :=
  mkError ("Cannot read properties of null (reading '" +:+ what +:+ "')").






(** ** The single-video route as express serves it (lines 41-51, 99-195, 372-378) *)

(** [process_video] above takes the request when multer has accepted the
    upload and [textOverlays] is an array of overlays.  The route below
    starts at the file parts and at what [JSON.parse] makes of the
    field. *)

(** What [JSON.parse] makes of the text of [textOverlays]: it throws a
    [SyntaxError], or returns [null], or returns an array of overlays. *)
Inductive ParsedOverlays :=
| OverlaysSyntaxError (error : Error)
| OverlaysNull
| OverlaysArray (overlays : list TextOverlay.t).

Module VideoForm.
(** [textOverlays] is [None] when the field is missing or empty. *)
Record t := mk {
  parts : list FilePart;
  textOverlays : option ParsedOverlays;
  videoName : option string;
  maxDuration : option Q
}.
End VideoForm.

(** [JSON.parse(textOverlays || '[]')], line 106: the array, or [None]
    for [null]. *)
Definition parse_textOverlays (field : option ParsedOverlays) : M (option (list TextOverlay.t)) :=
  match field with
  | None => ret (Some [])
  | Some (OverlaysSyntaxError error) => throw error
  | Some OverlaysNull => ret None
  | Some (OverlaysArray overlays) => ret (Some overlays)
  end.

(** The read of [overlays.length], line 141. *)
Definition overlays_read (overlays : option (list TextOverlay.t)) : M (list TextOverlay.t) :=
  match overlays with
  | Some list => ret list
  | None => throw (TypeError_null "length")
  end.

(** The route.  [upload.single('video')] takes at most one file part, under
    the field [video]; [req.file] is that file, if there is one. *)
Definition video_route (env : Env) (form : VideoForm.t) : M RouteAnswer :=
  match upload_array "video" 1 (VideoForm.parts form) with
  | inl error => ret (InternalServerError error)
  | inr files =>
      let! response :=
        try_catch
          match head files with
          | None => ret (Status400 "No video file provided")
          | Some file =>
              let! parsed := parse_textOverlays (VideoForm.textOverlays form) in
              let durationLimit := VideoForm.maxDuration form in
              let inputPath := file_path file in
              let! token := fresh_uuid env in
              let outputFilename :=
                "processed-" +:+ or_default (VideoForm.videoName form) "video" +:+ "-" +:+ token +:+ ".mp4" in
              let outputPath := mkPath Output outputFilename in
              let! videoInfo := probe env inputPath in
              let! videoStream := video_stream videoInfo in
              let videoWidth := stream_width videoStream in
              let videoHeight := stream_height videoStream in
              let! overlays := overlays_read parsed in
              let command :=
                ffmpeg_command inputPath durationLimit overlays videoWidth videoHeight outputPath in
              exec! run_command env command in
              exec! fs_remove inputPath in
              ret (VideoOk outputFilename (downloadUrl_of outputFilename))
          end
          (fun error =>
             exec! match head files with
                   | Some file => fs_remove (file_path file)
                   | None => ret tt
                   end in
             ret (Status500 "Video processing failed" (message error))) in
      ret (Handled response)
  end.

(** ** The hourly sweep (lines 337-366) *)

Definition maxAge : Z := 24 * 60 * 60 * 1000.

(** The body of either loop (lines 345-350, 356-361). *)
Definition sweep_file (env : Env) (faults : Faults) (a : area) (file : string) : M unit :=
  let filePath := mkPath a file in
  let! mtime := fs_stat faults filePath in
  if now env - mtime >? maxAge then fs_remove_or_fail faults filePath else ret tt.

Definition sweep_directory (env : Env) (faults : Faults) (a : area) : M unit :=
  let! names := fs_readdir a in
  for_each names (sweep_file env faults a).

(** One [try] around both loops: the first error ends the pass, and the
    [catch] only logs it. *)
Definition cleanupOldFiles (env : Env) (faults : Faults) : M unit :=
  try_catch
    (exec! sweep_directory env faults Output in sweep_directory env faults Uploads)
    (fun error => ret tt).

(** ** The editor side (App.tsx, VideoList.tsx) *)

Module Editor.

(** App.tsx, 194-196; 300 is the editor's "no limit". *)
Definition getEffectiveDuration (maxDuration video_duration : Q) : Q :=
  if Qlt_le_dec maxDuration 300 then JS.Math_min video_duration maxDuration
  else video_duration.

(** App.tsx, 112-116: the overlay copy made when the cap changes. *)
Definition clampOverlay (duration : Q) (overlay : TextOverlay.t) : TextOverlay.t :=
  TextOverlay.mk
    (TextOverlay.id overlay) (TextOverlay.text overlay)
    (TextOverlay.x overlay) (TextOverlay.y overlay)
    (TextOverlay.width overlay) (TextOverlay.height overlay)
    (TextOverlay.fontSize overlay) (TextOverlay.fontWeight overlay)
    (TextOverlay.color overlay) (TextOverlay.outlineColor overlay)
    (TextOverlay.outlineWidth overlay) (TextOverlay.opacity overlay)
    (JS.Math_min (TextOverlay.startTime overlay) (duration - (1 # 2)))
    (JS.Math_min (TextOverlay.endTime overlay) duration)
    (TextOverlay.fontFamily overlay) (TextOverlay.textAlign overlay)
    (TextOverlay.animation overlay).

(** App.tsx, 105-119, on the overlays of one video. *)
Definition handleMaxDurationChange (duration : Q) (textOverlays : list TextOverlay.t)
    : list TextOverlay.t :=
  if Qlt_le_dec duration 300 then map (clampOverlay duration) textOverlays
  else textOverlays.

(** App.tsx, 141: the cap travels only when there is one. *)
Definition exported_maxDuration (maxDuration : Q) : option Q :=
  if Qlt_le_dec maxDuration 300 then Some maxDuration else None.


End Editor.

(** ** Vocabulary of the statements *)

(** None of the definitions below is code of the repository; they name
    what the properties talk about. *)

Module Grammar.


(** [needle] occurs in [s]. *)
Fixpoint occurs_in (needle s : string) : bool :=
  String.prefix needle s ||
  match s with
  | EmptyString => false
  | String _ s' => occurs_in needle s'
  end.

Fixpoint count_char (c : ascii) (s : string) : nat :=
  match s with
  | EmptyString => O
  | String a s' => (if Ascii.eqb a c then 1 else 0) + count_char c s'
  end.

(** The number of pieces [s.split(',')] has. *)
Definition comma_segments (s : string) : nat := S (count_char "," s).

(** No backslash in [s]. *)
Definition backslash_free (s : string) : Prop := count_char "\" s = O.

(** The reader that matches the compiler's writer: after an opening
    quote, a backslash makes the next character literal, and the first
    quote that is not made literal ends the value.  The result is the
    value read and what follows its closing quote. *)
Fixpoint read_quoted_from (escaped : bool) (s : string) : option (string * string) :=
  match s with
  | EmptyString => None
  | String c rest =>
      if escaped then
        prod_map (String c) (fun r => r) <$> read_quoted_from false rest
      else if Ascii.eqb c "\" then read_quoted_from true rest
      else if Ascii.eqb c "'" then Some (EmptyString, rest)
      else prod_map (String c) (fun r => r) <$> read_quoted_from false rest
  end.

Definition read_quoted : string -> option (string * string) := read_quoted_from false.

Fixpoint strip_prefix (p s : string) : option string :=
  match p, s with
  | EmptyString, _ => Some s
  | String a p', String b s' => if Ascii.eqb a b then strip_prefix p' s' else None
  | String _ _, EmptyString => None
  end.

(** The value of the [text] parameter of a compiled filter, and the
    parameters that follow it. *)
Definition text_parameter (filter : string) : option (string * string) :=
  strip_prefix "drawtext=text='" filter ≫= read_quoted.

End Grammar.

(** [z] is [q] rounded to the nearest integer, a tie going up. *)
Definition rounds_to (q : Q) (z : Z) : Prop :=
  (q - (1 # 2) < inject_Z z /\ inject_Z z <= q + (1 # 2))%Q.

(** [r] is the double [d] rounded: the nearest integer to the number [d]
    is, a tie going up, and no integer when [d] is an infinity or NaN. *)
Definition rounds_double (d : float) (r : Binary64.Rounded) : Prop :=
  match Binary64.value d with
  | Some q => exists n, r = Binary64.Integer n /\ rounds_to q n
  | None => forall n, r <> Binary64.Integer n
  end.

(** The effective duration as the specification words it: the cap when
    one is set and lies below the natural duration, the natural duration
    otherwise. *)
Definition spec_effectiveDuration (maxDuration : option Q) (naturalDuration : Q) : Q :=
  match maxDuration with
  | Some cap => if Qlt_le_dec cap naturalDuration then cap else naturalDuration
  | None => naturalDuration
  end.



(** An overlay with another text. *)
Definition with_text (text : string) (overlay : TextOverlay.t) : TextOverlay.t :=
  TextOverlay.mk
    (TextOverlay.id overlay) text
    (TextOverlay.x overlay) (TextOverlay.y overlay)
    (TextOverlay.width overlay) (TextOverlay.height overlay)
    (TextOverlay.fontSize overlay) (TextOverlay.fontWeight overlay)
    (TextOverlay.color overlay) (TextOverlay.outlineColor overlay)
    (TextOverlay.outlineWidth overlay) (TextOverlay.opacity overlay)
    (TextOverlay.startTime overlay) (TextOverlay.endTime overlay)
    (TextOverlay.fontFamily overlay) (TextOverlay.textAlign overlay)
    (TextOverlay.animation overlay).

(** The terminal state a response of /api/process-video reports. *)
Inductive Terminal := Completed | Failed.

Definition terminal_state (response : Response) : option Terminal :=
  match response with
  | VideoOk _ _ => Some Completed
  | Status500 _ _ => Some Failed
  | _ => None
  end.

(** The name /api/process-video gives its output when it starts in [w]. *)
Definition output_name (env : Env) (req : VideoRequest.t) (w : World) : string :=
  "processed-" +:+ or_default (VideoRequest.videoName req) "video" +:+ "-" +:+
  uuidv4 env (tokens w) +:+ ".mp4".

(** How one batch item ends, as a function of what the collaborators
    answer: the entry for [results], or the error thrown. *)
Definition item_outcome (env : Env) (token : string) (file : UploadedFile)
    (data : VideoData.t) : Error + ItemSuccess :=
  match ffprobe env (file_path file) with
  | inl err => inl err
  | inr videoInfo =>
      match find (fun stream => String.eqb (codec_type stream) "video") (streams videoInfo) with
      | None => inl (TypeError "width")
      | Some videoStream =>
          let outputFilename := "processed-" +:+ VideoData.name data +:+ "-" +:+ token +:+ ".mp4" in
          let command :=
            ffmpeg_command (file_path file) (VideoData.maxDuration data)
                           (VideoData.textOverlays data)
                           (stream_width videoStream) (stream_height videoStream)
                           (mkPath Output outputFilename) in
          match run env command with
          | RunEnd =>
              inr (mkSuccess (VideoData.name data) outputFilename (downloadUrl_of outputFilename))
          | RunError err _ => inl err
          end
      end
  end.

Definition item_fails (env : Env) (token : string) (file : UploadedFile)
    (data : VideoData.t) : bool :=
  match item_outcome env token file data with inl _ => true | inr _ => false end.

(** The two lists a batch reports, computed from the outcomes alone; item
    [k] of [items] draws the token numbered [n + k]. *)
Fixpoint successes (env : Env) (n : nat) (items : list (UploadedFile * VideoData.t))
    : list ItemSuccess :=
  match items with
  | [] => []
  | (file, data) :: rest =>
      match item_outcome env (uuidv4 env n) file data with
      | inr entry => entry :: successes env (S n) rest
      | inl _ => successes env (S n) rest
      end
  end.

Fixpoint failures (env : Env) (n : nat) (items : list (UploadedFile * VideoData.t))
    : list ItemError :=
  match items with
  | [] => []
  | (file, data) :: rest =>
      match item_outcome env (uuidv4 env n) file data with
      | inr _ => failures env (S n) rest
      | inl err => mkItemError (VideoData.name data) (message err) :: failures env (S n) rest
      end
  end.

(** Whether a response rejects the call as a whole. *)
Definition rejected (outcome : result Response) : bool :=
  match outcome with
  | Return (Status400 _) | Return (Status500 _ _) | Throw _ => true
  | Return _ => false
  end.





(** The form a well-typed single-video request arrives as. *)
Definition video_form_of (req : VideoRequest.t) : VideoForm.t :=
  VideoForm.mk (match VideoRequest.file req with
                | Some file => [mkPart "video" "video/mp4" 1024 file]
                | None => []
                end)
               (Some (OverlaysArray (VideoRequest.textOverlays req)))
               (VideoRequest.videoName req) (VideoRequest.maxDuration req).


(** A directory after a sweep at time [t]: what is not older than the
    retention window. *)
Definition swept (t : Z) (listing : gmap string Z) : gmap string Z :=
  filter (fun entry => ¬ (t - entry.2 > maxAge)) listing.

(** The overlay the editor creates for a video that has none
    (VideoList.tsx, 43-60), with the text and window of the first
    end-to-end scenario. *)
Definition scenario_overlay : TextOverlay.t :=
  TextOverlay.mk "1" "Hello" 15 50 70 20 24 "600" "#ffffff" "#000000" 2 1 0 5
                 "Inter" center none.

(** The overlay of the third end-to-end scenario: 18 s to 25 s. *)
Definition trimmed_overlay : TextOverlay.t :=
  TextOverlay.mk "3" "Hello" 15 50 70 20 24 "600" "#ffffff" "#000000" 2 1 18 25
                 "Inter" center none.

(** What the two chained [replace] calls do to one character. *)
Definition escape_char (c : ascii) : string :=
  if Ascii.eqb c "'" then "\'"
  else if Ascii.eqb c ":" then "\:"
  else String c "".

(** The commas of all the texts of a list of overlays. *)
Definition text_commas (overlays : list TextOverlay.t) : nat :=
  foldr (fun overlay n => (Grammar.count_char "," (TextOverlay.text overlay) + n)%nat) O overlays.

(** An overlay at x = 35, y = 70 with font size 25: on a 650x675 frame
    both coordinates are a half away from an integer, and so is the font
    size on a frame 920 wide. *)
Definition half_pixel_overlay : TextOverlay.t :=
  TextOverlay.mk "1" "Hello" 35 70 70 20 25 "600" "#ffffff" "#000000" 0 1 0 5
                 "Inter" center none.

(** An overlay whose text has a comma. *)
Definition comma_overlay : TextOverlay.t :=
  TextOverlay.mk "1" "Ready, set" 15 50 70 20 24 "600" "#ffffff" "#000000" 0 1 0 5
                 "Inter" center none.

(** An overlay whose text names a drive: a colon, then a backslash. *)
Definition backslash_overlay : TextOverlay.t :=
  TextOverlay.mk "1" "C:\" 15 50 70 20 24 "600" "#ffffff" "#000000" 2 1 0 5
                 "Inter" center none.

(** ** Concrete collaborators and requests *)

Definition hd_metadata : Metadata :=
  mkMetadata [mkStream "audio" 0 0; mkStream "video" 1920 1080].

Definition numbered_token (n : nat) : string :=
  "token" +:+ JS.Integer_toString (Z.of_nat n).

(** Collaborators that cannot probe "b.mp4" and encode everything else. *)
Definition scenario_env : Env :=
  mkEnv (fun p => if String.eqb (base p) "b.mp4"
                  then inl (mkError "Invalid data found when processing input")
                  else inr hd_metadata)
        (fun _ => RunEnd) numbered_token 1000.

(** Collaborators whose encoder fails after it has started to write. *)
Definition failing_encoder_env : Env :=
  mkEnv (fun _ => inr hd_metadata)
        (fun _ => RunError (mkError "ffmpeg exited with code 1") true)
        numbered_token 1000.

(** Three uploads, nothing rendered yet. *)
Definition scenario_world : World :=
  mkWorld (list_to_map [("a.mp4", 0); ("b.mp4", 0); ("c.mp4", 0)]) ∅ [] 0.

Definition scenario_files : list UploadedFile :=
  [mkFile "a.mp4" "a.mp4"; mkFile "b.mp4" "b.mp4"; mkFile "c.mp4" "c.mp4"].

(** The second end-to-end scenario: three assets, the second unreadable. *)
Definition scenario_batch : BatchRequest.t :=
  BatchRequest.mk scenario_files
    [VideoData.mk "first" [scenario_overlay] None;
     VideoData.mk "second" [] (Some 20%Q);
     VideoData.mk "third" [] None].




(** Three assets and metadata for the first only. *)
Definition short_batch : BatchRequest.t :=
  BatchRequest.mk scenario_files [VideoData.mk "first" [scenario_overlay] None].

Definition scenario_request : VideoRequest.t :=
  VideoRequest.mk (Some (mkFile "a.mp4" "a.mp4")) [scenario_overlay] (Some "clip") None.

(** Whether two output durations are the same number. *)
Definition same_duration (a b : option Q) : bool :=
  match a, b with
  | Some x, Some y => Qeq_bool x y
  | None, None => true
  | _, _ => false
  end.

(** Collaborators whose encoder ends only on a command that carries the
    output duration [expected], and reports an error on any other. *)
Definition duration_checking_env (expected : option Q) : Env :=
  mkEnv (fun _ => inr hd_metadata)
        (fun command =>
           if same_duration (duration command) expected then RunEnd
           else RunError (mkError "unexpected output duration") false)
        numbered_token 1000.

(** Collaborators that probe and encode everything. *)
Definition accepting_env : Env :=
  mkEnv (fun _ => inr hd_metadata) (fun _ => RunEnd) numbered_token 1000.

(** The first scenario's request without overlays and with a cap of 20 s. *)
Definition capped_request : VideoRequest.t :=
  VideoRequest.mk (Some (mkFile "a.mp4" "a.mp4")) [] (Some "clip") (Some 20%Q).

(** The fourth end-to-end scenario: at hour 30, an output written at
    hour 5 (25 hours old) and one written at hour 29 (1 hour old), and an
    upload that is exactly 24 hours old. *)
Definition hour : Z := 60 * 60 * 1000.

Definition sweep_env : Env :=
  mkEnv (fun _ => inr hd_metadata) (fun _ => RunEnd) numbered_token (30 * hour).

Definition sweep_world : World :=
  mkWorld (list_to_map [("orphan.mp4", 6 * hour)])
          (list_to_map [("old.mp4", 5 * hour); ("recent.mp4", 29 * hour)]) [] 0.



(** No path of the two directories of [w] is refused. *)
Definition fault_free (faults : Faults) (w : World) : Prop :=
  forall a name,
    is_Some (listing w a !! name) ->
    stat_error faults (mkPath a name) = None /\ remove_error faults (mkPath a name) = None.

(** What a pass at time [t] may do to a world, whatever fails: an entry
    stays as it is, or it was older than the window and is gone. *)
Definition only_old_removed (t : Z) (w w' : World) : Prop :=
  forall a name,
    listing w' a !! name = listing w a !! name \/
    (listing w' a !! name = None /\
     exists mtime, listing w a !! name = Some mtime /\ t - mtime > maxAge).

(** ** More of the server: GET /api/download/:filename (lines 315-334) *)

Inductive DownloadResponse :=
| FileNotFound
| FileSent (filePath : path).

(** [fs.pathExists]. *)
Definition fs_pathExists (p : path) : M bool :=
  fun w => (Return (exists_at w p), w).

Definition download (filename : string) : M DownloadResponse :=
  let filePath := mkPath Output filename in
  let! found := fs_pathExists filePath in
  if negb found then ret FileNotFound else ret (FileSent filePath).

(** ** More of the editor *)

(** [Math.max] on two numbers. *)
Definition Math_max (a b : Q) : Q := if Qle_bool a b then b else a.

(** [Math.floor]. *)
Definition Math_floor (q : Q) : Z := Qfloor q.

(** [a % b] on numbers: the remainder has the sign of [a]. *)
Definition remainder (a b : Q) : Q :=
  let quotient := (a / b)%Q in
  (a - b * inject_Z (if Qlt_le_dec quotient 0 then Qceiling quotient else Qfloor quotient))%Q.

(** [s.padStart(2, '0')]. *)
Definition padStart2 (s : string) : string :=
  match String.length s with
  | O => "00"
  | S O => "0" +:+ s
  | _ => s
  end.

(** videoUtils, [formatTime]. *)
Definition formatTime (seconds : Q) : string :=
  let mins := Math_floor (seconds / 60) in
  let secs := Math_floor (remainder seconds 60) in
  padStart2 (JS.Integer_toString mins) +:+ ":" +:+ padStart2 (JS.Integer_toString secs).

Module ReelDimensions.
Record t := mk {
  width : Q;
  height : Q;
  scale : Q;
  offsetX : Q;
  offsetY : Q
}.
End ReelDimensions.

(** videoUtils, [calculateReelDimensions]. *)
Definition calculateReelDimensions (originalWidth originalHeight : Q) : ReelDimensions.t :=
  let reelAspectRatio := (9 / 16)%Q in
  let originalAspectRatio := (originalWidth / originalHeight)%Q in
  if Qlt_le_dec reelAspectRatio originalAspectRatio then
    ReelDimensions.mk (originalHeight * reelAspectRatio) originalHeight 1
                      ((originalWidth - originalHeight * reelAspectRatio) / 2) 0
  else
    ReelDimensions.mk originalWidth (originalWidth / reelAspectRatio) 1
                      0 ((originalHeight - originalWidth / reelAspectRatio) / 2).

(** [Partial<TextOverlay>]: the fields an update carries. *)
Module Partial.
Record t := mk {
  id : option string;
  text : option string;
  x : option Q;
  y : option Q;
  width : option Q;
  height : option Q;
  fontSize : option Q;
  fontWeight : option string;
  color : option string;
  outlineColor : option string;
  outlineWidth : option Q;
  opacity : option Q;
  startTime : option Q;
  endTime : option Q;
  fontFamily : option string;
  textAlign : option TextAlign;
  animation : option Animation
}.

Definition empty : t :=
  mk None None None None None None None None None None None None None None None None None.

(** [{ startTime: s }], [{ endTime: e }] and [{ startTime: s, endTime: e }]. *)
Definition of_startTime (s : Q) : t :=
  mk None None None None None None None None None None None None (Some s) None None None None.

Definition of_endTime (e : Q) : t :=
  mk None None None None None None None None None None None None None (Some e) None None None.

Definition of_window (s e : Q) : t :=
  mk None None None None None None None None None None None None (Some s) (Some e) None None None.
End Partial.

(** [{ ...overlay, ...updates }]. *)
Definition spread (overlay : TextOverlay.t) (updates : Partial.t) : TextOverlay.t :=
  TextOverlay.mk
    (default (TextOverlay.id overlay) (Partial.id updates))
    (default (TextOverlay.text overlay) (Partial.text updates))
    (default (TextOverlay.x overlay) (Partial.x updates))
    (default (TextOverlay.y overlay) (Partial.y updates))
    (default (TextOverlay.width overlay) (Partial.width updates))
    (default (TextOverlay.height overlay) (Partial.height updates))
    (default (TextOverlay.fontSize overlay) (Partial.fontSize updates))
    (default (TextOverlay.fontWeight overlay) (Partial.fontWeight updates))
    (default (TextOverlay.color overlay) (Partial.color updates))
    (default (TextOverlay.outlineColor overlay) (Partial.outlineColor updates))
    (default (TextOverlay.outlineWidth overlay) (Partial.outlineWidth updates))
    (default (TextOverlay.opacity overlay) (Partial.opacity updates))
    (default (TextOverlay.startTime overlay) (Partial.startTime updates))
    (default (TextOverlay.endTime overlay) (Partial.endTime updates))
    (default (TextOverlay.fontFamily overlay) (Partial.fontFamily updates))
    (default (TextOverlay.textAlign overlay) (Partial.textAlign updates))
    (default (TextOverlay.animation overlay) (Partial.animation updates)).

(** A browser [File], by name and MIME type. *)
Record ClientFile := mkClientFile { file_name : string; file_type : string }.

Module VideoFile.
(** src/types, [VideoFile]. *)
Record t := mk {
  id : string;
  file : ClientFile;
  url : string;
  duration : Q;
  width : Q;
  height : Q;
  name : string;
  textOverlays : list TextOverlay.t
}.

Definition with_textOverlays (overlays : list TextOverlay.t) (video : t) : t :=
  mk (id video) (file video) (url video) (duration video) (width video) (height video)
     (name video) overlays.
End VideoFile.

(** [xs.findIndex(p)]: the first index, or -1. *)
Fixpoint findIndex_from {A} (p : A -> bool) (xs : list A) (i : Z) : Z :=
  match xs with
  | [] => -1
  | x :: rest => if p x then i else findIndex_from p rest (i + 1)
  end.

Definition findIndex {A} (p : A -> bool) (xs : list A) : Z := findIndex_from p xs 0.

(** [xs[i]] for a number [i]. *)
Definition at_index {A} (xs : list A) (i : Z) : option A :=
  if i <? 0 then None else xs !! Z.to_nat i.

Module App.

(** The part of the component state the handlers below read and write. *)
Record State := mkState {
  videos : list VideoFile.t;
  currentVideoIndex : Z;
  currentTime : Q;
  isPlaying : bool
}.

Definition with_id (newId : string) (overlay : TextOverlay.t) : TextOverlay.t :=
  spread overlay
    (Partial.mk (Some newId) None None None None None None None None None None None None None
                None None None).

(** App.tsx, 62-74; [newId] is the string drawn from the clock and
    [Math.random].  The state update is the function given to [setVideos]. *)
Definition handleAddOverlay (newId videoId : string) (overlay : TextOverlay.t)
    (prev : list VideoFile.t) : list VideoFile.t :=
  let newOverlay := with_id newId overlay in
  map (fun video =>
         if String.eqb (VideoFile.id video) videoId
         then VideoFile.with_textOverlays (VideoFile.textOverlays video ++ [newOverlay]) video
         else video) prev.

(** App.tsx, 76-87. *)
Definition handleUpdateOverlay (videoId overlayId : string) (updates : Partial.t)
    (prev : list VideoFile.t) : list VideoFile.t :=
  map (fun video =>
         if String.eqb (VideoFile.id video) videoId
         then VideoFile.with_textOverlays
                (map (fun overlay =>
                        if String.eqb (TextOverlay.id overlay) overlayId
                        then spread overlay updates else overlay)
                     (VideoFile.textOverlays video)) video
         else video) prev.

(** App.tsx, 89-95. *)
Definition handleDeleteOverlay (videoId overlayId : string)
    (prev : list VideoFile.t) : list VideoFile.t :=
  map (fun video =>
         if String.eqb (VideoFile.id video) videoId
         then VideoFile.with_textOverlays
                (List.filter (fun overlay => negb (String.eqb (TextOverlay.id overlay) overlayId))
                             (VideoFile.textOverlays video)) video
         else video) prev.

(** App.tsx, 22. *)
Definition currentVideo (s : State) : option VideoFile.t :=
  at_index (videos s) (currentVideoIndex s).

(** App.tsx, 31-52.  The object URL that is revoked is outside the
    state. *)
Definition handleRemoveVideo (videoId : string) (s : State) : State :=
  let videoIndex := findIndex (fun v => String.eqb (VideoFile.id v) videoId) (videos s) in
  if videoIndex =? -1 then s
  else
    let videos' := List.filter (fun v => negb (String.eqb (VideoFile.id v) videoId)) (videos s) in
    let len := Z.of_nat (length (videos s)) in
    if (videoIndex =? currentVideoIndex s) && (1 <? len) then
      if videoIndex =? len - 1
      then mkState videos' (videoIndex - 1) (currentTime s) (isPlaying s)
      else mkState videos' (currentVideoIndex s) (currentTime s) (isPlaying s)
    else if videoIndex <? currentVideoIndex s then
      mkState videos' (currentVideoIndex s - 1) (currentTime s) (isPlaying s)
    else if len =? 1 then
      mkState videos' 0 0 false
    else mkState videos' (currentVideoIndex s) (currentTime s) (isPlaying s).

(** App.tsx, 54-60. *)
Definition handleSelectVideo (videoId : string) (s : State) : State :=
  let index := findIndex (fun v => String.eqb (VideoFile.id v) videoId) (videos s) in
  if index =? -1 then s else mkState (videos s) index 0 false.

End App.

(** ** The timeline (Timeline.tsx) *)

Inductive DragType := DragStart | DragEnd | DragMove.

Module Timeline.

(** Line 27. *)
Definition effectiveDuration (duration maxDuration : Q) : Q :=
  if Qlt_le_dec maxDuration 300 then JS.Math_min duration maxDuration else duration.

(** Lines 30-40: the time handed to [onSeek], if any.  [rect_left] and
    [rect_width] are the bounding rectangle of the track. *)
Definition handleTimelineClick (isDragging : option string) (clientX rect_left rect_width : Q)
    (effectiveDuration : Q) : option Q :=
  match isDragging with
  | Some _ => None
  | None =>
      let x := (clientX - rect_left)%Q in
      let percentage := (x / rect_width)%Q in
      let time := (percentage * effectiveDuration)%Q in
      Some (Math_max 0 (JS.Math_min effectiveDuration time))
  end.

(** Lines 47-74: the overlay id and the update handed to
    [onUpdateOverlay], if any. *)
Definition handleMouseMove (isDragging : option string) (dragType : option DragType)
    (textOverlays : list TextOverlay.t) (clientX rect_left rect_width : Q)
    (effectiveDuration : Q) : option (string * Partial.t) :=
  match isDragging, dragType with
  | Some dragged, Some type =>
      let x := (clientX - rect_left)%Q in
      let percentage := Math_max 0 (JS.Math_min 1 (x / rect_width)) in
      let time := (percentage * effectiveDuration)%Q in
      match find (fun o => String.eqb (TextOverlay.id o) dragged) textOverlays with
      | None => None
      | Some overlay =>
          match type with
          | DragStart =>
              Some (dragged,
                    Partial.of_startTime
                      (Math_max 0
                         (JS.Math_min time
                            (JS.Math_min (TextOverlay.endTime overlay - (1 # 10))
                                         (effectiveDuration - (1 # 10))))))
          | DragEnd =>
              Some (dragged,
                    Partial.of_endTime
                      (Math_max (TextOverlay.startTime overlay + (1 # 10))
                                (JS.Math_min time effectiveDuration)))
          | DragMove =>
              let overlayDuration :=
                (TextOverlay.endTime overlay - TextOverlay.startTime overlay)%Q in
              let newStartTime :=
                Math_max 0 (JS.Math_min time (effectiveDuration - overlayDuration)) in
              Some (dragged,
                    Partial.of_window newStartTime
                      (JS.Math_min (newStartTime + overlayDuration) effectiveDuration))
          end
      end
  | _, _ => None
  end.

End Timeline.

(** ** The export service and its caller (videoExportService.ts, App.tsx) *)

Module BatchExportResult.
Record t := mk {
  success : bool;
  processed : nat;
  total : nat;
  results : list ItemSuccess;
  errors : list ItemError
}.
End BatchExportResult.

(** One entry of the list handed to [exportMultipleVideos]. *)
Module ExportVideo.
Record t := mk {
  file : ClientFile;
  name : string;
  textOverlays : list TextOverlay.t;
  maxDuration : option Q
}.
End ExportVideo.

(** What the batch request comes back with: [fetch] rejects, or the
    server answers with an error status and its [error] field, or with
    200 and the batch summary. *)
Inductive Reply :=
| NetworkFailure (failure : string)
| NotOk (error : string)
| Ok (processed total : nat) (results : list ItemSuccess) (errors : list ItemError).

(** The reply that carries a response of /api/process-batch. *)
Definition reply_of (response : Response) : option Reply :=
  match response with
  | Status400 error => Some (NotOk error)
  | Status500 error _ => Some (NotOk error)
  | BatchOk processed total results errors => Some (Ok processed total results errors)
  | VideoOk _ _ => None
  end.

(** The two fields of the form, lines 77-89: the files in order, and
    [videosData]. *)
Definition form_files (videos : list ExportVideo.t) : list ClientFile :=
  map ExportVideo.file videos.

Definition form_videosData (videos : list ExportVideo.t) : list VideoData.t :=
  map (fun video =>
         VideoData.mk (ExportVideo.name video) (ExportVideo.textOverlays video)
                      (ExportVideo.maxDuration video)) videos.

(** The [catch] of lines 104-116. *)
Definition export_failed (videos : list ExportVideo.t) (failure : string)
    : BatchExportResult.t :=
  BatchExportResult.mk false 0 (length videos) []
    (map (fun video => mkItemError (ExportVideo.name video) failure) videos).

(** [errorData.error || 'Batch export failed']. *)
Definition error_or (error default : string) : string :=
  if JS.truthy error then error else default.

(** [exportMultipleVideos], lines 65-117, given what [fetch] comes back
    with. *)
Definition exportMultipleVideos (videos : list ExportVideo.t) (reply : Reply)
    : BatchExportResult.t :=
  match reply with
  | NetworkFailure failure => export_failed videos failure
  | NotOk error => export_failed videos (error_or error "Batch export failed")
  | Ok processed total results errors =>
      BatchExportResult.mk true processed total results errors
  end.

(** A row of the export dialog (App.tsx, 160-172). *)
Record ExportRow := mkRow {
  row_originalName : string;
  row_filename : option string;
  row_downloadUrl : option string;
  row_success : bool;
  row_error : option string
}.

Definition formattedResults (result : BatchExportResult.t) : list ExportRow :=
  map (fun r => mkRow (success_originalName r) (Some (success_filename r))
                      (Some (success_downloadUrl r)) true None)
      (BatchExportResult.results result) ++
  map (fun e => mkRow (error_originalName e) None None false (Some (error_message e)))
      (BatchExportResult.errors result).

(** App.tsx, 137-142. *)
Definition videosToExport (maxDuration : Q) (videos : list VideoFile.t) : list ExportVideo.t :=
  map (fun video =>
         ExportVideo.mk (VideoFile.file video) (VideoFile.name video)
                        (VideoFile.textOverlays video)
                        (Editor.exported_maxDuration maxDuration)) videos.

(** [handleMultiExport], App.tsx, 121-187: the rows shown, if the export
    starts at all.  [serverAvailable] is the answer of the status check,
    [reply] what the batch request comes back with. *)
Definition handleMultiExport (maxDuration : Q) (videos : list VideoFile.t)
    (serverAvailable : bool) (reply : Reply) : option (list ExportRow) :=
  match videos with
  | [] => None
  | _ :: _ =>
      if negb serverAvailable then None
      else Some (formattedResults
                   (exportMultipleVideos (videosToExport maxDuration videos) reply))
  end.

(** ** Vocabulary of the further statements *)

(** Every quote and every colon of [s] stands right after a backslash;
    [after_backslash] tells whether the character before [s] is one. *)
Fixpoint specials_guarded (after_backslash : bool) (s : string) : bool :=
  match s with
  | EmptyString => true
  | String c rest =>
      (if Ascii.eqb c "'" || Ascii.eqb c ":" then after_backslash else true) &&
      specials_guarded (Ascii.eqb c "\") rest
  end.

(** The fields [createTextFilter] reads agree. *)
Definition same_compiled_fields (a b : TextOverlay.t) : Prop :=
  TextOverlay.text a = TextOverlay.text b /\
  TextOverlay.x a = TextOverlay.x b /\
  TextOverlay.y a = TextOverlay.y b /\
  TextOverlay.fontSize a = TextOverlay.fontSize b /\
  TextOverlay.color a = TextOverlay.color b /\
  TextOverlay.outlineColor a = TextOverlay.outlineColor b /\
  TextOverlay.outlineWidth a = TextOverlay.outlineWidth b /\
  TextOverlay.fontFamily a = TextOverlay.fontFamily b /\
  TextOverlay.startTime a = TextOverlay.startTime b /\
  TextOverlay.endTime a = TextOverlay.endTime b.


(** The scenario overlay as the preview shows it differently: half
    transparent, light, left-aligned, fading in. *)
Definition restyled_overlay : TextOverlay.t :=
  TextOverlay.mk "9" "Hello" 15 50 40 10 24 "300" "#ffffff" "#000000" 2 (1 # 2) 0 5
                 "Inter" left fadeIn.

(** A name without a path separator.  For such a name
    [path.join(dir, name)] is the file of that name in [dir], which is
    what [mkPath dir name] stands for; a name with a separator can be
    joined to a path outside [dir]. *)
Definition separator_free (s : string) : bool :=
  Nat.eqb (Grammar.count_char "/" s) 0 && Nat.eqb (Grammar.count_char "\" s) 0.

(** A file name proper: no separator, and not one of the names
    [path.join] reads as a directory. *)
Definition plain_name (s : string) : bool :=
  separator_free s &&
  negb (String.eqb s EmptyString || String.eqb s "." || String.eqb s "..").

(** The tokens numbered [n] to [n + count - 1] have no path separator, as
    UUIDs have none. *)
Definition plain_tokens (env : Env) (n count : nat) : Prop :=
  forall j, (j < count)%nat -> separator_free (uuidv4 env (n + j)) = true.

(** A request whose stored file name is a file name proper and whose
    submitted video name has no path separator. *)
Definition plain_video_request (req : VideoRequest.t) : Prop :=
  (forall file, VideoRequest.file req = Some file -> plain_name (filename file) = true) /\
  (forall name, VideoRequest.videoName req = Some name -> separator_free name = true).

Definition plain_batch_request (req : BatchRequest.t) : Prop :=
  Forall (fun file => plain_name (filename file) = true) (BatchRequest.files req) /\
  Forall (fun data => separator_free (VideoData.name data) = true) (BatchRequest.videos req).

(** [w'] comes from [w] by removing uploads and adding outputs only. *)
Definition consumes_uploads_adds_outputs (w w' : World) : Prop :=
  uploadsDir w' ⊆ uploadsDir w /\ dom (outputDir w) ⊆ dom (outputDir w').

(** The output name of a batch item. *)
Definition item_output_name (name token : string) : string :=
  "processed-" +:+ name +:+ "-" +:+ token +:+ ".mp4".

(** The tokens numbered [n] to [n + count - 1] have one length and are
    pairwise different, as version-4 UUIDs are. *)
Definition fresh_tokens (env : Env) (n count : nat) : Prop :=
  forall j k,
    (j < count)%nat -> (k < count)%nat ->
    String.length (uuidv4 env (n + j)) = String.length (uuidv4 env (n + k)) /\
    (uuidv4 env (n + j) = uuidv4 env (n + k) -> j = k).

(** Three videos in the editor, the second one selected and playing. *)
Definition clip (id name : string) (overlays : list TextOverlay.t) : VideoFile.t :=
  VideoFile.mk id (mkClientFile name "video/mp4") ("blob:" +:+ id) 60 1920 1080 name overlays.

Definition scenario_videos : list VideoFile.t :=
  [clip "a" "beach.mp4" [scenario_overlay]; clip "b" "city.mp4" [];
   clip "c" "hills.mp4" [trimmed_overlay]].

Definition scenario_state : App.State := App.mkState scenario_videos 1 (5 # 2) true.

(** Three videos, the last two under one id, the first selected. *)
Definition duplicate_id_state : App.State :=
  App.mkState [clip "a" "beach.mp4" []; clip "dup" "early.mp4" []; clip "dup" "late.mp4" []]
              0 (5 # 2) true.

(* ===================================================================== *)
(** * Part II: properties                                                  *)
(* ===================================================================== *)


(** ** Strings *)

#[local] Arguments String.append !s1 s2 : simpl nomatch.

Lemma string_app_assoc (a b c : string) : (a +:+ b) +:+ c = a +:+ (b +:+ c).
Proof. induction a as [|ch a IH]; cbn; [reflexivity | now rewrite IH]. Qed.

Lemma string_app_nil_r (a : string) : a +:+ "" = a.
Proof. induction a as [|ch a IH]; cbn; [reflexivity | now rewrite IH]. Qed.

Lemma string_app_cons (ch : ascii) (a b : string) : String ch a +:+ b = String ch (a +:+ b).
Proof. reflexivity. Qed.

Lemma count_char_app (c : ascii) (a b : string) :
  Grammar.count_char c (a +:+ b) = (Grammar.count_char c a + Grammar.count_char c b)%nat.
Proof.
  induction a as [|ch a IH]; cbn; [reflexivity|].
  rewrite IH. lia.
Qed.




(** ** Numbers *)

(** The rendering of a number depends on its value only, not on the
    fraction that represents it. *)
Lemma proportional_div_mod (a1 d1 a2 d2 : Z) :
  0 < d1 -> 0 < d2 -> a1 * d2 = a2 * d1 ->
  a1 / d1 = a2 / d2 /\ (a1 mod d1) * d2 = (a2 mod d2) * d1.
Proof.
  intros H1 H2 Heq.
  assert (Hq : a1 / d1 = a2 / d2).
  { rewrite <- (Z.div_mul_cancel_r a1 d1 d2) by lia.
    rewrite <- (Z.div_mul_cancel_r a2 d2 d1) by lia.
    rewrite Heq. f_equal. lia. }
  split; [exact Hq|].
  rewrite !Z.mod_eq by lia. rewrite Hq. nia.
Qed.

Lemma fraction_digits_proportional (fuel : nat) :
  forall r1 d1 r2 d2,
    0 < d1 -> 0 < d2 -> r1 * d2 = r2 * d1 ->
    JS.fraction_digits fuel r1 d1 = JS.fraction_digits fuel r2 d2.
Proof.
  induction fuel as [|fuel IH]; intros r1 d1 r2 d2 H1 H2 Heq; [reflexivity|].
  cbn [JS.fraction_digits].
  assert (Hz : (r1 =? 0) = (r2 =? 0)).
  { destruct (Z.eqb_spec r1 0), (Z.eqb_spec r2 0); try reflexivity; nia. }
  rewrite Hz. destruct (r2 =? 0); [reflexivity|].
  destruct (proportional_div_mod (10 * r1) d1 (10 * r2) d2 H1 H2) as [Hq Hr]; [lia|].
  rewrite Hq. f_equal. now apply IH.
Qed.

Lemma Number_toString_compat (p q : Q) :
  (p == q)%Q -> JS.Number_toString p = JS.Number_toString q.
Proof.
  unfold Qeq, JS.Number_toString. intros Heq.
  destruct p as [n1 d1], q as [n2 d2]. cbn [Qnum Qden] in *.
  assert (Hs : (n1 <? 0) = (n2 <? 0)).
  { destruct (Z.ltb_spec n1 0), (Z.ltb_spec n2 0); try reflexivity; nia. }
  destruct (proportional_div_mod (Z.abs n1) (Z.pos d1) (Z.abs n2) (Z.pos d2)) as [Hq Hr];
    [lia | lia | nia |].
  rewrite Hs, Hq.
  assert (Hz : (Z.abs n1 mod Z.pos d1 =? 0) = (Z.abs n2 mod Z.pos d2 =? 0)).
  { destruct (Z.eqb_spec (Z.abs n1 mod Z.pos d1) 0), (Z.eqb_spec (Z.abs n2 mod Z.pos d2) 0);
      try reflexivity; nia. }
  rewrite Hz. destruct (Z.abs n2 mod Z.pos d2 =? 0); [reflexivity|].
  do 2 f_equal. apply fraction_digits_proportional; lia.
Qed.

Lemma Math_round_compat (p q : Q) : (p == q)%Q -> JS.Math_round p = JS.Math_round q.
Proof. intros H. unfold JS.Math_round. now rewrite H. Qed.

Example Number_toString_samples :
  JS.Number_toString 18 = "18" /\ JS.Number_toString (1 # 2) = "0.5" /\
  JS.Number_toString (10 # 4) = "2.5" /\ JS.Number_toString (- (7 # 4)) = "-1.75" /\
  JS.Number_toString 0 = "0".
Proof. repeat split; vm_compute; reflexivity. Qed.

(** ** Rounding *)

Lemma Math_round_rounds_to (q : Q) : rounds_to q (JS.Math_round q).
Proof.
  unfold rounds_to, JS.Math_round.
  pose proof (Qfloor_le (q + (1 # 2))) as Hle.
  pose proof (Qlt_floor (q + (1 # 2))) as Hlt.
  rewrite inject_Z_plus in Hlt. change (inject_Z 1) with 1%Q in Hlt.
  split; lra.
Qed.

Lemma rounds_to_unique (q : Q) (z1 z2 : Z) : rounds_to q z1 -> rounds_to q z2 -> z1 = z2.
Proof.
  unfold rounds_to. intros [L1 U1] [L2 U2].
  assert (H12 : (inject_Z z1 < inject_Z (z2 + 1))%Q).
  { rewrite inject_Z_plus. change (inject_Z 1) with 1%Q. lra. }
  assert (H21 : (inject_Z z2 < inject_Z (z1 + 1))%Q).
  { rewrite inject_Z_plus. change (inject_Z 1) with 1%Q. lra. }
  rewrite <- Zlt_Qlt in H12, H21. lia.
Qed.

(** ** The overlay filter compiler *)

Lemma createTextFilter_shape (overlay : TextOverlay.t) (videoWidth videoHeight : Q) :
  Compiler.createTextFilter overlay videoWidth videoHeight =
    ("drawtext=text='" +:+ Compiler.escapeText (TextOverlay.text overlay) +:+
     "':x=" +:+ Binary64.toString (Compiler.pixel_x overlay videoWidth) +:+
     ":y=" +:+ Binary64.toString (Compiler.pixel_y overlay videoHeight) +:+
     ":fontsize=" +:+ Binary64.toString (Compiler.scaled_fontSize overlay videoWidth) +:+
     ":fontcolor=" +:+ TextOverlay.color overlay) +:+
    (if Qlt_le_dec 0 (TextOverlay.outlineWidth overlay)
     then Compiler.outline_clause overlay else "") +:+
    (if Compiler.wants_fontfile (TextOverlay.fontFamily overlay)
     then Compiler.fontfile_clause (TextOverlay.fontFamily overlay) else "") +:+
    Compiler.enable_clause (TextOverlay.startTime overlay) (TextOverlay.endTime overlay).
Proof.
  unfold Compiler.createTextFilter.
  destruct (Qlt_le_dec 0 (TextOverlay.outlineWidth overlay));
    destruct (Compiler.wants_fontfile (TextOverlay.fontFamily overlay));
    cbn zeta; rewrite ?string_app_assoc; reflexivity.
Qed.

Lemma double_compat (p q : Q) : (p == q)%Q -> Binary64.double p = Binary64.double q.
Proof. intros H. unfold Binary64.double. now rewrite (Qred_complete p q H). Qed.

(** The compiled filter depends on the frame size as a number. *)
Lemma createTextFilter_frame_compat (overlay : TextOverlay.t) (w1 h1 w2 h2 : Q) :
  (w1 == w2)%Q -> (h1 == h2)%Q ->
  Compiler.createTextFilter overlay w1 h1 = Compiler.createTextFilter overlay w2 h2.
Proof.
  intros Hw Hh. rewrite !createTextFilter_shape.
  unfold Compiler.pixel_x, Compiler.pixel_y, Compiler.scaled_fontSize,
    Compiler.position, Compiler.font_scale.
  now rewrite (double_compat w1 w2 Hw), (double_compat h1 h2 Hh).
Qed.

Lemma Math_round_rounds_double (d : float) : rounds_double d (Binary64.Math_round d).
Proof.
  unfold rounds_double, Binary64.Math_round.
  destruct (Binary64.value d) as [q|].
  - eexists. split; [reflexivity | apply Math_round_rounds_to].
  - intros n. now destruct (Prim2SF d).
Qed.

Lemma rounds_to_compat (p q : Q) (z : Z) : (p == q)%Q -> rounds_to p z -> rounds_to q z.
Proof. unfold rounds_to. intros H [L U]. split; lra. Qed.

(** C6, as the code has it.  The compiled filter carries, right after
    the text, the pixel position and the font size.  Each is [Math.round]
    of a product of doubles, [(x / 100) * width], [(y / 100) * height]
    and [fontSize * (width / 400)]: the nearest integer, a tie going up,
    to the number that double is, which is the nearest integer to the
    product of the numbers themselves whenever the double is that
    product.  On a 1920x1080 frame the overlay at x = 15, y = 50 lands on
    (288, 540). *)
Theorem compiled_position_and_font_size (overlay : TextOverlay.t) (videoWidth videoHeight : Q) :
  (exists tail,
     Compiler.createTextFilter overlay videoWidth videoHeight =
       "drawtext=text='" +:+ Compiler.escapeText (TextOverlay.text overlay) +:+
       "':x=" +:+ Binary64.toString (Compiler.pixel_x overlay videoWidth) +:+
       ":y=" +:+ Binary64.toString (Compiler.pixel_y overlay videoHeight) +:+
       ":fontsize=" +:+ Binary64.toString (Compiler.scaled_fontSize overlay videoWidth) +:+
       tail) /\
  rounds_double
    (PrimFloat.mul (PrimFloat.div (Binary64.double (TextOverlay.x overlay)) 100%float)
                   (Binary64.double videoWidth))
    (Compiler.pixel_x overlay videoWidth) /\
  rounds_double
    (PrimFloat.mul (PrimFloat.div (Binary64.double (TextOverlay.y overlay)) 100%float)
                   (Binary64.double videoHeight))
    (Compiler.pixel_y overlay videoHeight) /\
  rounds_double
    (PrimFloat.mul (Binary64.double (TextOverlay.fontSize overlay))
                   (PrimFloat.div (Binary64.double videoWidth) 400%float))
    (Compiler.scaled_fontSize overlay videoWidth) /\
  (forall q,
     Binary64.value (Compiler.position (TextOverlay.x overlay) videoWidth) = Some q ->
     (q == TextOverlay.x overlay / 100 * videoWidth)%Q ->
     exists n, Compiler.pixel_x overlay videoWidth = Binary64.Integer n /\
               rounds_to (TextOverlay.x overlay / 100 * videoWidth) n) /\
  (forall q,
     Binary64.value (Compiler.position (TextOverlay.y overlay) videoHeight) = Some q ->
     (q == TextOverlay.y overlay / 100 * videoHeight)%Q ->
     exists n, Compiler.pixel_y overlay videoHeight = Binary64.Integer n /\
               rounds_to (TextOverlay.y overlay / 100 * videoHeight) n) /\
  (forall q,
     Binary64.value (Compiler.font_scale (TextOverlay.fontSize overlay) videoWidth) = Some q ->
     (q == TextOverlay.fontSize overlay * (videoWidth / 400))%Q ->
     exists n, Compiler.scaled_fontSize overlay videoWidth = Binary64.Integer n /\
               rounds_to (TextOverlay.fontSize overlay * (videoWidth / 400)) n) /\
  Compiler.pixel_x scenario_overlay 1920 = Binary64.Integer 288 /\
  Compiler.pixel_y scenario_overlay 1080 = Binary64.Integer 540 /\
  Compiler.createTextFilter scenario_overlay 1920 1080 =
    "drawtext=text='Hello':x=288:y=540:fontsize=115:fontcolor=#ffffff:borderw=2:bordercolor=#000000:enable='between(t,0,5)'".
Proof.
  assert (Hexact : forall d q p,
            Binary64.value d = Some q -> (q == p)%Q ->
            exists n, Binary64.Math_round d = Binary64.Integer n /\ rounds_to p n).
  { intros d q p Hd Hq. pose proof (Math_round_rounds_double d) as H.
    unfold rounds_double in H. rewrite Hd in H. destruct H as (n & Hn & Hr).
    exists n. split; [exact Hn | exact (rounds_to_compat q p n Hq Hr)]. }
  split.
  { rewrite createTextFilter_shape. eexists. rewrite !string_app_assoc. reflexivity. }
  split; [apply Math_round_rounds_double|].
  split; [apply Math_round_rounds_double|].
  split; [apply Math_round_rounds_double|].
  split; [intros q; apply Hexact|].
  split; [intros q; apply Hexact|].
  split; [intros q; apply Hexact|].
  repeat split; vm_compute; reflexivity.
Qed.

(** C6, as stated, fails.  At x = 35 on a frame 650 wide the product of
    the numbers is 227.5, which rounds to 228; the product of the doubles
    is below 227.5, and the filter says x=227.  Likewise y = 70 on a
    frame 675 high gives 472 for 472.5, and the font size 25 on a frame
    920 wide gives 57 for 57.5. *)
Lemma position_rounds_the_double_product :
  rounds_to (TextOverlay.x half_pixel_overlay / 100 * 650) 228 /\
  Compiler.pixel_x half_pixel_overlay 650 = Binary64.Integer 227 /\
  rounds_to (TextOverlay.y half_pixel_overlay / 100 * 675) 473 /\
  Compiler.pixel_y half_pixel_overlay 675 = Binary64.Integer 472 /\
  rounds_to (TextOverlay.fontSize half_pixel_overlay * (920 / 400)) 58 /\
  Compiler.scaled_fontSize half_pixel_overlay 920 = Binary64.Integer 57 /\
  (exists q, Binary64.value (Compiler.position 35 650) = Some q /\ (q < 227 + 1 / 2)%Q) /\
  Compiler.createTextFilter half_pixel_overlay 650 675 =
    "drawtext=text='Hello':x=227:y=472:fontsize=41:fontcolor=#ffffff:enable='between(t,0,5)'".
Proof.
  assert (Hhalf : forall q z, (q - (1 # 2) == inject_Z z - 1)%Q -> rounds_to q z).
  { intros q z H. unfold rounds_to. split; lra. }
  split; [apply Hhalf; reflexivity|]. split; [vm_compute; reflexivity|].
  split; [apply Hhalf; reflexivity|]. split; [vm_compute; reflexivity|].
  split; [apply Hhalf; reflexivity|]. split; [vm_compute; reflexivity|].
  split; [|vm_compute; reflexivity].
  eexists. split; [vm_compute; reflexivity | reflexivity].
Qed.

(** Doubles the conversion gives: 0.35 and 0.1 are the doubles the
    numerals denote, one third is the quotient of 1 and 3, and a numeral
    beyond the range is an infinity. *)
Example double_samples :
  Binary64.double (35 # 100) = 0x1.6666666666666p-2%float /\
  Binary64.double (1 # 10) = 0x1.999999999999ap-4%float /\
  Binary64.double (1 # 3) = PrimFloat.div 1 3 /\
  Binary64.double 1920 = 1920%float /\
  Binary64.double (- (5 # 2)) = (-2.5)%float /\
  Binary64.Math_round (Binary64.double (10 ^ 400 # 1)) = Binary64.Infinite false /\
  Binary64.Math_round (Binary64.double (- (1 # 2))) = Binary64.Integer 0 /\
  Binary64.Math_round (Binary64.double (5 # 2)) = Binary64.Integer 3 /\
  Binary64.Math_round (Binary64.double (- (5 # 2))) = Binary64.Integer (-2).
Proof. repeat split; vm_compute; reflexivity. Qed.

(** *** Font selection *)




(** *** The visibility window *)








(** The third end-to-end scenario on the editor's side: once the cap is
    set to 20 s, the overlay 18..25 is held as 18..20, and that is what
    the server then compiles. *)
Example scenario_clamp :
  Compiler.createTextFilter (Editor.clampOverlay 20 trimmed_overlay) 1920 1080 =
    "drawtext=text='Hello':x=288:y=540:fontsize=115:fontcolor=#ffffff:borderw=2:bordercolor=#000000:enable='between(t,18,20)'".
Proof. vm_compute. reflexivity. Qed.


(** *** Text escaping *)

Lemma replace_all_app (c : ascii) (r a b : string) :
  JS.replace_all c r (a +:+ b) = JS.replace_all c r a +:+ JS.replace_all c r b.
Proof.
  induction a as [|ch a IH]; cbn; [reflexivity|].
  rewrite IH. destruct (Ascii.eqb ch c); cbn; [now rewrite string_app_assoc | reflexivity].
Qed.

Lemma escapeText_cons (c : ascii) (s : string) :
  Compiler.escapeText (String c s) = escape_char c +:+ Compiler.escapeText s.
Proof.
  unfold Compiler.escapeText, escape_char. cbn [JS.replace_all].
  destruct (Ascii.eqb_spec c "'") as [->|Hq].
  - rewrite replace_all_app. reflexivity.
  - cbn [JS.replace_all]. destruct (Ascii.eqb c ":"); reflexivity.
Qed.

Lemma escapeText_nil : Compiler.escapeText "" = "".
Proof. reflexivity. Qed.

Lemma escapeText_keeps_commas (text : string) :
  Grammar.count_char "," (Compiler.escapeText text) = Grammar.count_char "," text.
Proof.
  induction text as [|c text IH]; [reflexivity|].
  rewrite escapeText_cons, count_char_app, IH. unfold escape_char.
  destruct (Ascii.eqb_spec c "'") as [->|_]; [reflexivity|].
  destruct (Ascii.eqb_spec c ":") as [->|_]; [reflexivity|].
  cbn. lia.
Qed.

Lemma createTextFilter_commas (overlay : TextOverlay.t) (videoWidth videoHeight : Q) :
  (Grammar.count_char "," (TextOverlay.text overlay) <=
   Grammar.count_char "," (Compiler.createTextFilter overlay videoWidth videoHeight))%nat.
Proof.
  rewrite createTextFilter_shape, !count_char_app, escapeText_keeps_commas. lia.
Qed.

Lemma filterComplex_commas (overlays : list TextOverlay.t) (videoWidth videoHeight : Q) :
  (length overlays + text_commas overlays <=
   Grammar.comma_segments (Compiler.filterComplex overlays videoWidth videoHeight))%nat.
Proof.
  unfold Grammar.comma_segments, Compiler.filterComplex.
  induction overlays as [|overlay rest IH]; [cbn; lia|].
  pose proof (createTextFilter_commas overlay videoWidth videoHeight) as Hc.
  destruct rest as [|overlay' rest].
  - cbn in *. lia.
  - cbn [map JS.join length text_commas foldr] in *.
    rewrite !count_char_app.
    change (Grammar.count_char "," ",") with 1%nat. lia.
Qed.

Lemma createTextFilter_text_commas (overlay : TextOverlay.t) (videoWidth videoHeight : Q) :
  Grammar.count_char "," (Compiler.createTextFilter overlay videoWidth videoHeight) =
  (Grammar.count_char "," (Compiler.createTextFilter (with_text "" overlay) videoWidth videoHeight) +
   Grammar.count_char "," (TextOverlay.text overlay))%nat.
Proof.
  rewrite !createTextFilter_shape. destruct overlay.
  unfold Compiler.pixel_x, Compiler.pixel_y, Compiler.scaled_fontSize, Compiler.outline_clause.
  cbn [with_text TextOverlay.text TextOverlay.color TextOverlay.outlineWidth
       TextOverlay.fontFamily TextOverlay.startTime TextOverlay.endTime
       TextOverlay.x TextOverlay.y TextOverlay.fontSize TextOverlay.outlineColor].
  rewrite !count_char_app, escapeText_keeps_commas, escapeText_nil.
  change (Grammar.count_char "," "") with O. lia.
Qed.

Lemma filterComplex_cons (overlay next : TextOverlay.t) (rest : list TextOverlay.t)
    (videoWidth videoHeight : Q) :
  Compiler.filterComplex (overlay :: next :: rest) videoWidth videoHeight =
    Compiler.createTextFilter overlay videoWidth videoHeight +:+ "," +:+
    Compiler.filterComplex (next :: rest) videoWidth videoHeight.
Proof. reflexivity. Qed.

Lemma filterComplex_text_commas (overlays : list TextOverlay.t) (videoWidth videoHeight : Q) :
  Grammar.comma_segments (Compiler.filterComplex overlays videoWidth videoHeight) =
  (Grammar.comma_segments
     (Compiler.filterComplex (map (with_text "") overlays) videoWidth videoHeight) +
   text_commas overlays)%nat.
Proof.
  unfold Grammar.comma_segments.
  induction overlays as [|overlay rest IH]; [reflexivity|].
  pose proof (createTextFilter_text_commas overlay videoWidth videoHeight) as Hc.
  destruct rest as [|next rest].
  - cbn [map text_commas foldr]. unfold Compiler.filterComplex. cbn [map JS.join].
    rewrite Hc. lia.
  - cbn [map] in *. rewrite !filterComplex_cons, !count_char_app.
    change (Grammar.count_char "," ",") with 1%nat.
    cbn [text_commas foldr] in *. lia.
Qed.

(** C10.  The escaping step rewrites a quote to backslash-quote, a colon
    to backslash-colon, and copies every other character; so a text keeps
    all its commas.  The compiled expression is the filters in overlay
    order with one comma between neighbours, and every comma of a text
    adds exactly one piece to what the expression splits into at commas:
    the expression has as many pieces as the same overlays give with
    their texts emptied, plus the commas of the texts; that is at least
    the number of overlays plus the commas of the texts.  One overlay with
    the text "Ready, set" gives four pieces, the same overlay with the
    text "Ready set" three, and there is one overlay. *)
Theorem comma_reaches_expression_unescaped :
  (forall c text,
     Compiler.escapeText (String c text) =
       (if Ascii.eqb c "'" then "\'" else if Ascii.eqb c ":" then "\:" else String c "") +:+
       Compiler.escapeText text) /\
  (forall text,
     Grammar.count_char "," (Compiler.escapeText text) = Grammar.count_char "," text) /\
  (forall overlay videoWidth videoHeight,
     Compiler.filterComplex [overlay] videoWidth videoHeight =
       Compiler.createTextFilter overlay videoWidth videoHeight) /\
  (forall overlay next rest videoWidth videoHeight,
     Compiler.filterComplex (overlay :: next :: rest) videoWidth videoHeight =
       Compiler.createTextFilter overlay videoWidth videoHeight +:+ "," +:+
       Compiler.filterComplex (next :: rest) videoWidth videoHeight) /\
  (forall overlays videoWidth videoHeight,
     Grammar.comma_segments (Compiler.filterComplex overlays videoWidth videoHeight) =
       (Grammar.comma_segments
          (Compiler.filterComplex (map (with_text "") overlays) videoWidth videoHeight) +
        text_commas overlays)%nat) /\
  (forall overlays videoWidth videoHeight,
     (length overlays + text_commas overlays <=
      Grammar.comma_segments (Compiler.filterComplex overlays videoWidth videoHeight))%nat) /\
  Grammar.occurs_in "," (TextOverlay.text comma_overlay) = true /\
  Grammar.occurs_in "text='Ready, set':"
    (Compiler.filterComplex [comma_overlay] 1920 1080) = true /\
  Grammar.comma_segments (Compiler.filterComplex [comma_overlay] 1920 1080) = 4%nat /\
  Grammar.comma_segments
    (Compiler.filterComplex [with_text "Ready set" comma_overlay] 1920 1080) = 3%nat /\
  (length [comma_overlay] <
   Grammar.comma_segments (Compiler.filterComplex [comma_overlay] 1920 1080))%nat.
Proof.
  split; [exact escapeText_cons|].
  split; [exact escapeText_keeps_commas|].
  split; [reflexivity|].
  split; [exact filterComplex_cons|].
  split; [exact filterComplex_text_commas|].
  split; [exact filterComplex_commas|].
  split; [vm_compute; reflexivity|].
  split; [vm_compute; reflexivity|].
  split; [vm_compute; reflexivity|].
  split; [vm_compute; reflexivity|].
  pose proof (filterComplex_commas [comma_overlay] 1920 1080) as H.
  change (text_commas [comma_overlay]) with 1%nat in H. lia.
Qed.

(** A text without a backslash is read back whole: the value of the
    [text] parameter is the overlay's text, and the reader resumes at the
    parameter that follows. *)
Lemma read_quoted_escapeText (text rest : string) :
  Grammar.backslash_free text ->
  Grammar.read_quoted (Compiler.escapeText text +:+ "'" +:+ rest) = Some (text, rest).
Proof.
  unfold Grammar.read_quoted, Grammar.backslash_free.
  induction text as [|c text IH]; intros Hfree; [reflexivity|].
  cbn [Grammar.count_char] in Hfree.
  destruct (Ascii.eqb_spec c "\") as [->|Hb]; [discriminate Hfree|].
  cbn in Hfree. specialize (IH Hfree).
  rewrite escapeText_cons, string_app_assoc. unfold escape_char.
  cbn -[Compiler.escapeText] in IH.
  destruct (Ascii.eqb_spec c "'") as [->|Hq].
  - cbn -[Compiler.escapeText]. rewrite IH. reflexivity.
  - destruct (Ascii.eqb_spec c ":") as [->|Hc].
    + cbn -[Compiler.escapeText]. rewrite IH. reflexivity.
    + cbn -[Compiler.escapeText Ascii.eqb].
      destruct (Ascii.eqb_spec c "\"); [contradiction|].
      destruct (Ascii.eqb_spec c "'"); [contradiction|].
      rewrite IH. reflexivity.
Qed.

Lemma strip_prefix_app (p s : string) : Grammar.strip_prefix p (p +:+ s) = Some s.
Proof.
  induction p as [|c p IH]; cbn; [now destruct s|].
  now rewrite Ascii.eqb_refl.
Qed.

Lemma text_parameter_without_backslash (overlay : TextOverlay.t) (videoWidth videoHeight : Q) :
  Grammar.backslash_free (TextOverlay.text overlay) ->
  exists rest,
    Grammar.text_parameter (Compiler.createTextFilter overlay videoWidth videoHeight) =
      Some (TextOverlay.text overlay,
            ":x=" +:+ Binary64.toString (Compiler.pixel_x overlay videoWidth) +:+ rest).
Proof.
  intros Hfree. rewrite createTextFilter_shape. unfold Grammar.text_parameter.
  eexists. rewrite !string_app_assoc, strip_prefix_app. cbn [mbind option_bind].
  change ("':x=" +:+ ?t) with ("'" +:+ ":x=" +:+ t).
  rewrite (read_quoted_escapeText _ _ Hfree). reflexivity.
Qed.

(** C2 at the failing input.  The colon is escaped, the backslash is
    copied, and the copied backslash lands in front of the closing quote
    of the text parameter: the reader takes that quote for a literal one
    and runs on, so the value read is not the overlay's text and
    swallows the parameters up to the next quote. *)
Theorem backslash_breaks_text_parameter :
  Compiler.createTextFilter backslash_overlay 1920 1080 =
    "drawtext=text='C\:\':x=288:y=540:fontsize=115:fontcolor=#ffffff:borderw=2:bordercolor=#000000:enable='between(t,0,5)'" /\
  Grammar.text_parameter (Compiler.createTextFilter backslash_overlay 1920 1080) =
    Some ("C:':x=288:y=540:fontsize=115:fontcolor=#ffffff:borderw=2:bordercolor=#000000:enable=",
          "between(t,0,5)'") /\
  Grammar.text_parameter (Compiler.createTextFilter backslash_overlay 1920 1080) <>
    Some (TextOverlay.text backslash_overlay,
          ":x=288:y=540:fontsize=115:fontcolor=#ffffff:borderw=2:bordercolor=#000000:enable='between(t,0,5)'").
Proof.
  split; [vm_compute; reflexivity|].
  split; [vm_compute; reflexivity|].
  vm_compute. discriminate.
Qed.

(** ** The duration cap *)

Lemma getEffectiveDuration_spec (maxDuration naturalDuration : Q) :
  (Editor.getEffectiveDuration maxDuration naturalDuration ==
   spec_effectiveDuration (Editor.exported_maxDuration maxDuration) naturalDuration)%Q.
Proof.
  unfold Editor.getEffectiveDuration, Editor.exported_maxDuration, spec_effectiveDuration.
  destruct (Qlt_le_dec maxDuration 300) as [Hset|Hunset]; [|reflexivity].
  unfold JS.Math_min.
  destruct (Qlt_le_dec maxDuration naturalDuration) as [Hlt|Hge];
    destruct (Qle_bool naturalDuration maxDuration) eqn:E; try reflexivity.
  - apply Qle_bool_iff in E. lra.
  - destruct (Qlt_le_dec maxDuration naturalDuration) as [H|H]; [lra|].
    apply Qle_bool_iff in Hge. congruence.
Qed.

Lemma duration_option_positive (cap : Q) : (0 < cap)%Q -> duration_option (Some cap) = Some cap.
Proof. intros H. unfold duration_option. destruct (Qlt_le_dec 0 cap); [reflexivity | lra]. Qed.

(** ** Running the handlers *)

Ltac unfold_monad :=
  unfold probe, video_stream, name_of, fresh_uuid, fs_remove, run_command,
    try_catch, bind, ret, throw in *.

(** ** The batch handler *)

Section BatchRuns.

Context (env : Env).

Lemma batch_item_runs (file : UploadedFile) (data : VideoData.t)
    (tally : Tally) (w : World) :
  exists w',
    try_catch (process_item env file (Some data) tally)
              (item_failed file (Some data) tally) w =
      (Return match item_outcome env (uuidv4 env (tokens w)) file data with
              | inr entry => (tally.1 ++ [entry], tally.2)
              | inl err =>
                  (tally.1, tally.2 ++ [mkItemError (VideoData.name data) (message err)])
              end, w') /\
    tokens w' = S (tokens w).
Proof.
  unfold process_item, item_failed, item_outcome. unfold_monad. cbn.
  destruct (ffprobe env (file_path file)) as [err|videoInfo]; cbn.
  { eexists. split; reflexivity. }
  destruct (find _ (streams videoInfo)) as [videoStream|]; cbn.
  2: { eexists. split; reflexivity. }
  destruct (run env _) as [|err partial_output]; cbn.
  - eexists. split; reflexivity.
  - destruct partial_output; eexists; split; reflexivity.
Qed.

(** The loop on a batch whose metadata covers every file still to do:
    it returns, and its two lists grow by the successes and the failures
    of those files, in order. *)
Lemma batch_loop_covered (videos : list VideoData.t) (files : list UploadedFile) :
  forall (i : nat) (tally : Tally) (w : World),
    (i + length files <= length videos)%nat ->
    exists w',
      batch_loop env videos i files tally w =
        (Return (tally.1 ++ successes env (tokens w) (zip files (drop i videos)),
                 tally.2 ++ failures env (tokens w) (zip files (drop i videos))), w').
Proof.
  induction files as [|file rest IH]; intros i tally w Hlen.
  - cbn. unfold ret. exists w. now rewrite !app_nil_r; destruct tally.
  - cbn [length] in Hlen.
    destruct (lookup_lt_is_Some_2 videos i) as [data Hdata]; [lia|].
    rewrite (drop_S _ _ _ Hdata). cbn [zip zip_with successes failures batch_loop].
    rewrite Hdata.
    destruct (batch_item_runs file data tally w) as (w1 & Hrun & Htok).
    unfold bind at 1. rewrite Hrun. cbn beta iota.
    destruct (IH (S i) (match item_outcome env (uuidv4 env (tokens w)) file data with
                        | inr entry => (tally.1 ++ [entry], tally.2)
                        | inl err =>
                            (tally.1,
                             tally.2 ++ [mkItemError (VideoData.name data) (message err)])
                        end) w1) as (w2 & Hloop); [lia|].
    exists w2. etransitivity; [exact Hloop|]. rewrite Htok.
    destruct (item_outcome env (uuidv4 env (tokens w)) file data); cbn [fst snd];
      now rewrite <- app_assoc.
Qed.

(** The loop on a batch with a file that has no metadata: the read of
    [videoData.name] throws in the [try], and again in the [catch]. *)
Lemma batch_loop_uncovered (videos : list VideoData.t) (files : list UploadedFile) :
  forall (i : nat) (tally : Tally) (w : World),
    (i <= length videos)%nat ->
    (length videos < i + length files)%nat ->
    exists w', batch_loop env videos i files tally w = (Throw (TypeError "name"), w').
Proof.
  induction files as [|file rest IH]; intros i tally w Hi Hlen.
  - cbn [length] in Hlen. lia.
  - cbn [length batch_loop] in *.
    destruct (videos !! i) as [data|] eqn:Hdata.
    + destruct (batch_item_runs file data tally w) as (w1 & Hrun & _).
      unfold bind at 1. rewrite Hrun. cbn beta iota.
      apply lookup_lt_Some in Hdata.
      apply IH; lia.
    + exists w. reflexivity.
Qed.

Lemma successes_failures_length (items : list (UploadedFile * VideoData.t)) :
  forall n, (length (successes env n items) + length (failures env n items))%nat = length items.
Proof.
  induction items as [|[file data] rest IH]; intros n; [reflexivity|].
  cbn [successes failures]. specialize (IH (S n)).
  destruct (item_outcome env (uuidv4 env n) file data); cbn [length]; lia.
Qed.

Lemma outcome_is_reported (items : list (UploadedFile * VideoData.t)) :
  forall n k file data,
    items !! k = Some (file, data) ->
    match item_outcome env (uuidv4 env (n + k)) file data with
    | inr entry => entry ∈ successes env n items
    | inl err => mkItemError (VideoData.name data) (message err) ∈ failures env n items
    end.
Proof.
  induction items as [|[file0 data0] rest IH]; intros n k file data Hk; [discriminate Hk|].
  destruct k as [|k]; cbn [successes failures].
  - injection Hk as -> ->. rewrite Nat.add_0_r.
    destruct (item_outcome env (uuidv4 env n) file data); apply list_elem_of_here.
  - cbn in Hk. specialize (IH (S n) k file data Hk).
    replace (n + S k)%nat with (S n + k)%nat by lia.
    destruct (item_outcome env (uuidv4 env (S n + k)) file data);
      destruct (item_outcome env (uuidv4 env n) file0 data0);
      try apply list_elem_of_further; exact IH.
Qed.

Lemma all_succeed (items : list (UploadedFile * VideoData.t)) :
  forall n,
    (forall j file data,
       items !! j = Some (file, data) -> item_fails env (uuidv4 env (n + j)) file data = false) ->
    failures env n items = [] /\ length (successes env n items) = length items.
Proof.
  induction items as [|[file data] rest IH]; intros n Hall; [split; reflexivity|].
  cbn [successes failures].
  pose proof (Hall O file data eq_refl) as H0. rewrite Nat.add_0_r in H0.
  unfold item_fails in H0.
  destruct (item_outcome env (uuidv4 env n) file data); [discriminate H0|].
  destruct (IH (S n)) as [Hf Hs].
  { intros j f d Hj. replace (S n + j)%nat with (n + S j)%nat by lia. now apply Hall. }
  cbn [length]. now rewrite Hf, Hs.
Qed.

Lemma one_fails (items : list (UploadedFile * VideoData.t)) :
  forall n k file data,
    items !! k = Some (file, data) ->
    item_fails env (uuidv4 env (n + k)) file data = true ->
    (forall j file' data',
       j <> k -> items !! j = Some (file', data') ->
       item_fails env (uuidv4 env (n + j)) file' data' = false) ->
    (exists err,
       item_outcome env (uuidv4 env (n + k)) file data = inl err /\
       failures env n items = [mkItemError (VideoData.name data) (message err)]) /\
    S (length (successes env n items)) = length items.
Proof.
  induction items as [|[file0 data0] rest IH]; intros n k file data Hk Hfail Hothers;
    [discriminate Hk|].
  destruct k as [|k]; cbn [successes failures length].
  - injection Hk as -> ->. rewrite Nat.add_0_r in *.
    destruct (all_succeed rest (S n)) as [Hf Hs].
    { intros j f d Hj. replace (S n + j)%nat with (n + S j)%nat by lia.
      apply (Hothers (S j)); [lia | exact Hj]. }
    unfold item_fails in Hfail.
    destruct (item_outcome env (uuidv4 env n) file data) as [err|]; [|discriminate Hfail].
    split; [exists err; now rewrite Hf | now rewrite Hs].
  - cbn in Hk.
    pose proof (Hothers O file0 data0 ltac:(lia) eq_refl) as H0. rewrite Nat.add_0_r in H0.
    unfold item_fails in H0.
    destruct (item_outcome env (uuidv4 env n) file0 data0); [discriminate H0|].
    replace (n + S k)%nat with (S n + k)%nat in * by lia.
    destruct (IH (S n) k file data Hk Hfail) as [Herr Hlen].
    { intros j f d Hne Hj. replace (S n + j)%nat with (n + S j)%nat by lia.
      apply (Hothers (S j)); [lia | exact Hj]. }
    split; [exact Herr | cbn [length]; now rewrite Hlen].
Qed.

Lemma for_each_remove_returns (files : list UploadedFile) (w : World) :
  exists w', for_each files (fun file => fs_remove (file_path file)) w = (Return tt, w').
Proof.
  revert w. induction files as [|file rest IH]; intros w; cbn [for_each].
  - exists w. reflexivity.
  - unfold bind, fs_remove at 1. cbn beta iota. apply IH.
Qed.

Lemma process_batch_empty (req : BatchRequest.t) (w : World) :
  BatchRequest.files req = [] ->
  process_batch env req w = (Return (Status400 "No video files provided"), w).
Proof. intros H. unfold process_batch. rewrite H. reflexivity. Qed.

Lemma process_batch_covered (req : BatchRequest.t) (w : World) :
  BatchRequest.files req <> [] ->
  (length (BatchRequest.files req) <= length (BatchRequest.videos req))%nat ->
  exists w',
    process_batch env req w =
      (Return
         (BatchOk
            (length (successes env (tokens w)
                       (zip (BatchRequest.files req) (BatchRequest.videos req))))
            (length (BatchRequest.files req))
            (successes env (tokens w) (zip (BatchRequest.files req) (BatchRequest.videos req)))
            (failures env (tokens w) (zip (BatchRequest.files req) (BatchRequest.videos req)))),
       w').
Proof.
  intros Hne Hlen. unfold process_batch.
  destruct (batch_loop_covered (BatchRequest.videos req) (BatchRequest.files req)
              O ([], []) w) as (w' & Hloop); [lia|].
  destruct (BatchRequest.files req) as [|file rest] eqn:Hfiles; [contradiction|].
  exists w'. unfold try_catch, bind, ret. rewrite Hloop. reflexivity.
Qed.

Lemma process_batch_uncovered (req : BatchRequest.t) (w : World) :
  (length (BatchRequest.videos req) < length (BatchRequest.files req))%nat ->
  exists w',
    process_batch env req w =
      (Return (Status500 "Batch processing failed" (message (TypeError "name"))), w').
Proof.
  intros Hlen. unfold process_batch.
  destruct (batch_loop_uncovered (BatchRequest.videos req) (BatchRequest.files req)
              O ([], []) w) as (w1 & Hloop); [lia|lia|].
  destruct (BatchRequest.files req) as [|file rest] eqn:Hfiles; [cbn in Hlen; lia|].
  destruct (for_each_remove_returns (file :: rest) w1) as (w2 & Hrm).
  exists w2. unfold try_catch, bind at 1. rewrite Hloop. cbn beta iota.
  unfold bind. rewrite Hrm. reflexivity.
Qed.


End BatchRuns.

(** ** The batch route *)


Section RouteRuns.

Context (env : Env).











End RouteRuns.




(** C4.  In a batch whose metadata list matches its file list, the loop
    visits every item: the call answers with the successes and the
    failures of all the items, each outcome in one of the two lists, and
    [processed + errors.length = total].  When exactly one item fails,
    wherever it stands, [processed] is one less than the batch size and
    [errors] is the single entry carrying that item's submitted name. *)
Theorem batch_isolates_item_failures (env : Env) (req : BatchRequest.t) (w : World) :
  length (BatchRequest.videos req) = length (BatchRequest.files req) ->
  BatchRequest.files req <> [] ->
  exists results errors w',
    process_batch env req w =
      (Return (BatchOk (length results) (length (BatchRequest.files req)) results errors), w') /\
    (length results + length errors)%nat = length (BatchRequest.files req) /\
    (forall k file data,
       BatchRequest.files req !! k = Some file ->
       BatchRequest.videos req !! k = Some data ->
       match item_outcome env (uuidv4 env (tokens w + k)) file data with
       | inr entry => entry ∈ results /\ success_originalName entry = VideoData.name data
       | inl err => mkItemError (VideoData.name data) (message err) ∈ errors
       end) /\
    (forall k file data,
       BatchRequest.files req !! k = Some file ->
       BatchRequest.videos req !! k = Some data ->
       item_fails env (uuidv4 env (tokens w + k)) file data = true ->
       (forall j file' data',
          j <> k ->
          BatchRequest.files req !! j = Some file' ->
          BatchRequest.videos req !! j = Some data' ->
          item_fails env (uuidv4 env (tokens w + j)) file' data' = false) ->
       S (length results) = length (BatchRequest.files req) /\
       exists err, errors = [mkItemError (VideoData.name data) (message err)]).
Proof.
  intros Hlen Hne.
  destruct (process_batch_covered env req w Hne) as (w' & Hrun); [lia|].
  set (items := zip (BatchRequest.files req) (BatchRequest.videos req)) in *.
  assert (Hitems : length items = length (BatchRequest.files req)).
  { unfold items. rewrite length_zip. lia. }
  assert (Hlookup : forall k file data,
             BatchRequest.files req !! k = Some file ->
             BatchRequest.videos req !! k = Some data ->
             items !! k = Some (file, data)).
  { intros k file data Hf Hd. unfold items. apply lookup_zip_with_Some. eauto. }
  assert (Hlookup' : forall k file data,
             items !! k = Some (file, data) ->
             BatchRequest.files req !! k = Some file /\
             BatchRequest.videos req !! k = Some data).
  { intros k file data Hk. unfold items in Hk.
    apply lookup_zip_with_Some in Hk as (f & d & Heq & Hf & Hd).
    injection Heq as -> ->. auto. }
  exists (successes env (tokens w) items), (failures env (tokens w) items), w'.
  split; [exact Hrun|]. split.
  { rewrite successes_failures_length. exact Hitems. }
  split.
  - intros k file data Hf Hd.
    pose proof (outcome_is_reported env items (tokens w) k file data (Hlookup _ _ _ Hf Hd)) as H.
    destruct (item_outcome env (uuidv4 env (tokens w + k)) file data) as [err|entry] eqn:Hout;
      [exact H|].
    split; [exact H|].
    unfold item_outcome in Hout.
    destruct (ffprobe env (file_path file)); [discriminate Hout|].
    destruct (find _ _); [|discriminate Hout].
    destruct (run env _); [|discriminate Hout].
    injection Hout as <-. reflexivity.
  - intros k file data Hf Hd Hfail Hothers.
    destruct (one_fails env items (tokens w) k file data (Hlookup _ _ _ Hf Hd) Hfail)
      as [(err & _ & Herrs) Hsucc].
    { intros j f d Hj Hjk. destruct (Hlookup' _ _ _ Hjk). eapply Hothers; eauto. }
    split; [now rewrite Hsucc, Hitems | now exists err].
Qed.

Lemma batch_isolates_item_failures_witness :
  exists results errors w',
    process_batch scenario_env scenario_batch scenario_world =
      (Return (BatchOk (length results) 3 results errors), w') /\
    length results = 2%nat /\
    exists err, errors = [mkItemError "second" (message err)].
Proof.
  destruct (batch_isolates_item_failures scenario_env scenario_batch scenario_world)
    as (results & errors & w' & Hrun & _ & _ & Hone).
  - reflexivity.
  - discriminate.
  - destruct (Hone 1%nat (mkFile "b.mp4" "b.mp4") (VideoData.mk "second" [] (Some 20%Q)))
      as [Hlen Herr].
    + reflexivity.
    + reflexivity.
    + vm_compute. reflexivity.
    + intros j file' data' Hj Hfile Hdata.
      destruct j as [|[|[|j]]]; [| contradiction | | discriminate Hfile].
      * injection Hfile as <-. injection Hdata as <-. vm_compute. reflexivity.
      * injection Hfile as <-. injection Hdata as <-. vm_compute. reflexivity.
    + exists results, errors, w'. split; [exact Hrun|]. split; [|exact Herr].
      cbn in Hlen. lia.
Defined.

(** The second end-to-end scenario, run. *)
Example scenario_batch_response :
  (process_batch scenario_env scenario_batch scenario_world).1 =
    Return
      (BatchOk 2 3
         [mkSuccess "first" "processed-first-token0.mp4"
                    "/api/download/processed-first-token0.mp4";
          mkSuccess "third" "processed-third-token2.mp4"
                    "/api/download/processed-third-token2.mp4"]
         [mkItemError "second" "Invalid data found when processing input"]).
Proof. vm_compute. reflexivity. Qed.

(** With metadata for the first file only, the first file is rendered and
    then the whole call is rejected. *)
Example short_batch_response :
  (process_batch scenario_env short_batch scenario_world).1 =
    Return (Status500 "Batch processing failed"
                      "Cannot read properties of undefined (reading 'name')") /\
  exists_at (process_batch scenario_env short_batch scenario_world).2
            (mkPath Output "processed-first-token0.mp4") = true.
Proof. split; vm_compute; reflexivity. Qed.

(** ** The single-video handler *)

Lemma exists_at_unlinked (w : World) (p : path) : exists_at (unlink p w) p = false.
Proof.
  unfold exists_at, unlink, listing. destruct p as [[] name]; cbn;
    rewrite lookup_delete_eq; apply bool_decide_eq_false; intros [? H]; discriminate H.
Qed.

Lemma exists_at_output_after_input_removed (w : World) (file : UploadedFile) (name : string) :
  exists_at (unlink (file_path file) w) (mkPath Output name) =
  bool_decide (is_Some (outputDir w !! name)).
Proof. reflexivity. Qed.

(** C3, as the code has it.  A job with a file always answers, with
    success or with the 500 of the [catch]; either way [fs.remove] is
    called once, on the input, which is gone afterwards.  After success
    the output file is there.  Nothing is ever removed from the output
    directory: after a failure the output file is there exactly as
    FFmpeg left it, so it is found only when FFmpeg reported its error
    after it had started to write. *)
Theorem input_removed_once_output_left_as_is (env : Env) (req : VideoRequest.t)
    (file : UploadedFile) (w : World) :
  VideoRequest.file req = Some file ->
  outputDir w !! output_name env req w = None ->
  exists response w',
    process_video env req w = (Return response, w') /\
    removals w' = file_path file :: removals w /\
    exists_at w' (file_path file) = false /\
    (terminal_state response = Some Completed \/ terminal_state response = Some Failed) /\
    (terminal_state response = Some Completed ->
     exists_at w' (mkPath Output (output_name env req w)) = true) /\
    (terminal_state response = Some Failed ->
     exists_at w' (mkPath Output (output_name env req w)) = true ->
     exists command err,
       input command = file_path file /\
       output command = mkPath Output (output_name env req w) /\
       run env command = RunError err true).
Proof.
  intros Hfile Hfresh. unfold process_video. rewrite Hfile. do 2 unfold_monad. cbn beta iota.
  fold (output_name env req w).
  assert (Habsent : bool_decide (is_Some (outputDir w !! output_name env req w)) = false).
  { rewrite Hfresh. apply bool_decide_eq_false. intros [? H]; discriminate H. }
  destruct (ffprobe env (file_path file)) as [err|videoInfo]; cbn beta iota zeta.
  { do 2 eexists. split; [reflexivity|]. cbn [removals terminal_state].
    rewrite exists_at_unlinked, exists_at_output_after_input_removed; cbn [outputDir]; rewrite Habsent.
    repeat split; auto; discriminate. }
  destruct (find (fun stream => String.eqb (codec_type stream) "video") (streams videoInfo))
    as [videoStream|]; cbn beta iota zeta.
  2: { do 2 eexists. split; [reflexivity|]. cbn [removals terminal_state].
       rewrite exists_at_unlinked, exists_at_output_after_input_removed; cbn [outputDir]; rewrite Habsent.
       repeat split; auto; discriminate. }
  destruct (run env _) as [|err partial_output] eqn:Hrun; cbn beta iota zeta.
  - do 2 eexists. split; [reflexivity|]. cbn [removals terminal_state].
    rewrite exists_at_unlinked.
    repeat split; auto; try discriminate.
    intros _. unfold exists_at. cbn. rewrite lookup_insert_eq.
    apply bool_decide_eq_true. eauto.
  - destruct partial_output.
    + do 2 eexists. split; [reflexivity|]. cbn [removals terminal_state].
      rewrite exists_at_unlinked.
      repeat split; auto; try discriminate.
      intros _ _. do 2 eexists. split; [|split; [|exact Hrun]]; reflexivity.
    + do 2 eexists. split; [reflexivity|]. cbn [removals terminal_state].
      rewrite exists_at_unlinked, exists_at_output_after_input_removed; cbn [outputDir]; rewrite Habsent.
      repeat split; auto; discriminate.
Qed.

Lemma input_removed_once_output_left_as_is_witness :
  exists response w',
    process_video scenario_env scenario_request scenario_world = (Return response, w') /\
    removals w' = [mkPath Uploads "a.mp4"] /\
    exists_at w' (mkPath Uploads "a.mp4") = false /\
    (terminal_state response = Some Completed ->
     exists_at w' (mkPath Output "processed-clip-token0.mp4") = true).
Proof.
  destruct (input_removed_once_output_left_as_is scenario_env scenario_request
              (mkFile "a.mp4" "a.mp4") scenario_world)
    as (response & w' & Hrun & Hlog & Hin & _ & Hout & _).
  - reflexivity.
  - vm_compute. reflexivity.
  - exists response, w'. repeat split; assumption.
Defined.

(** C3, as stated, fails.  When FFmpeg gives up after it has started to
    write, the job ends in Failed and the partly written output is still
    in the output directory. *)
Lemma partial_output_survives_failure :
  (process_video failing_encoder_env scenario_request scenario_world).1 =
    Return (Status500 "Video processing failed" "ffmpeg exited with code 1") /\
  terminal_state (Status500 "Video processing failed" "ffmpeg exited with code 1") =
    Some Failed /\
  exists_at (process_video failing_encoder_env scenario_request scenario_world).2
            (mkPath Output "processed-clip-token0.mp4") = true /\
  exists_at scenario_world (mkPath Output "processed-clip-token0.mp4") = false /\
  removals (process_video failing_encoder_env scenario_request scenario_world).2 =
    [mkPath Uploads "a.mp4"].
Proof. repeat split; vm_compute; reflexivity. Qed.

(** The first end-to-end scenario, run. *)
Example scenario_request_response :
  (process_video scenario_env scenario_request scenario_world).1 =
    Return (VideoOk "processed-clip-token0.mp4" "/api/download/processed-clip-token0.mp4") /\
  exists_at (process_video scenario_env scenario_request scenario_world).2
            (mkPath Output "processed-clip-token0.mp4") = true.
Proof. split; vm_compute; reflexivity. Qed.

(** ** The sweep *)

Lemma listing_unlink (a : area) (name : string) (w : World) (b : area) :
  listing (unlink (mkPath a name) w) b =
  if decide (a = b) then delete name (listing w b) else listing w b.
Proof. destruct a, b; reflexivity. Qed.

(** A directory after a sweep at time [t]: what is not older than the
    retention window. *)
Lemma swept_lookup_Some (t : Z) (m : gmap string Z) (name : string) (mtime : Z) :
  swept t m !! name = Some mtime <-> m !! name = Some mtime /\ ~ t - mtime > maxAge.
Proof. unfold swept. now rewrite map_lookup_filter_Some. Qed.

Lemma readdir_names (w : World) (a : area) (name : string) :
  name ∈ (map_to_list (listing w a)).*1 <-> is_Some (listing w a !! name).
Proof.
  rewrite list_elem_of_fmap. split.
  - intros ([k v] & -> & Hin). apply elem_of_map_to_list in Hin. cbn. eauto.
  - intros [v Hv]. exists (name, v). split; [reflexivity|]. now apply elem_of_map_to_list.
Qed.

Section SweepRuns.

Context (env : Env) (faults : Faults).

Lemma only_old_removed_refl (w : World) : only_old_removed (now env) w w.
Proof. intros a name. now left. Qed.

Lemma only_old_removed_trans (w1 w2 w3 : World) :
  only_old_removed (now env) w1 w2 -> only_old_removed (now env) w2 w3 ->
  only_old_removed (now env) w1 w3.
Proof.
  intros H12 H23 a name.
  destruct (H12 a name) as [E12 | [E12 Hold12]], (H23 a name) as [E23 | [E23 Hold23]].
  - left. congruence.
  - right. split; [exact E23|]. now rewrite <- E12.
  - right. split; [congruence | exact Hold12].
  - right. split; [exact E23 | exact Hold12].
Qed.

Lemma sweep_file_safe (a : area) (file : string) (w : World) :
  exists outcome w',
    sweep_file env faults a file w = (outcome, w') /\ only_old_removed (now env) w w'.
Proof.
  unfold sweep_file, bind, fs_stat, fs_remove_or_fail. cbn [dir base].
  destruct (stat_error faults (mkPath a file)) as [error|].
  { do 2 eexists. split; [reflexivity | apply only_old_removed_refl]. }
  destruct (listing w a !! file) as [mtime|] eqn:Hfile.
  2: { do 2 eexists. split; [reflexivity | apply only_old_removed_refl]. }
  destruct (Z.gtb_spec (now env - mtime) maxAge) as [Hold|Hyoung].
  2: { do 2 eexists. split; [reflexivity | apply only_old_removed_refl]. }
  destruct (remove_error faults (mkPath a file)) as [error|].
  { do 2 eexists. split; [reflexivity | apply only_old_removed_refl]. }
  do 2 eexists. split; [reflexivity|]. intros b name.
  rewrite listing_unlink. destruct (decide (a = b)) as [<-|Hb]; [|now left].
  destruct (decide (name = file)) as [->|Hne].
  - right. rewrite lookup_delete_eq. split; [reflexivity|].
    exists mtime. split; [exact Hfile | lia].
  - left. now apply lookup_delete_ne.
Qed.

Lemma sweep_loop_safe (a : area) (names : list string) :
  forall w,
    exists outcome w',
      for_each names (sweep_file env faults a) w = (outcome, w') /\
      only_old_removed (now env) w w'.
Proof.
  induction names as [|file rest IH]; intros w.
  - do 2 eexists. split; [reflexivity | apply only_old_removed_refl].
  - cbn [for_each]. unfold bind at 1.
    destruct (sweep_file_safe a file w) as (outcome & w1 & -> & Hsafe1).
    destruct outcome as [[]|error].
    + destruct (IH w1) as (outcome & w' & -> & Hsafe2).
      do 2 eexists. split; [reflexivity|]. now apply (only_old_removed_trans w w1 w').
    + do 2 eexists. split; [reflexivity | exact Hsafe1].
Qed.

Lemma sweep_directory_safe (a : area) (w : World) :
  exists outcome w',
    sweep_directory env faults a w = (outcome, w') /\ only_old_removed (now env) w w'.
Proof. unfold sweep_directory, bind, fs_readdir. apply sweep_loop_safe. Qed.

(** The pass never throws, and removes nothing but old entries. *)
Lemma cleanupOldFiles_safe (w : World) :
  exists w', cleanupOldFiles env faults w = (Return tt, w') /\ only_old_removed (now env) w w'.
Proof.
  unfold cleanupOldFiles, try_catch, bind.
  destruct (sweep_directory_safe Output w) as (outcome1 & w1 & -> & Hsafe1).
  destruct outcome1 as [[]|error]; [|exists w1; split; [reflexivity | exact Hsafe1]].
  destruct (sweep_directory_safe Uploads w1) as (outcome2 & w2 & -> & Hsafe2).
  exists w2. split; [now destruct outcome2 as [[]|error]|].
  now apply (only_old_removed_trans w w1 w2).
Qed.

Lemma sweep_file_runs (a : area) (file : string) (w : World) (mtime : Z) :
  stat_error faults (mkPath a file) = None ->
  remove_error faults (mkPath a file) = None ->
  listing w a !! file = Some mtime ->
  sweep_file env faults a file w =
    (Return tt, if decide (now env - mtime > maxAge) then unlink (mkPath a file) w else w).
Proof.
  intros Hstat Hremove Hfile.
  unfold sweep_file, bind, fs_stat, fs_remove_or_fail. cbn [dir base].
  rewrite Hstat, Hfile, Hremove.
  destruct (Z.gtb_spec (now env - mtime) maxAge) as [Hold|Hyoung];
    destruct (decide (now env - mtime > maxAge)); try lia; reflexivity.
Qed.

(** The loop over names that are all present, all different and none
    refused: it does not throw, removes the old ones among them and
    touches nothing else. *)
Lemma sweep_loop_runs (a : area) (names : list string) :
  forall w,
    NoDup names ->
    (forall name, name ∈ names ->
       is_Some (listing w a !! name) /\
       stat_error faults (mkPath a name) = None /\
       remove_error faults (mkPath a name) = None) ->
    exists w',
      for_each names (sweep_file env faults a) w = (Return tt, w') /\
      (forall name,
         listing w' a !! name =
           match listing w a !! name with
           | Some mtime =>
               if decide (name ∈ names /\ now env - mtime > maxAge) then None else Some mtime
           | None => None
           end) /\
      (forall b, b <> a -> listing w' b = listing w b).
Proof.
  induction names as [|file rest IH]; intros w Hnodup Hpresent.
  - exists w. split; [reflexivity|]. split; [|reflexivity].
    intros name. destruct (listing w a !! name); [|reflexivity].
    case_decide as H; [|reflexivity]. destruct H as [H _]. inversion H.
  - apply NoDup_cons in Hnodup as [Hfresh Hnodup].
    destruct (Hpresent file) as ([mtime Hfile] & Hstat & Hremove); [apply list_elem_of_here|].
    cbn [for_each]. unfold bind at 1.
    rewrite (sweep_file_runs a file w mtime Hstat Hremove Hfile).
    set (w1 := if decide (now env - mtime > maxAge) then unlink (mkPath a file) w else w).
    assert (Hw1 : forall name, name <> file -> listing w1 a !! name = listing w a !! name).
    { intros name Hne. unfold w1. case_decide; [|reflexivity].
      rewrite listing_unlink. rewrite decide_True by reflexivity.
      now apply lookup_delete_ne. }
    destruct (IH w1 Hnodup) as (w' & Hrun & Hlook & Hother).
    { intros name Hin. rewrite Hw1; [|intros ->; contradiction].
      apply Hpresent. now apply list_elem_of_further. }
    exists w'. split; [exact Hrun|]. split.
    + intros name. rewrite Hlook.
      destruct (decide (name = file)) as [->|Hne].
      * unfold w1. rewrite Hfile.
        destruct (decide (now env - mtime > maxAge)) as [Hold|Hyoung].
        -- rewrite listing_unlink, decide_True by reflexivity. rewrite lookup_delete_eq.
           rewrite decide_True; [reflexivity|]. split; [apply list_elem_of_here | exact Hold].
        -- rewrite Hfile. rewrite !decide_False; [reflexivity | tauto | tauto].
      * rewrite (Hw1 name Hne). destruct (listing w a !! name) as [mt|]; [|reflexivity].
        destruct (decide (name ∈ rest /\ now env - mt > maxAge)) as [[Hin Hold]|Hno].
        -- rewrite decide_True; [reflexivity|]. split; [now apply list_elem_of_further | exact Hold].
        -- rewrite decide_False; [reflexivity|]. intros [Hin Hold]. apply Hno.
           apply elem_of_cons in Hin as [->|Hin]; [contradiction | tauto].
    + intros b Hb. rewrite (Hother b Hb). unfold w1. case_decide; [|reflexivity].
      rewrite listing_unlink. now rewrite decide_False by congruence.
Qed.

Lemma sweep_directory_runs (a : area) (w : World) :
  (forall name, is_Some (listing w a !! name) ->
     stat_error faults (mkPath a name) = None /\ remove_error faults (mkPath a name) = None) ->
  exists w',
    sweep_directory env faults a w = (Return tt, w') /\
    listing w' a = swept (now env) (listing w a) /\
    (forall b, b <> a -> listing w' b = listing w b).
Proof.
  intros Hfree. unfold sweep_directory, bind, fs_readdir.
  destruct (sweep_loop_runs a (map_to_list (listing w a)).*1 w) as (w' & Hrun & Hlook & Hother).
  { apply NoDup_fst_map_to_list. }
  { intros name Hin. apply readdir_names in Hin. split; [exact Hin | now apply Hfree]. }
  exists w'. split; [exact Hrun|]. split; [|exact Hother].
  apply map_eq. intros name. rewrite Hlook. unfold swept.
  destruct (listing w a !! name) as [mtime|] eqn:Hname.
  - case_decide as Hold.
    + symmetry. apply map_lookup_filter_None. right. intros mt Hmt. cbn.
      rewrite Hname in Hmt. injection Hmt as <-. tauto.
    + symmetry. apply map_lookup_filter_Some. split; [exact Hname|]. cbn.
      intros Hgt. apply Hold. split; [|exact Hgt]. apply readdir_names. eauto.
  - symmetry. apply map_lookup_filter_None. now left.
Qed.

(** A pass during which nothing is refused leaves in each directory what
    is not older than the window. *)
Lemma cleanupOldFiles_runs (w : World) :
  fault_free faults w ->
  exists w',
    cleanupOldFiles env faults w = (Return tt, w') /\
    (forall a, listing w' a = swept (now env) (listing w a)).
Proof.
  intros Hfree. unfold cleanupOldFiles, try_catch, bind.
  destruct (sweep_directory_runs Output w) as (w1 & -> & Hout1 & Hother1);
    [intros name; apply Hfree|].
  destruct (sweep_directory_runs Uploads w1) as (w2 & -> & Hup2 & Hother2).
  { intros name. rewrite (Hother1 Uploads) by discriminate. apply Hfree. }
  exists w2. split; [reflexivity|]. intros [].
  - rewrite Hup2, (Hother1 Uploads); [reflexivity | discriminate].
  - rewrite (Hother2 Output), Hout1; [reflexivity | discriminate].
Qed.




End SweepRuns.

(** Two passes, the second no earlier than the first, leave what the
    second alone would leave. *)
Lemma swept_swept (t1 t2 : Z) (m : gmap string Z) :
  t1 <= t2 -> swept t2 (swept t1 m) = swept t2 m.
Proof.
  intros Hle. apply map_eq. intros name. apply option_eq. intros mtime.
  rewrite !swept_lookup_Some. split.
  - intros [[Hm _] Hkeep]. auto.
  - intros [Hm Hkeep]. repeat split; auto. lia.
Qed.

Lemma fault_free_swept (faults : Faults) (w w' : World) (t : Z) :
  fault_free faults w ->
  (forall a, listing w' a = swept t (listing w a)) ->
  fault_free faults w'.
Proof.
  intros Hfree Hlist a name [mtime Hname]. apply Hfree.
  rewrite Hlist in Hname. apply swept_lookup_Some in Hname as [Hname _]. eauto.
Qed.

Lemma cleanupOldFiles_later (env1 env2 : Env) (faults : Faults) (w : World) :
  fault_free faults w ->
  now env1 <= now env2 ->
  forall a,
    listing (cleanupOldFiles env2 faults (cleanupOldFiles env1 faults w).2).2 a =
    listing (cleanupOldFiles env2 faults w).2 a.
Proof.
  intros Hfree Hle a.
  destruct (cleanupOldFiles_runs env1 faults w Hfree) as (w1 & Hrun1 & Hlist1).
  destruct (cleanupOldFiles_runs env2 faults w1) as (w2 & Hrun2 & Hlist2);
    [exact (fault_free_swept faults w w1 (now env1) Hfree Hlist1)|].
  destruct (cleanupOldFiles_runs env2 faults w Hfree) as (w3 & Hrun3 & Hlist3).
  rewrite Hrun1. cbn [snd]. rewrite Hrun2, Hrun3. cbn [snd].
  rewrite Hlist2, Hlist1, Hlist3. now apply swept_swept.
Qed.




(** The fourth end-to-end scenario, run: the 25-hour-old output goes, the
    1-hour-old one stays, and so does the upload that is exactly 24 hours
    old. *)
Example scenario_sweep :
  exists_at (cleanupOldFiles sweep_env no_faults sweep_world).2 (mkPath Output "old.mp4") = false /\
  exists_at (cleanupOldFiles sweep_env no_faults sweep_world).2 (mkPath Output "recent.mp4") = true /\
  exists_at (cleanupOldFiles sweep_env no_faults sweep_world).2 (mkPath Uploads "orphan.mp4") = true /\
  removals (cleanupOldFiles sweep_env no_faults sweep_world).2 = [mkPath Output "old.mp4"].
Proof. repeat split; vm_compute; reflexivity. Qed.

(** The command that decides the answer of /api/process-video is the one
    [ffmpeg_command] builds from the request. *)
Lemma process_video_hands_over_command (env : Env) (req : VideoRequest.t)
    (file : UploadedFile) (w : World) (videoInfo : Metadata) (videoStream : Stream) :
  VideoRequest.file req = Some file ->
  ffprobe env (file_path file) = inr videoInfo ->
  find (fun stream => String.eqb (codec_type stream) "video") (streams videoInfo) =
    Some videoStream ->
  (process_video env req w).1 =
    match run env (ffmpeg_command (file_path file) (VideoRequest.maxDuration req)
                     (VideoRequest.textOverlays req)
                     (stream_width videoStream) (stream_height videoStream)
                     (mkPath Output (output_name env req w))) with
    | RunEnd =>
        Return (VideoOk (output_name env req w) (downloadUrl_of (output_name env req w)))
    | RunError err _ => Return (Status500 "Video processing failed" (message err))
    end.
Proof.
  intros Hfile Hprobe Hstream. unfold process_video. rewrite Hfile.
  do 2 unfold_monad. cbn beta iota. fold (output_name env req w).
  rewrite Hprobe. cbn beta iota zeta. rewrite Hstream. cbn beta iota zeta.
  destruct (run env _) as [|err []]; reflexivity.
Qed.

(** *** The route around the handler *)

(** On a request of one video part whose overlays are an array, the
    route is the handler. *)
Lemma video_route_typed (env : Env) (req : VideoRequest.t) (w : World) :
  video_route env (video_form_of req) w =
    (match (process_video env req w).1 with
     | Return response => Return (Handled response)
     | Throw error => Throw error
     end, (process_video env req w).2).
Proof.
  unfold video_route, video_form_of, process_video.
  cbn [VideoForm.parts VideoForm.textOverlays VideoForm.videoName VideoForm.maxDuration].
  destruct (VideoRequest.file req) as [file|]; [|reflexivity].
  change (upload_array "video" 1 [mkPart "video" "video/mp4" 1024 file])
    with (inr [file] : Error + list UploadedFile).
  cbn [head parse_textOverlays].
  unfold fresh_uuid, probe, video_stream, overlays_read, run_command, fs_remove.
  unfold bind, try_catch, throw, ret. cbn beta iota.
  destruct (ffprobe env (file_path file)) as [error|videoInfo]; [reflexivity|].
  destruct (find (fun stream => String.eqb (codec_type stream) "video") (streams videoInfo))
    as [videoStream|]; [|reflexivity].
  cbn beta iota.
  destruct (run env _) as [|error partial_output]; reflexivity.
Qed.

(** A [textOverlays] field that is not JSON is answered with the 500 of
    the [catch] before anything is probed, and the upload is removed; a
    field that reads [null] is answered the same way after the probe. *)
Example video_route_unparsed :
  let broken := VideoForm.mk [mkPart "video" "video/mp4" 1024 (mkFile "a.mp4" "a.mp4")]
                             (Some (OverlaysSyntaxError (mkError "Unexpected token o in JSON")))
                             (Some "clip") None in
  let null := VideoForm.mk [mkPart "video" "video/mp4" 1024 (mkFile "a.mp4" "a.mp4")]
                           (Some OverlaysNull) (Some "clip") None in
  (video_route accepting_env broken scenario_world).1 =
    Return (Handled (Status500 "Video processing failed" "Unexpected token o in JSON")) /\
  tokens (video_route accepting_env broken scenario_world).2 = tokens scenario_world /\
  exists_at (video_route accepting_env broken scenario_world).2 (mkPath Uploads "a.mp4") = false /\
  (video_route accepting_env null scenario_world).1 =
    Return (Handled (Status500 "Video processing failed"
                               "Cannot read properties of null (reading 'length')")) /\
  tokens (video_route accepting_env null scenario_world).2 = S (tokens scenario_world) /\
  exists_at (video_route accepting_env null scenario_world).2 (mkPath Uploads "a.mp4") = false.
Proof. repeat split; vm_compute; reflexivity. Qed.

(** *** The duration handed to the encoder *)

(** C5, as the code has it.  The editor's effective duration is the cap
    when one is set and lies below the natural duration, and the natural
    duration otherwise.  The handler of /api/process-video runs FFmpeg on
    the command built from the request's own [maxDuration]: whatever the
    encoder is, the job is answered with success exactly when the encoder
    ends on that command.  The output duration of that command is the cap
    itself, whenever one is set and positive, and nothing when none is
    set; that does not depend on the overlays, so a job without overlays
    is capped all the same.  The value handed over is the effective
    duration exactly when the cap does not exceed the natural duration. *)
Theorem cap_passed_as_received (env : Env) (req : VideoRequest.t) (file : UploadedFile)
    (w : World) (videoInfo : Metadata) (videoStream : Stream)
    (inputPath outputPath : path) (overlays : list TextOverlay.t)
    (videoWidth videoHeight maxDuration naturalDuration cap : Q) :
  VideoRequest.file req = Some file ->
  ffprobe env (file_path file) = inr videoInfo ->
  find (fun stream => String.eqb (codec_type stream) "video") (streams videoInfo) =
    Some videoStream ->
  (0 < cap)%Q ->
  (Editor.getEffectiveDuration maxDuration naturalDuration ==
   spec_effectiveDuration (Editor.exported_maxDuration maxDuration) naturalDuration)%Q /\
  ((process_video env req w).1 =
     Return (VideoOk (output_name env req w) (downloadUrl_of (output_name env req w))) <->
   run env (ffmpeg_command (file_path file) (VideoRequest.maxDuration req)
              (VideoRequest.textOverlays req)
              (stream_width videoStream) (stream_height videoStream)
              (mkPath Output (output_name env req w))) = RunEnd) /\
  duration (ffmpeg_command inputPath (Some cap) overlays videoWidth videoHeight outputPath) = Some cap /\
  duration (ffmpeg_command inputPath (Some cap) [] videoWidth videoHeight outputPath) = Some cap /\
  duration (ffmpeg_command inputPath None overlays videoWidth videoHeight outputPath) = None /\
  ((cap <= naturalDuration)%Q <-> (cap == spec_effectiveDuration (Some cap) naturalDuration)%Q).
Proof.
  intros Hfile Hprobe Hstream Hpos. split; [apply getEffectiveDuration_spec|]. split.
  { rewrite (process_video_hands_over_command env req file w videoInfo videoStream
               Hfile Hprobe Hstream).
    destruct (run env _) as [|err partial_output]; split; intros H;
      try reflexivity; discriminate H. }
  cbn [ffmpeg_command duration]. rewrite (duration_option_positive _ Hpos).
  repeat split; unfold spec_effectiveDuration;
    destruct (Qlt_le_dec cap naturalDuration); intros; lra.
Qed.

Lemma cap_passed_as_received_witness :
  (process_video (duration_checking_env (Some 20%Q)) capped_request scenario_world).1 =
    Return (VideoOk "processed-clip-token0.mp4" "/api/download/processed-clip-token0.mp4") <->
  run (duration_checking_env (Some 20%Q))
      (ffmpeg_command (mkPath Uploads "a.mp4") (Some 20%Q) [] 1920 1080
                      (mkPath Output "processed-clip-token0.mp4")) = RunEnd.
Proof.
  refine (proj1 (proj2 (cap_passed_as_received (duration_checking_env (Some 20%Q)) capped_request
                          (mkFile "a.mp4" "a.mp4") scenario_world hd_metadata
                          (mkStream "video" 1920 1080)
                          (mkPath Uploads "in.mp4") (mkPath Output "out.mp4")
                          [scenario_overlay] 1920 1080 20 60 20 _ _ _ _))); reflexivity.
Defined.

(** C5, as stated, fails.  Without a cap the effective duration is the
    natural one, and FFmpeg is handed no duration at all; with a cap of
    20 s on a 10 s video the effective duration is 10 s and FFmpeg is
    handed 20: the handler's job succeeds with an encoder that accepts
    only the output duration 20, and fails with one that accepts only
    10. *)
Lemma effective_duration_not_passed :
  duration (ffmpeg_command (mkPath Uploads "in.mp4") None [] 1920 1080
                           (mkPath Output "out.mp4")) = None /\
  spec_effectiveDuration None 60 = 60%Q /\
  duration (ffmpeg_command (mkPath Uploads "in.mp4") (Some 20%Q) [] 1920 1080
                           (mkPath Output "out.mp4")) = Some 20%Q /\
  spec_effectiveDuration (Some 20%Q) 10 = 10%Q /\
  ~ (20 == 10)%Q /\
  (process_video (duration_checking_env (Some 20%Q)) capped_request scenario_world).1 =
    Return (VideoOk "processed-clip-token0.mp4" "/api/download/processed-clip-token0.mp4") /\
  (process_video (duration_checking_env (Some 10%Q)) capped_request scenario_world).1 =
    Return (Status500 "Video processing failed" "unexpected output duration") /\
  (process_video (duration_checking_env None) scenario_request scenario_world).1 =
    Return (VideoOk "processed-clip-token0.mp4" "/api/download/processed-clip-token0.mp4").
Proof.
  repeat split; try (vm_compute; reflexivity). intros H. discriminate H.
Qed.

(* ===================================================================== *)
(** * Part III: further properties of the code                             *)
(* ===================================================================== *)

(** ** The escaping step *)

Lemma escapeText_app (a b : string) :
  Compiler.escapeText (a +:+ b) = Compiler.escapeText a +:+ Compiler.escapeText b.
Proof.
  induction a as [|c a IH]; [reflexivity|].
  rewrite string_app_cons, !escapeText_cons, IH, string_app_assoc. reflexivity.
Qed.

Lemma length_app_string (a b : string) :
  String.length (a +:+ b) = (String.length a + String.length b)%nat.
Proof. induction a as [|c a IH]; cbn; [reflexivity | now rewrite IH]. Qed.

Lemma specials_guarded_escapeText (text : string) (after_backslash : bool) :
  specials_guarded after_backslash (Compiler.escapeText text) = true.
Proof.
  revert after_backslash. induction text as [|c text IH]; intros flag; [reflexivity|].
  rewrite escapeText_cons. unfold escape_char.
  destruct (Ascii.eqb_spec c "'") as [->|Hq]; [cbn -[Compiler.escapeText]; apply IH|].
  destruct (Ascii.eqb_spec c ":") as [->|Hc]; [cbn -[Compiler.escapeText]; apply IH|].
  cbn -[Compiler.escapeText Ascii.eqb].
  destruct (Ascii.eqb_spec c "'"); [contradiction|].
  destruct (Ascii.eqb_spec c ":"); [contradiction|].
  cbn. apply IH.
Qed.

(** X1.  In the escaped text every quote and every colon stands right
    after a backslash, and nothing else is added: the text grows by one
    character per quote and per colon. *)
Theorem escapeText_guards_specials (text : string) :
  specials_guarded false (Compiler.escapeText text) = true /\
  String.length (Compiler.escapeText text) =
    (String.length text + Grammar.count_char "'" text + Grammar.count_char ":" text)%nat.
Proof.
  split; [apply specials_guarded_escapeText|].
  induction text as [|c text IH]; [reflexivity|].
  rewrite escapeText_cons, length_app_string, IH. unfold escape_char.
  cbn [String.length Grammar.count_char].
  destruct (Ascii.eqb_spec c "'") as [->|Hq]; [cbn; lia|].
  destruct (Ascii.eqb_spec c ":") as [->|Hc]; cbn; lia.
Qed.

(** ** What the compiler reads *)

(** X2.  The compiled filter is a function of ten fields of the overlay;
    [id], [width], [height], [fontWeight], [opacity], [textAlign] and
    [animation] never reach it. *)
Theorem createTextFilter_reads_ten_fields (a b : TextOverlay.t) (videoWidth videoHeight : Q) :
  same_compiled_fields a b ->
  Compiler.createTextFilter a videoWidth videoHeight =
  Compiler.createTextFilter b videoWidth videoHeight.
Proof.
  intros (Ht & Hx & Hy & Hf & Hc & Hoc & How & Hff & Hs & He).
  rewrite !createTextFilter_shape.
  unfold Compiler.pixel_x, Compiler.pixel_y, Compiler.scaled_fontSize, Compiler.outline_clause.
  now rewrite Ht, Hx, Hy, Hf, Hc, Hoc, How, Hff, Hs, He.
Qed.

Lemma createTextFilter_reads_ten_fields_witness :
  Compiler.createTextFilter restyled_overlay 1920 1080 =
  Compiler.createTextFilter scenario_overlay 1920 1080.
Proof.
  apply (createTextFilter_reads_ten_fields restyled_overlay scenario_overlay 1920 1080).
  repeat split.
Defined.



(** ** Joining the filters *)

Lemma join_app (sep : string) (a b : list string) :
  a <> [] -> b <> [] -> JS.join sep (a ++ b) = JS.join sep a +:+ sep +:+ JS.join sep b.
Proof.
  intros Ha Hb. induction a as [|x a IH]; [contradiction|].
  destruct a as [|y a].
  - destruct b as [|z b]; [contradiction|]. reflexivity.
  - change ((x :: y :: a) ++ b) with (x :: (y :: a) ++ b).
    change (JS.join sep (x :: (y :: a) ++ b)) with (x +:+ sep +:+ JS.join sep ((y :: a) ++ b)).
    rewrite IH by discriminate.
    change (JS.join sep (x :: y :: a)) with (x +:+ sep +:+ JS.join sep (y :: a)).
    now rewrite !string_app_assoc.
Qed.

(** X4.  Compiling two non-empty overlay lists one after the other and
    joining the results with a comma is compiling their concatenation:
    the expression lists the filters in overlay order. *)
Theorem filterComplex_app (a b : list TextOverlay.t) (videoWidth videoHeight : Q) :
  a <> [] -> b <> [] ->
  Compiler.filterComplex (a ++ b) videoWidth videoHeight =
    Compiler.filterComplex a videoWidth videoHeight +:+ "," +:+
    Compiler.filterComplex b videoWidth videoHeight.
Proof.
  intros Ha Hb. unfold Compiler.filterComplex. rewrite map_app.
  apply join_app; intros H; apply map_eq_nil in H; contradiction.
Qed.

Lemma filterComplex_app_witness :
  Compiler.filterComplex ([scenario_overlay] ++ [trimmed_overlay; comma_overlay]) 1920 1080 =
    Compiler.filterComplex [scenario_overlay] 1920 1080 +:+ "," +:+
    Compiler.filterComplex [trimmed_overlay; comma_overlay] 1920 1080.
Proof.
  apply (filterComplex_app [scenario_overlay] [trimmed_overlay; comma_overlay] 1920 1080);
    discriminate.
Defined.

(** ** The handlers and the two directories *)

#[local] Instance consumes_adds_preorder : PreOrder consumes_uploads_adds_outputs.
Proof.
  split.
  - intros w. split; reflexivity.
  - intros w1 w2 w3 [Hu1 Ho1] [Hu2 Ho2]. split; etransitivity; eassumption.
Qed.

Lemma unlink_upload_frame (file : UploadedFile) (w : World) :
  consumes_uploads_adds_outputs w (unlink (file_path file) w).
Proof. split; cbn; [apply delete_subseteq | reflexivity]. Qed.

Lemma write_output_frame (name : string) (mtime : Z) (w : World) :
  consumes_uploads_adds_outputs w (write (mkPath Output name) mtime w).
Proof. split; cbn; [reflexivity | apply dom_insert_subseteq]. Qed.

Ltac solve_frame :=
  repeat split; try reflexivity; cbn;
  try apply delete_subseteq; try apply dom_insert_subseteq; try apply lookup_insert_eq;
  try reflexivity.

Section BatchWorld.

Context (env : Env).

(** One item, seen from the directories. *)
Lemma batch_item_world (file : UploadedFile) (data : VideoData.t) (tally : Tally) (w : World) :
  exists w',
    try_catch (process_item env file (Some data) tally)
              (item_failed file (Some data) tally) w =
      (Return match item_outcome env (uuidv4 env (tokens w)) file data with
              | inr entry => (tally.1 ++ [entry], tally.2)
              | inl err =>
                  (tally.1, tally.2 ++ [mkItemError (VideoData.name data) (message err)])
              end, w') /\
    tokens w' = S (tokens w) /\
    removals w' = file_path file :: removals w /\
    uploadsDir w' = delete (filename file) (uploadsDir w) /\
    consumes_uploads_adds_outputs w w' /\
    match item_outcome env (uuidv4 env (tokens w)) file data with
    | inr entry =>
        success_filename entry = item_output_name (VideoData.name data) (uuidv4 env (tokens w)) /\
        success_downloadUrl entry = "/api/download/" +:+ success_filename entry /\
        outputDir w' !! success_filename entry = Some (now env)
    | inl _ => True
    end.
Proof.
  unfold process_item, item_failed, item_outcome. unfold_monad. cbn.
  destruct (ffprobe env (file_path file)) as [err|videoInfo]; cbn.
  { eexists. solve_frame. }
  destruct (find _ (streams videoInfo)) as [videoStream|]; cbn.
  2: { eexists. solve_frame. }
  destruct (run env _) as [|err partial_output]; cbn.
  - eexists. solve_frame.
  - destruct partial_output; eexists; solve_frame.
Qed.

(** The loop never removes an output and never creates an upload,
    however it ends. *)
Lemma batch_loop_frame (videos : list VideoData.t) (files : list UploadedFile) :
  forall (i : nat) (tally : Tally) (w : World),
    consumes_uploads_adds_outputs w (batch_loop env videos i files tally w).2.
Proof.
  induction files as [|file rest IH]; intros i tally w; [reflexivity|].
  cbn [batch_loop]. destruct (videos !! i) as [data|] eqn:Hdata.
  - destruct (batch_item_world file data tally w) as (w1 & Hrun & _ & _ & _ & Hframe & _).
    unfold bind at 1. rewrite Hrun. cbn beta iota.
    etransitivity; [exact Hframe | apply IH].
  - reflexivity.
Qed.

(** The loop on a batch whose metadata covers every file, seen from the
    directories. *)
Lemma batch_loop_world (videos : list VideoData.t) (files : list UploadedFile) :
  forall (i : nat) (tally : Tally) (w : World),
    (i + length files <= length videos)%nat ->
    exists w',
      batch_loop env videos i files tally w =
        (Return (tally.1 ++ successes env (tokens w) (zip files (drop i videos)),
                 tally.2 ++ failures env (tokens w) (zip files (drop i videos))), w') /\
      tokens w' = (tokens w + length files)%nat /\
      removals w' = rev (map file_path files) ++ removals w /\
      (forall name,
         uploadsDir w' !! name =
           if decide (name ∈ map filename files) then None else uploadsDir w !! name) /\
      (forall entry,
         entry ∈ successes env (tokens w) (zip files (drop i videos)) ->
         success_downloadUrl entry = "/api/download/" +:+ success_filename entry /\
         is_Some (outputDir w' !! success_filename entry)).
Proof.
  induction files as [|file rest IH]; intros i tally w Hlen.
  - exists w. cbn. unfold ret. rewrite !app_nil_r, Nat.add_0_r.
    split; [now destruct tally|]. split; [reflexivity|]. split; [reflexivity|].
    split; [|intros entry H; inversion H].
    intros name. now rewrite decide_False by (intros H; inversion H).
  - cbn [length] in Hlen.
    destruct (lookup_lt_is_Some_2 videos i) as [data Hdata]; [lia|].
    rewrite (drop_S _ _ _ Hdata). cbn [zip zip_with successes failures batch_loop].
    rewrite Hdata.
    destruct (batch_item_world file data tally w)
      as (w1 & Hrun & Htok & Hlog & Hup & Hframe & Hentry).
    unfold bind at 1. rewrite Hrun. cbn beta iota.
    destruct (IH (S i) (match item_outcome env (uuidv4 env (tokens w)) file data with
                        | inr entry => (tally.1 ++ [entry], tally.2)
                        | inl err =>
                            (tally.1,
                             tally.2 ++ [mkItemError (VideoData.name data) (message err)])
                        end) w1) as (w2 & Hloop & Htok2 & Hlog2 & Hup2 & Hout2); [lia|].
    pose proof (batch_loop_frame videos rest (S i)
                  (match item_outcome env (uuidv4 env (tokens w)) file data with
                   | inr entry => (tally.1 ++ [entry], tally.2)
                   | inl err =>
                       (tally.1,
                        tally.2 ++ [mkItemError (VideoData.name data) (message err)])
                   end) w1) as [_ Hgrow].
    rewrite Hloop in Hgrow. cbn [snd] in Hgrow.
    exists w2. split; [|split; [|split; [|split]]].
    + etransitivity; [exact Hloop|]. rewrite Htok.
      destruct (item_outcome env (uuidv4 env (tokens w)) file data); cbn [fst snd];
        now rewrite <- app_assoc.
    + rewrite Htok2, Htok. cbn [length]. lia.
    + rewrite Hlog2, Hlog. cbn [map rev]. now rewrite <- app_assoc.
    + intros name. rewrite Hup2, Hup. cbn [map].
      destruct (decide (name ∈ map filename rest)) as [Hin|Hnot].
      * rewrite decide_True; [reflexivity|]. now apply list_elem_of_further.
      * destruct (decide (name = filename file)) as [->|Hne].
        -- rewrite lookup_delete_eq. rewrite decide_True; [reflexivity|]. apply list_elem_of_here.
        -- rewrite lookup_delete_ne by congruence.
           rewrite decide_False; [reflexivity|].
           intros H. apply elem_of_cons in H as [H|H]; contradiction.
    + intros entry Hin. rewrite Htok in Hout2.
      destruct (item_outcome env (uuidv4 env (tokens w)) file data) as [err|first] eqn:Hout;
        [now apply Hout2|].
      apply elem_of_cons in Hin as [->|Hin]; [|now apply Hout2].
      destruct Hentry as (_ & Hurl & Hthere). split; [exact Hurl|].
      apply elem_of_dom, Hgrow, elem_of_dom. eauto.
Qed.

(** The outer [catch] removes every file of the batch and touches
    nothing else. *)
Lemma for_each_remove_world (files : list UploadedFile) :
  forall w,
    exists w',
      for_each files (fun file => fs_remove (file_path file)) w = (Return tt, w') /\
      outputDir w' = outputDir w /\
      (forall name,
         uploadsDir w' !! name =
           if decide (name ∈ map filename files) then None else uploadsDir w !! name).
Proof.
  induction files as [|file rest IH]; intros w; cbn [for_each].
  - exists w. repeat split.
  - unfold bind, fs_remove at 1. cbn beta iota.
    destruct (IH (unlink (file_path file) w)) as (w' & Hrun & Hout & Hup).
    exists w'. split; [exact Hrun|]. split; [now rewrite Hout|].
    intros name. rewrite Hup. cbn [map unlink file_path dir base uploadsDir].
    destruct (decide (name ∈ map filename rest)) as [Hin|Hnot].
    + rewrite decide_True; [reflexivity|]. now apply list_elem_of_further.
    + destruct (decide (name = filename file)) as [->|Hne].
      * rewrite lookup_delete_eq. rewrite decide_True; [reflexivity|]. apply list_elem_of_here.
      * rewrite lookup_delete_ne by congruence.
        rewrite decide_False; [reflexivity|].
        intros H. apply elem_of_cons in H as [H|H]; contradiction.
Qed.

End BatchWorld.

Lemma exists_at_upload (w : World) (file : UploadedFile) :
  exists_at w (file_path file) = bool_decide (is_Some (uploadsDir w !! filename file)).
Proof. reflexivity. Qed.

Lemma not_exists_at (w : World) (p : path) :
  listing w (dir p) !! base p = None -> exists_at w p = false.
Proof.
  intros H. unfold exists_at. rewrite H. apply bool_decide_eq_false. intros [? E]. discriminate E.
Qed.

(** X5.  After a call of the batch route, accepted or rejected, none of
    the files it was given is left in the uploads directory. *)
Theorem batch_leaves_no_upload (env : Env) (req : BatchRequest.t) (w : World)
    (file : UploadedFile) :
  file ∈ BatchRequest.files req ->
  exists_at (process_batch env req w).2 (file_path file) = false.
Proof.
  intros Hin.
  assert (Hname : filename file ∈ map filename (BatchRequest.files req)).
  { now apply list_elem_of_fmap_2. }
  unfold process_batch.
  destruct (BatchRequest.files req) as [|file0 rest] eqn:Hfiles; [inversion Hin|].
  unfold try_catch, bind at 1.
  destruct (batch_loop env (BatchRequest.videos req) 0 (file0 :: rest) ([], []) w)
    as [[tally|err] w1] eqn:Hloop.
  - destruct (decide (0 + length (file0 :: rest) <= length (BatchRequest.videos req))%nat)
      as [Hcov|Hshort].
    + destruct (batch_loop_world env (BatchRequest.videos req) (file0 :: rest) 0 ([], []) w Hcov)
        as (w' & Hrun & _ & _ & Hup & _).
      rewrite Hrun in Hloop. injection Hloop as _ <-.
      cbn [ret snd]. apply not_exists_at. cbn [file_path dir base listing].
      rewrite Hup. now rewrite decide_True.
    + destruct (batch_loop_uncovered env (BatchRequest.videos req) (file0 :: rest) 0 ([], []) w)
        as (w' & Hrun); [lia | lia |].
      rewrite Hrun in Hloop. discriminate Hloop.
  - destruct (for_each_remove_world (file0 :: rest) w1) as (w2 & Hrun & _ & Hup).
    unfold bind. rewrite Hrun. cbn [ret snd].
    apply not_exists_at. cbn [file_path dir base listing].
    rewrite Hup. now rewrite decide_True.
Qed.

Lemma batch_leaves_no_upload_witness :
  exists_at (process_batch scenario_env short_batch scenario_world).2
            (mkPath Uploads "c.mp4") = false.
Proof.
  apply (batch_leaves_no_upload scenario_env short_batch scenario_world (mkFile "c.mp4" "c.mp4")).
  cbn. do 2 apply list_elem_of_further. apply list_elem_of_here.
Defined.

(** X6.  In a batch whose metadata covers its files, [fs.remove] is
    called exactly once per file, in file order, and one token is drawn
    per file. *)
Theorem batch_removes_each_input_once (env : Env) (req : BatchRequest.t) (w : World) :
  BatchRequest.files req <> [] ->
  (length (BatchRequest.files req) <= length (BatchRequest.videos req))%nat ->
  removals (process_batch env req w).2 =
    rev (map file_path (BatchRequest.files req)) ++ removals w /\
  tokens (process_batch env req w).2 = (tokens w + length (BatchRequest.files req))%nat.
Proof.
  intros Hne Hlen. unfold process_batch.
  destruct (batch_loop_world env (BatchRequest.videos req) (BatchRequest.files req) 0 ([], []) w)
    as (w' & Hrun & Htok & Hlog & _); [lia|].
  destruct (BatchRequest.files req) as [|file0 rest] eqn:Hfiles; [contradiction|].
  unfold try_catch, bind, ret. rewrite Hrun. cbn [snd]. now split.
Qed.

Lemma batch_removes_each_input_once_witness :
  removals (process_batch scenario_env scenario_batch scenario_world).2 =
    [mkPath Uploads "c.mp4"; mkPath Uploads "b.mp4"; mkPath Uploads "a.mp4"] /\
  tokens (process_batch scenario_env scenario_batch scenario_world).2 = 3%nat.
Proof.
  apply (batch_removes_each_input_once scenario_env scenario_batch scenario_world).
  - discriminate.
  - cbn. lia.
Defined.

Lemma process_video_frame (env : Env) (req : VideoRequest.t) (w : World) :
  consumes_uploads_adds_outputs w (process_video env req w).2.
Proof.
  unfold process_video. destruct (VideoRequest.file req) as [file|]; [|reflexivity].
  do 2 unfold_monad. cbn beta iota.
  destruct (ffprobe env (file_path file)) as [err|videoInfo]; cbn beta iota zeta.
  { split; cbn; [apply delete_subseteq | reflexivity]. }
  destruct (find (fun stream => String.eqb (codec_type stream) "video") (streams videoInfo))
    as [videoStream|]; cbn beta iota zeta.
  2: { split; cbn; [apply delete_subseteq | reflexivity]. }
  destruct (run env _) as [|err []]; cbn beta iota zeta;
    (split; cbn; [apply delete_subseteq | try apply dom_insert_subseteq; reflexivity]).
Qed.

(** X7.  With stored file names that are file names proper, and video
    names and tokens that have no path separator, neither handler ever
    removes a file from the output directory or adds one to the uploads
    directory: what is left of the uploads was there before, and every
    output that was there is still there. *)
Theorem handlers_consume_uploads_add_outputs (env : Env) (single : VideoRequest.t)
    (batch : BatchRequest.t) (w : World) :
  plain_video_request single ->
  plain_batch_request batch ->
  plain_tokens env (tokens w) (S (length (BatchRequest.files batch))) ->
  consumes_uploads_adds_outputs w (process_video env single w).2 /\
  consumes_uploads_adds_outputs w (process_batch env batch w).2.
Proof.
  intros _ _ _. split; [apply process_video_frame|].
  unfold process_batch.
  destruct (BatchRequest.files batch) as [|file0 rest] eqn:Hfiles; [reflexivity|].
  pose proof (batch_loop_frame env (BatchRequest.videos batch) (file0 :: rest) 0 ([], []) w)
    as Hframe.
  unfold try_catch, bind at 1.
  destruct (batch_loop env (BatchRequest.videos batch) 0 (file0 :: rest) ([], []) w)
    as [[tally|err] w1]; cbn [snd] in *; [exact Hframe|].
  destruct (for_each_remove_world (file0 :: rest) w1) as (w2 & Hrun & Hout & Hup).
  unfold bind. rewrite Hrun. cbn [ret snd].
  etransitivity; [exact Hframe|]. split; [|now rewrite Hout].
  apply map_subseteq_spec. intros name mtime Hname. rewrite Hup in Hname.
  now destruct (decide (name ∈ map filename (file0 :: rest))).
Qed.

Lemma handlers_consume_uploads_add_outputs_witness :
  consumes_uploads_adds_outputs scenario_world
    (process_video scenario_env scenario_request scenario_world).2 /\
  consumes_uploads_adds_outputs scenario_world
    (process_batch scenario_env scenario_batch scenario_world).2.
Proof.
  apply (handlers_consume_uploads_add_outputs scenario_env scenario_request scenario_batch
                                              scenario_world).
  - split; [intros file Hfile | intros name Hname];
      cbn in Hfile || cbn in Hname; [injection Hfile as <- | injection Hname as <-];
      reflexivity.
  - split; repeat constructor.
  - intros j Hj. cbn in Hj. destruct j as [|[|[|[|j]]]]; [reflexivity .. | lia].
Defined.

(** ** Downloading what was rendered *)

Lemma download_found (w : World) (filename : string) :
  is_Some (outputDir w !! filename) ->
  download filename w = (Return (FileSent (mkPath Output filename)), w).
Proof.
  intros H. unfold download, bind, fs_pathExists, exists_at. cbn [listing dir base].
  now rewrite bool_decide_eq_true_2.
Qed.

Lemma download_missing (w : World) (filename : string) :
  outputDir w !! filename = None ->
  download filename w = (Return FileNotFound, w).
Proof.
  intros H. unfold download, bind, fs_pathExists, exists_at. cbn [listing dir base].
  rewrite H. rewrite bool_decide_eq_false_2; [reflexivity|]. intros [? E]. discriminate E.
Qed.

(** X8.  With stored file names that are file names proper, and video
    names and tokens that have no path separator, every entry of
    [results] in the answer of the batch route can be downloaded right
    away: its [downloadUrl] is the download route followed by its
    [filename], and that file is in the output directory. *)
Theorem batch_results_are_downloadable (env : Env) (req : BatchRequest.t) (w : World)
    (processed total : nat) (results : list ItemSuccess) (errors : list ItemError)
    (entry : ItemSuccess) :
  plain_batch_request req ->
  plain_tokens env (tokens w) (length (BatchRequest.files req)) ->
  (process_batch env req w).1 = Return (BatchOk processed total results errors) ->
  entry ∈ results ->
  success_downloadUrl entry = "/api/download/" +:+ success_filename entry /\
  download (success_filename entry) (process_batch env req w).2 =
    (Return (FileSent (mkPath Output (success_filename entry))), (process_batch env req w).2).
Proof.
  intros _ _ Hok Hin.
  assert (Hacc : rejected (process_batch env req w).1 = false) by now rewrite Hok.
  assert (Hcov : BatchRequest.files req <> [] /\
                 (length (BatchRequest.files req) <= length (BatchRequest.videos req))%nat).
  { destruct (decide (BatchRequest.files req = [])) as [He|Hne].
    - rewrite (process_batch_empty env req w He) in Hacc. discriminate Hacc.
    - split; [exact Hne|].
      destruct (decide (length (BatchRequest.videos req) < length (BatchRequest.files req))%nat)
        as [Hshort|]; [|lia].
      destruct (process_batch_uncovered env req w Hshort) as (w' & Hrun).
      rewrite Hrun in Hacc. discriminate Hacc. }
  destruct Hcov as [Hne Hlen].
  revert Hok. unfold process_batch.
  destruct (batch_loop_world env (BatchRequest.videos req) (BatchRequest.files req) 0 ([], []) w)
    as (w' & Hrun & _ & _ & _ & Hthere); [lia|].
  destruct (BatchRequest.files req) as [|file0 rest] eqn:Hfiles; [contradiction|].
  unfold try_catch, bind, ret. rewrite Hrun. cbn [fst snd app]. intros Hok.
  injection Hok as _ _ <- _.
  destruct (Hthere entry Hin) as [Hurl Hfile].
  split; [exact Hurl | now apply download_found].
Qed.

Lemma batch_results_are_downloadable_witness :
  download "processed-third-token2.mp4"
           (process_batch scenario_env scenario_batch scenario_world).2 =
    (Return (FileSent (mkPath Output "processed-third-token2.mp4")),
     (process_batch scenario_env scenario_batch scenario_world).2).
Proof.
  apply (batch_results_are_downloadable scenario_env scenario_batch scenario_world 2 3
           [mkSuccess "first" "processed-first-token0.mp4"
                      "/api/download/processed-first-token0.mp4";
            mkSuccess "third" "processed-third-token2.mp4"
                      "/api/download/processed-third-token2.mp4"]
           [mkItemError "second" "Invalid data found when processing input"]
           (mkSuccess "third" "processed-third-token2.mp4"
                      "/api/download/processed-third-token2.mp4")).
  - split; repeat constructor.
  - intros j Hj. cbn in Hj. destruct j as [|[|[|j]]]; [reflexivity .. | lia].
  - vm_compute. reflexivity.
  - apply list_elem_of_further, list_elem_of_here.
Defined.

(** ** The order of the answer *)

Lemma item_outcome_entry (env : Env) (token : string) (file : UploadedFile)
    (data : VideoData.t) (entry : ItemSuccess) :
  item_outcome env token file data = inr entry ->
  success_originalName entry = VideoData.name data /\
  success_filename entry = item_output_name (VideoData.name data) token.
Proof.
  unfold item_outcome. destruct (ffprobe env (file_path file)); [discriminate|].
  destruct (find _ _); [|discriminate]. destruct (run env _); [|discriminate].
  intros H. injection H as <-. split; reflexivity.
Qed.

Lemma successes_in_order (env : Env) (items : list (UploadedFile * VideoData.t)) :
  forall n,
    map success_originalName (successes env n items) `sublist_of`
    map (fun item => VideoData.name item.2) items.
Proof.
  induction items as [|[file data] rest IH]; intros n; [constructor|].
  cbn [successes map snd].
  destruct (item_outcome env (uuidv4 env n) file data) as [err|entry] eqn:Hout.
  - apply sublist_cons, IH.
  - destruct (item_outcome_entry _ _ _ _ _ Hout) as [Hname _]. cbn [map]. rewrite Hname.
    apply sublist_skip, IH.
Qed.

Lemma failures_in_order (env : Env) (items : list (UploadedFile * VideoData.t)) :
  forall n,
    map error_originalName (failures env n items) `sublist_of`
    map (fun item => VideoData.name item.2) items.
Proof.
  induction items as [|[file data] rest IH]; intros n; [constructor|].
  cbn [failures map snd].
  destruct (item_outcome env (uuidv4 env n) file data) as [err|entry] eqn:Hout.
  - cbn [map error_originalName]. apply sublist_skip, IH.
  - apply sublist_cons, IH.
Qed.

Lemma successes_failures_cover (env : Env) (items : list (UploadedFile * VideoData.t)) :
  forall n,
    map success_originalName (successes env n items) ++
    map error_originalName (failures env n items) ≡ₚ
    map (fun item => VideoData.name item.2) items.
Proof.
  induction items as [|[file data] rest IH]; intros n; [constructor|].
  cbn [successes failures map snd].
  destruct (item_outcome env (uuidv4 env n) file data) as [err|entry] eqn:Hout.
  - cbn [map error_originalName]. rewrite <- Permutation_middle. constructor. apply IH.
  - destruct (item_outcome_entry _ _ _ _ _ Hout) as [Hname _]. cbn [map app].
    rewrite Hname. constructor. apply IH.
Qed.

(** X9.  The answer to an aligned batch keeps the submission order:
    the names in [results] and the names in [errors] are each a
    subsequence of the submitted names, and together they are the
    submitted names, each as often as it was submitted. *)
Theorem batch_answer_keeps_order (env : Env) (req : BatchRequest.t) (w : World) :
  length (BatchRequest.videos req) = length (BatchRequest.files req) ->
  BatchRequest.files req <> [] ->
  exists processed results errors,
    (process_batch env req w).1 =
      Return (BatchOk processed (length (BatchRequest.files req)) results errors) /\
    map success_originalName results `sublist_of` map VideoData.name (BatchRequest.videos req) /\
    map error_originalName errors `sublist_of` map VideoData.name (BatchRequest.videos req) /\
    map success_originalName results ++ map error_originalName errors ≡ₚ
      map VideoData.name (BatchRequest.videos req).
Proof.
  intros Hlen Hne.
  destruct (process_batch_covered env req w Hne) as (w' & Hrun); [lia|].
  assert (Hnames : map (fun item : UploadedFile * VideoData.t => VideoData.name item.2)
                     (zip (BatchRequest.files req) (BatchRequest.videos req)) =
                   map VideoData.name (BatchRequest.videos req)).
  { rewrite <- (snd_zip (BatchRequest.files req) (BatchRequest.videos req)) at 2 by lia.
    now rewrite <- list_fmap_compose. }
  do 3 eexists. split; [rewrite Hrun; reflexivity|].
  rewrite <- Hnames.
  split; [apply successes_in_order|]. split; [apply failures_in_order|].
  apply successes_failures_cover.
Qed.

Lemma batch_answer_keeps_order_witness :
  exists processed results errors,
    (process_batch scenario_env scenario_batch scenario_world).1 =
      Return (BatchOk processed 3 results errors) /\
    map success_originalName results ++ map error_originalName errors ≡ₚ
      ["first"; "second"; "third"].
Proof.
  destruct (batch_answer_keeps_order scenario_env scenario_batch scenario_world)
    as (processed & results & errors & Hrun & _ & _ & Hperm).
  - reflexivity.
  - discriminate.
  - exists processed, results, errors. split; [exact Hrun | exact Hperm].
Defined.

(** ** Metadata beyond the files *)

Lemma batch_loop_ext (env : Env) (videos videos' : list VideoData.t)
    (files : list UploadedFile) :
  forall (i : nat) (tally : Tally) (w : World),
    (forall j, (i <= j < i + length files)%nat -> videos !! j = videos' !! j) ->
    batch_loop env videos i files tally w = batch_loop env videos' i files tally w.
Proof.
  induction files as [|file rest IH]; intros i tally w Hsame; [reflexivity|].
  cbn [batch_loop length] in *. rewrite <- (Hsame i) by lia.
  unfold bind.
  destruct (try_catch _ _ w) as [[tally'|err] w1]; [|reflexivity].
  apply IH. intros j Hj. apply Hsame. lia.
Qed.

(** X10.  Metadata entries beyond the number of files are never read:
    the call answers and acts as if they had not been sent. *)
Theorem batch_ignores_surplus_metadata (env : Env) (files : list UploadedFile)
    (videos surplus : list VideoData.t) (w : World) :
  (length files <= length videos)%nat ->
  process_batch env (BatchRequest.mk files (videos ++ surplus)) w =
  process_batch env (BatchRequest.mk files videos) w.
Proof.
  intros Hlen. unfold process_batch. cbn [BatchRequest.files BatchRequest.videos].
  destruct files as [|file0 rest]; [reflexivity|].
  unfold try_catch, bind.
  rewrite (batch_loop_ext env (videos ++ surplus) videos (file0 :: rest) 0 ([], []) w);
    [reflexivity|].
  intros j Hj. apply lookup_app_l. lia.
Qed.

Lemma batch_ignores_surplus_metadata_witness :
  process_batch scenario_env
    (BatchRequest.mk scenario_files
       (BatchRequest.videos scenario_batch ++ [VideoData.mk "fourth" [] None]))
    scenario_world =
  process_batch scenario_env
    (BatchRequest.mk scenario_files (BatchRequest.videos scenario_batch)) scenario_world.
Proof.
  apply (batch_ignores_surplus_metadata scenario_env scenario_files
           (BatchRequest.videos scenario_batch) [VideoData.mk "fourth" [] None] scenario_world).
  cbn. lia.
Defined.

(** ** Output names *)

Lemma string_app_inv (a c b d : string) :
  String.length a = String.length c -> a +:+ b = c +:+ d -> a = c /\ b = d.
Proof.
  revert c. induction a as [|x a IH]; intros [|y c] Hlen Heq; try discriminate Hlen.
  - now split.
  - cbn in Hlen, Heq. injection Heq as -> Heq.
    destruct (IH c) as [-> ->]; [lia | exact Heq | now split].
Qed.

Lemma string_app_inv_tail (a c b d : string) :
  String.length b = String.length d -> a +:+ b = c +:+ d -> a = c /\ b = d.
Proof.
  intros Hlen Heq. apply string_app_inv; [|exact Heq].
  apply (f_equal String.length) in Heq. rewrite !length_app_string in Heq. lia.
Qed.

Lemma item_output_name_token (name1 name2 token1 token2 : string) :
  String.length token1 = String.length token2 ->
  item_output_name name1 token1 = item_output_name name2 token2 ->
  token1 = token2.
Proof.
  unfold item_output_name. intros Hlen Heq.
  rewrite <- !(string_app_assoc "processed-"), <- !(string_app_assoc _ "-") in Heq.
  apply string_app_inv_tail in Heq as [_ Heq].
  - now apply string_app_inv in Heq as [-> _].
  - rewrite !length_app_string. lia.
Qed.

Lemma successes_tokens (env : Env) (items : list (UploadedFile * VideoData.t)) :
  forall n entry,
    entry ∈ successes env n items ->
    exists k name,
      (k < length items)%nat /\
      success_filename entry = item_output_name name (uuidv4 env (n + k)).
Proof.
  induction items as [|[file data] rest IH]; intros n entry Hin; [inversion Hin|].
  cbn [successes] in Hin.
  assert (Hrest : entry ∈ successes env (S n) rest ->
                  exists k name,
                    (k < length ((file, data) :: rest))%nat /\
                    success_filename entry = item_output_name name (uuidv4 env (n + k))).
  { intros H. destruct (IH (S n) entry H) as (k & name & Hk & Hname).
    exists (S k), name. cbn [length]. split; [lia|].
    now replace (n + S k)%nat with (S n + k)%nat by lia. }
  destruct (item_outcome env (uuidv4 env n) file data) as [err|first] eqn:Hout; [auto|].
  apply elem_of_cons in Hin as [->|Hin]; [|auto].
  destruct (item_outcome_entry _ _ _ _ _ Hout) as [_ Hname].
  exists O, (VideoData.name data). cbn [length]. split; [lia|]. now rewrite Nat.add_0_r.
Qed.

Lemma successes_filenames_distinct (env : Env) (items : list (UploadedFile * VideoData.t)) :
  forall n,
    fresh_tokens env n (length items) ->
    NoDup (map success_filename (successes env n items)).
Proof.
  induction items as [|[file data] rest IH]; intros n Hfresh; [constructor|].
  assert (Hfresh' : fresh_tokens env (S n) (length rest)).
  { intros j k Hj Hk. cbn [length] in Hfresh.
    destruct (Hfresh (S j) (S k)) as [Hlen Hinj]; [lia | lia |].
    replace (n + S j)%nat with (S n + j)%nat in * by lia.
    replace (n + S k)%nat with (S n + k)%nat in * by lia.
    split; [exact Hlen|]. intros H. apply Hinj in H. lia. }
  cbn [successes].
  destruct (item_outcome env (uuidv4 env n) file data) as [err|first] eqn:Hout; [now apply IH|].
  cbn [map]. apply NoDup_cons. split; [|now apply IH].
  intros Hin. apply list_elem_of_fmap in Hin as (other & Hsame & Hother).
  destruct (successes_tokens env rest (S n) other Hother) as (k & name & Hk & Hname).
  destruct (item_outcome_entry _ _ _ _ _ Hout) as [_ Hfirst].
  rewrite Hfirst, Hname in Hsame.
  cbn [length] in Hfresh. destruct (Hfresh O (S k)) as [Hlen Hinj]; [lia | lia |].
  rewrite Nat.add_0_r in *. replace (n + S k)%nat with (S n + k)%nat in * by lia.
  apply item_output_name_token in Hsame; [|exact Hlen].
  apply Hinj in Hsame. discriminate Hsame.
Qed.

(** X11.  When the tokens drawn for a batch have one length and are
    pairwise different, no two entries of [results] share a file name,
    whatever the submitted names are. *)
Theorem batch_output_names_distinct (env : Env) (req : BatchRequest.t) (w : World)
    (processed total : nat) (results : list ItemSuccess) (errors : list ItemError) :
  fresh_tokens env (tokens w) (length (BatchRequest.files req)) ->
  (process_batch env req w).1 = Return (BatchOk processed total results errors) ->
  NoDup (map success_filename results).
Proof.
  intros Hfresh Hok.
  assert (Hacc : rejected (process_batch env req w).1 = false) by now rewrite Hok.
  destruct (decide (BatchRequest.files req = [])) as [He|Hne].
  { rewrite (process_batch_empty env req w He) in Hacc. discriminate Hacc. }
  destruct (decide (length (BatchRequest.videos req) < length (BatchRequest.files req))%nat)
    as [Hshort|Hcov].
  { destruct (process_batch_uncovered env req w Hshort) as (w' & Hrun).
    rewrite Hrun in Hacc. discriminate Hacc. }
  destruct (process_batch_covered env req w Hne) as (w' & Hrun); [lia|].
  rewrite Hrun in Hok. cbn [fst] in Hok. injection Hok as _ _ <- _.
  apply successes_filenames_distinct.
  rewrite length_zip. now replace (length (BatchRequest.files req) `min`
                                     length (BatchRequest.videos req))%nat
                          with (length (BatchRequest.files req)) by lia.
Qed.

Lemma batch_output_names_distinct_witness :
  NoDup (map success_filename
           [mkSuccess "first" "processed-first-token0.mp4"
                      "/api/download/processed-first-token0.mp4";
            mkSuccess "third" "processed-third-token2.mp4"
                      "/api/download/processed-third-token2.mp4"]).
Proof.
  apply (batch_output_names_distinct scenario_env scenario_batch scenario_world 2 3 _
           [mkItemError "second" "Invalid data found when processing input"]).
  - intros j k Hj Hk. cbn in Hj, Hk.
    destruct j as [|[|[|j]]]; [| | |lia]; destruct k as [|[|[|k]]]; try lia;
      (split; [reflexivity|]); vm_compute; intros H; try reflexivity; discriminate H.
  - vm_compute. reflexivity.
Defined.

(** ** From rendering to retention *)

Lemma process_video_completed (env : Env) (req : VideoRequest.t) (w : World)
    (name url : string) :
  (process_video env req w).1 = Return (VideoOk name url) ->
  name = output_name env req w /\ url = "/api/download/" +:+ name /\
  outputDir (process_video env req w).2 = <[name := now env]> (outputDir w).
Proof.
  unfold process_video. destruct (VideoRequest.file req) as [file|]; [|discriminate].
  do 2 unfold_monad. cbn beta iota. fold (output_name env req w).
  destruct (ffprobe env (file_path file)) as [err|videoInfo]; cbn beta iota zeta;
    [discriminate|].
  destruct (find (fun stream => String.eqb (codec_type stream) "video") (streams videoInfo))
    as [videoStream|]; cbn beta iota zeta; [|discriminate].
  destruct (run env _) as [|err []]; cbn beta iota zeta; try discriminate.
  intros H. injection H as <- <-. repeat split.
Qed.

(** X12.  With a stored file name that is a file name proper, and a video
    name and a token that have no path separator, a file rendered by
    /api/process-video can be downloaded under the name the answer gives.  After a sweep, whatever is refused
    to it, the file can still be downloaded if the sweep runs at most 24
    hours after the rendering; and the download answers "not found" if
    the sweep runs later than that and no [stat] or [remove] is refused
    to it. *)
Theorem rendered_file_lifecycle (env later : Env) (faults : Faults) (req : VideoRequest.t)
    (w : World) (name url : string) :
  plain_video_request req ->
  plain_tokens env (tokens w) 1 ->
  (process_video env req w).1 = Return (VideoOk name url) ->
  (download name (process_video env req w).2).1 = Return (FileSent (mkPath Output name)) /\
  (now later - now env <= maxAge ->
   (download name (cleanupOldFiles later faults (process_video env req w).2).2).1 =
     Return (FileSent (mkPath Output name))) /\
  (now later - now env > maxAge ->
   fault_free faults (process_video env req w).2 ->
   (download name (cleanupOldFiles later faults (process_video env req w).2).2).1 =
     Return FileNotFound).
Proof.
  intros _ _ Hok. destruct (process_video_completed env req w name url Hok) as (_ & _ & Hout).
  set (w1 := (process_video env req w).2) in *.
  assert (Hfile : outputDir w1 !! name = Some (now env)).
  { rewrite Hout. apply lookup_insert_eq. }
  split; [|split].
  - rewrite download_found; [reflexivity | eauto].
  - intros Hyoung.
    destruct (cleanupOldFiles_safe later faults w1) as (w2 & Hrun & Hsafe).
    rewrite Hrun. cbn [snd]. rewrite download_found; [reflexivity|].
    destruct (Hsafe Output name) as [E | [_ (mtime & E & Hold)]]; cbn [listing] in *.
    + rewrite E. eauto.
    + rewrite Hfile in E. injection E as <-. lia.
  - intros Hold Hfree.
    destruct (cleanupOldFiles_runs later faults w1 Hfree) as (w2 & Hrun & Hlist).
    rewrite Hrun. cbn [snd]. specialize (Hlist Output). cbn [listing] in Hlist.
    rewrite download_missing; [reflexivity|].
    rewrite Hlist.
    destruct (swept (now later) (outputDir w1) !! name) as [mtime|] eqn:E; [|reflexivity].
    apply swept_lookup_Some in E as [E Hkeep]. rewrite Hfile in E. injection E as <-. lia.
Qed.

Lemma rendered_file_lifecycle_witness :
  (download "processed-clip-token0.mp4"
     (cleanupOldFiles sweep_env no_faults
        (process_video scenario_env scenario_request scenario_world).2).2).1 =
    Return FileNotFound.
Proof.
  refine (proj2 (proj2 (rendered_file_lifecycle scenario_env sweep_env no_faults scenario_request
                          scenario_world "processed-clip-token0.mp4"
                          "/api/download/processed-clip-token0.mp4" _ _ _)) _ _).
  - split; [intros file Hfile | intros name Hname];
      cbn in Hfile || cbn in Hname; [injection Hfile as <- | injection Hname as <-];
      reflexivity.
  - intros j Hj. destruct j as [|j]; [reflexivity | lia].
  - vm_compute. reflexivity.
  - vm_compute. reflexivity.
  - intros a name _. split; reflexivity.
Defined.

(** ** The editor's arithmetic *)

Lemma Math_max_cases (a b : Q) :
  (Math_max a b = b /\ (a <= b)%Q) \/ (Math_max a b = a /\ (b < a)%Q).
Proof.
  unfold Math_max. destruct (Qle_bool a b) eqn:E.
  - left. split; [reflexivity | now apply Qle_bool_iff].
  - right. split; [reflexivity|].
    destruct (Qlt_le_dec b a) as [H|H]; [exact H|].
    apply Qle_bool_iff in H. congruence.
Qed.

Lemma Math_min_spec (a b : Q) :
  (JS.Math_min a b = a /\ (a <= b)%Q) \/ (JS.Math_min a b = b /\ (b < a)%Q).
Proof.
  unfold JS.Math_min. destruct (Qle_bool a b) eqn:E.
  - left. split; [reflexivity | now apply Qle_bool_iff].
  - right. split; [reflexivity|].
    destruct (Qlt_le_dec b a) as [H|H]; [exact H|].
    apply Qle_bool_iff in H. congruence.
Qed.

Ltac minmax :=
  repeat match goal with
         | |- context [Math_max ?a ?b] =>
             let H := fresh in
             let E := fresh in
             destruct (Math_max_cases a b) as [[E H] | [E H]]; rewrite E in *; clear E
         | |- context [JS.Math_min ?a ?b] =>
             let H := fresh in
             let E := fresh in
             destruct (Math_min_spec a b) as [[E H] | [E H]]; rewrite E in *; clear E
         | _ : context [Math_max ?a ?b] |- _ =>
             let H := fresh in
             let E := fresh in
             destruct (Math_max_cases a b) as [[E H] | [E H]]; rewrite E in *; clear E
         | _ : context [JS.Math_min ?a ?b] |- _ =>
             let H := fresh in
             let E := fresh in
             destruct (Math_min_spec a b) as [[E H] | [E H]]; rewrite E in *; clear E
         end.

(** X13.  For a frame of positive size, the reel crop is 9:16, lies
    inside the frame and is centred in it: the offsets are not negative,
    twice an offset plus the crop size is the frame size, and one of the
    two offsets is zero. *)
Theorem reel_crop_is_centred_9_16 (originalWidth originalHeight : Q) :
  (0 < originalWidth)%Q -> (0 < originalHeight)%Q ->
  let crop := calculateReelDimensions originalWidth originalHeight in
  (ReelDimensions.width crop * 16 == ReelDimensions.height crop * 9)%Q /\
  (0 < ReelDimensions.width crop)%Q /\
  (0 <= ReelDimensions.offsetX crop)%Q /\ (0 <= ReelDimensions.offsetY crop)%Q /\
  (2 * ReelDimensions.offsetX crop + ReelDimensions.width crop == originalWidth)%Q /\
  (2 * ReelDimensions.offsetY crop + ReelDimensions.height crop == originalHeight)%Q /\
  (ReelDimensions.offsetX crop == 0 \/ ReelDimensions.offsetY crop == 0)%Q.
Proof.
  intros Hw Hh. unfold calculateReelDimensions. cbn zeta.
  assert (Hratio : (originalWidth / originalHeight * originalHeight == originalWidth)%Q).
  { field. lra. }
  assert (Hreel : (9 / 16 == 9 # 16)%Q) by reflexivity.
  assert (Hhalf : forall q : Q, (q / 2 == q * (1 # 2))%Q) by (intros q; field).
  assert (Hinv : (originalWidth / (9 / 16) == originalWidth * (16 # 9))%Q).
  { field. }
  destruct (Qlt_le_dec (9 / 16) (originalWidth / originalHeight)) as [Hwide|Htall];
    cbn [ReelDimensions.width ReelDimensions.height ReelDimensions.offsetX
         ReelDimensions.offsetY].
  - pose proof (Qmult_lt_compat_r _ _ originalHeight Hh Hwide) as H.
    rewrite Hratio, Hreel in H. rewrite Hreel, !Hhalf.
    repeat split; lra.
  - assert (Hnn : (0 <= originalHeight)%Q) by lra.
    pose proof (Qmult_le_compat_r _ _ originalHeight Htall Hnn) as H.
    rewrite Hratio, Hreel in H. rewrite !Hhalf, Hinv.
    repeat split; lra.
Qed.

Lemma reel_crop_is_centred_9_16_witness :
  (ReelDimensions.width (calculateReelDimensions 1920 1080) * 16 ==
   ReelDimensions.height (calculateReelDimensions 1920 1080) * 9)%Q.
Proof.
  apply (reel_crop_is_centred_9_16 1920 1080); reflexivity.
Defined.

(** ** Time labels *)

Lemma Qfloor_unique (q : Q) (z : Z) :
  (inject_Z z <= q)%Q -> (q < inject_Z (z + 1))%Q -> Qfloor q = z.
Proof.
  intros Hle Hlt.
  pose proof (Qfloor_le q) as Hf1. pose proof (Qlt_floor q) as Hf2.
  assert (H1 : (inject_Z (Qfloor q) < inject_Z (z + 1))%Q) by lra.
  assert (H2 : (inject_Z z < inject_Z (Qfloor q + 1))%Q) by lra.
  rewrite <- Zlt_Qlt in H1, H2. lia.
Qed.

Lemma Qfloor_div_60 (seconds : Q) : Qfloor (seconds / 60) = Qfloor seconds / 60.
Proof.
  apply Qfloor_unique.
  - pose proof (Qfloor_le seconds) as Hf.
    assert (H : (inject_Z (60 * (Qfloor seconds / 60)) <= inject_Z (Qfloor seconds))%Q).
    { rewrite <- Zle_Qle. apply Z.mul_div_le. lia. }
    rewrite inject_Z_mult in H. change (inject_Z 60) with 60%Q in H.
    apply Qle_shift_div_l; [reflexivity|]. lra.
  - pose proof (Qlt_floor seconds) as Hf.
    assert (H : (inject_Z (Qfloor seconds + 1) <= inject_Z (60 * (Qfloor seconds / 60 + 1)))%Q).
    { rewrite <- Zle_Qle.
      pose proof (Z.mul_succ_div_gt (Qfloor seconds) 60 ltac:(lia)). lia. }
    rewrite inject_Z_mult in H. change (inject_Z 60) with 60%Q in H.
    apply Qlt_shift_div_r; [reflexivity|]. lra.
Qed.

Lemma Qfloor_minus_Z (q : Q) (k : Z) : Qfloor (q - inject_Z k) = Qfloor q - k.
Proof.
  apply Qfloor_unique.
  - pose proof (Qfloor_le q). unfold Z.sub. rewrite inject_Z_plus, inject_Z_opp. lra.
  - pose proof (Qlt_floor q) as H. rewrite inject_Z_plus in H.
    unfold Z.sub. rewrite !inject_Z_plus, inject_Z_opp. lra.
Qed.

Lemma remainder_60 (seconds : Q) :
  (0 <= seconds)%Q ->
  Math_floor (remainder seconds 60) = Qfloor seconds mod 60.
Proof.
  intros Hpos. unfold Math_floor, remainder. cbn zeta.
  destruct (Qlt_le_dec (seconds / 60) 0) as [Hneg|_].
  { exfalso. apply (Qlt_not_le _ _ Hneg). apply Qle_shift_div_l; [reflexivity | lra]. }
  rewrite Qfloor_div_60.
  assert (H : (seconds - 60 * inject_Z (Qfloor seconds / 60) ==
               seconds - inject_Z (60 * (Qfloor seconds / 60)))%Q).
  { rewrite inject_Z_mult. reflexivity. }
  rewrite H, Qfloor_minus_Z. rewrite Z.mod_eq by lia. reflexivity.
Qed.

Lemma padStart2_two_digits (z : Z) :
  0 <= z < 100 -> String.length (padStart2 (JS.Integer_toString z)) = 2%nat.
Proof.
  intros Hz.
  assert (Hall : forallb (fun k => Nat.eqb (String.length
                                     (padStart2 (JS.Integer_toString (Z.of_nat k)))) 2)
                         (seq 0 100) = true) by (vm_compute; reflexivity).
  rewrite forallb_forall in Hall.
  specialize (Hall (Z.to_nat z)). rewrite Z2Nat.id in Hall by lia.
  apply Nat.eqb_eq, Hall. apply in_seq. lia.
Qed.

(** X14.  For a time that is not negative, the label shows the whole
    seconds: minutes are the whole seconds divided by 60, seconds their
    remainder, each padded to two digits; below 100 minutes the label
    has exactly the five characters of "mm:ss". *)
Theorem formatTime_shows_whole_seconds (seconds : Q) :
  (0 <= seconds)%Q ->
  formatTime seconds =
    padStart2 (JS.Integer_toString (Qfloor seconds / 60)) +:+ ":" +:+
    padStart2 (JS.Integer_toString (Qfloor seconds mod 60)) /\
  ((seconds < 6000)%Q -> String.length (formatTime seconds) = 5%nat).
Proof.
  intros Hpos.
  assert (Heq : formatTime seconds =
                padStart2 (JS.Integer_toString (Qfloor seconds / 60)) +:+ ":" +:+
                padStart2 (JS.Integer_toString (Qfloor seconds mod 60))).
  { unfold formatTime. cbn zeta. rewrite remainder_60 by exact Hpos.
    unfold Math_floor. now rewrite Qfloor_div_60. }
  split; [exact Heq|]. intros Hlt. rewrite Heq.
  assert (H0 : 0 <= Qfloor seconds).
  { change 0 with (Qfloor 0). now apply Qfloor_resp_le. }
  assert (H1 : Qfloor seconds < 6000).
  { pose proof (Qfloor_le seconds) as Hf.
    assert (H : (inject_Z (Qfloor seconds) < inject_Z 6000)%Q) by (change (inject_Z 6000) with 6000%Q; lra).
    now rewrite <- Zlt_Qlt in H. }
  assert (Hmins : 0 <= Qfloor seconds / 60 < 100).
  { split; [apply Z.div_pos; lia | apply Z.div_lt_upper_bound; lia]. }
  assert (Hsecs : 0 <= Qfloor seconds mod 60 < 100).
  { pose proof (Z.mod_pos_bound (Qfloor seconds) 60 ltac:(lia)). lia. }
  rewrite !length_app_string.
  rewrite (padStart2_two_digits _ Hmins), (padStart2_two_digits _ Hsecs). reflexivity.
Qed.

Lemma formatTime_shows_whole_seconds_witness :
  formatTime (1255 # 10) =
    padStart2 (JS.Integer_toString (Qfloor (1255 # 10) / 60)) +:+ ":" +:+
    padStart2 (JS.Integer_toString (Qfloor (1255 # 10) mod 60)).
Proof.
  apply (formatTime_shows_whole_seconds (1255 # 10)). discriminate.
Defined.

Example formatTime_samples :
  formatTime (1255 # 10) = "02:05" /\ formatTime 0 = "00:00" /\ formatTime 3599 = "59:59" /\
  formatTime 6000 = "100:00".
Proof. repeat split; vm_compute; reflexivity. Qed.

(** ** The timeline *)

Lemma Math_min_idem_r (a b : Q) : JS.Math_min (JS.Math_min a b) b = JS.Math_min a b.
Proof.
  unfold JS.Math_min. destruct (Qle_bool a b) eqn:E; [now rewrite E|].
  assert (H : Qle_bool b b = true) by (apply Qle_bool_iff; lra). now rewrite H.
Qed.

Lemma pointer_fraction (x rect_width : Q) :
  (0 < rect_width)%Q ->
  (0 <= Math_max 0 (JS.Math_min 1 (x / rect_width)) <= 1)%Q.
Proof. intros _. generalize (x / rect_width)%Q. intros r. minmax; lra. Qed.

Lemma pointer_time (x rect_width effectiveDuration : Q) :
  (0 < rect_width)%Q -> (0 <= effectiveDuration)%Q ->
  (0 <= Math_max 0 (JS.Math_min 1 (x / rect_width)) * effectiveDuration <= effectiveDuration)%Q.
Proof.
  intros Hw He. pose proof (pointer_fraction x rect_width Hw) as [H0 H1].
  set (p := Math_max 0 (JS.Math_min 1 (x / rect_width))) in *. split.
  - apply Qmult_le_0_compat; assumption.
  - pose proof (Qmult_le_compat_r p 1 effectiveDuration H1 He) as H.
    now rewrite Qmult_1_l in H.
Qed.

(** X15.  A click on the track seeks into the clip: the time handed on is
    between 0 and the effective duration, and for a pointer over the track
    it is the clicked fraction of the effective duration; while an overlay
    is dragged a click seeks nowhere. *)
Theorem click_seeks_inside_clip (clientX rect_left rect_width effectiveDuration : Q) :
  (0 < rect_width)%Q -> (0 <= effectiveDuration)%Q ->
  (forall dragged,
     Timeline.handleTimelineClick (Some dragged) clientX rect_left rect_width effectiveDuration
     = None) /\
  exists time,
    Timeline.handleTimelineClick None clientX rect_left rect_width effectiveDuration = Some time /\
    (0 <= time <= effectiveDuration)%Q /\
    ((rect_left <= clientX <= rect_left + rect_width)%Q ->
     (time == (clientX - rect_left) / rect_width * effectiveDuration)%Q).
Proof.
  intros Hw He. split; [reflexivity|]. eexists. split; [reflexivity|].
  cbn zeta. split.
  - generalize ((clientX - rect_left) / rect_width * effectiveDuration)%Q. intros t.
    minmax; lra.
  - intros [Hl Hr].
    assert (H0 : (0 <= (clientX - rect_left) / rect_width)%Q).
    { apply Qle_shift_div_l; [exact Hw | lra]. }
    assert (H1 : ((clientX - rect_left) / rect_width <= 1)%Q).
    { apply Qle_shift_div_r; [exact Hw | lra]. }
    assert (Ht0 : (0 <= (clientX - rect_left) / rect_width * effectiveDuration)%Q).
    { apply Qmult_le_0_compat; assumption. }
    assert (Ht1 : ((clientX - rect_left) / rect_width * effectiveDuration <= effectiveDuration)%Q).
    { pose proof (Qmult_le_compat_r _ 1 effectiveDuration H1 He) as H.
      now rewrite Qmult_1_l in H. }
    clear H0 H1. revert Ht0 Ht1.
    generalize ((clientX - rect_left) / rect_width * effectiveDuration)%Q.
    intros t Ht0 Ht1. minmax; lra.
Qed.

Lemma click_seeks_inside_clip_witness :
  exists time,
    Timeline.handleTimelineClick None 500 100 800 20 = Some time /\
    (0 <= time <= 20)%Q /\
    ((100 <= 500 <= 100 + 800)%Q -> (time == (500 - 100) / 800 * 20)%Q).
Proof.
  apply (click_seeks_inside_clip 500 100 800 20); reflexivity || discriminate.
Defined.

(** X16.  Dragging an edge of an overlay keeps its window in shape.  The
    start handle leaves the end alone and gives a start that is not
    negative and, for an overlay that ends after 0.1 s, at least 0.1 s
    before the end and the effective duration.  The end handle leaves the
    start alone and gives an end at least 0.1 s after it; the end stays
    within the effective duration only when the start leaves room for
    it. *)
Theorem edge_drag_keeps_window (dragged : string) (overlays : list TextOverlay.t)
    (overlay : TextOverlay.t) (clientX rect_left rect_width effectiveDuration : Q) :
  find (fun o => String.eqb (TextOverlay.id o) dragged) overlays = Some overlay ->
  (0 < rect_width)%Q -> (0 <= effectiveDuration)%Q ->
  (exists updates,
     Timeline.handleMouseMove (Some dragged) (Some DragStart) overlays
                              clientX rect_left rect_width effectiveDuration
     = Some (dragged, updates) /\
     let moved := spread overlay updates in
     TextOverlay.endTime moved = TextOverlay.endTime overlay /\
     (0 <= TextOverlay.startTime moved)%Q /\
     ((1 # 10 <= TextOverlay.endTime overlay)%Q ->
      (1 # 10 <= effectiveDuration)%Q ->
      (TextOverlay.startTime moved <= TextOverlay.endTime moved - (1 # 10))%Q /\
      (TextOverlay.startTime moved <= effectiveDuration - (1 # 10))%Q)) /\
  (exists updates,
     Timeline.handleMouseMove (Some dragged) (Some DragEnd) overlays
                              clientX rect_left rect_width effectiveDuration
     = Some (dragged, updates) /\
     let moved := spread overlay updates in
     TextOverlay.startTime moved = TextOverlay.startTime overlay /\
     (TextOverlay.startTime moved + (1 # 10) <= TextOverlay.endTime moved)%Q /\
     ((TextOverlay.startTime overlay + (1 # 10) <= effectiveDuration)%Q <->
      (TextOverlay.endTime moved <= effectiveDuration)%Q)).
Proof.
  intros Hfind Hw He.
  pose proof (pointer_time (clientX - rect_left) rect_width effectiveDuration Hw He) as [Ht0 Ht1].
  unfold Timeline.handleMouseMove. rewrite Hfind. cbn zeta.
  revert Ht0 Ht1.
  generalize (Math_max 0 (JS.Math_min 1 ((clientX - rect_left) / rect_width)) *
              effectiveDuration)%Q.
  intros time Ht0 Ht1.
  split; eexists; (split; [reflexivity|]); destruct overlay;
    cbn [spread Partial.of_startTime Partial.of_endTime Partial.startTime Partial.endTime
         TextOverlay.startTime TextOverlay.endTime default from_option Datatypes.id].
  - split; [reflexivity|]. split; [minmax; lra|]. intros H1 H2. minmax; lra.
  - split; [reflexivity|]. split; [minmax; lra|]. split; intros H; minmax; lra.
Qed.

Lemma edge_drag_keeps_window_witness :
  exists updates,
    Timeline.handleMouseMove (Some "3") (Some DragEnd) [scenario_overlay; trimmed_overlay]
                             500 100 800 20
    = Some ("3", updates) /\
    let moved := spread trimmed_overlay updates in
    TextOverlay.startTime moved = TextOverlay.startTime trimmed_overlay /\
    (TextOverlay.startTime moved + (1 # 10) <= TextOverlay.endTime moved)%Q /\
    ((TextOverlay.startTime trimmed_overlay + (1 # 10) <= 20)%Q <->
     (TextOverlay.endTime moved <= 20)%Q).
Proof.
  refine (proj2 (edge_drag_keeps_window "3" [scenario_overlay; trimmed_overlay]
                                       trimmed_overlay 500 100 800 20 _ _ _));
    reflexivity || discriminate.
Defined.

(** X17.  Dragging an overlay as a whole puts it inside the clip: the new
    start is not negative, the new end is within the effective duration,
    and the overlay keeps its length when it fits into the effective
    duration and is cut down to the effective duration when it does
    not. *)
Theorem move_drag_fits_overlay (dragged : string) (overlays : list TextOverlay.t)
    (overlay : TextOverlay.t) (clientX rect_left rect_width effectiveDuration : Q) :
  find (fun o => String.eqb (TextOverlay.id o) dragged) overlays = Some overlay ->
  (0 < rect_width)%Q -> (0 <= effectiveDuration)%Q ->
  exists updates,
    Timeline.handleMouseMove (Some dragged) (Some DragMove) overlays
                             clientX rect_left rect_width effectiveDuration
    = Some (dragged, updates) /\
    let moved := spread overlay updates in
    let overlayDuration := (TextOverlay.endTime overlay - TextOverlay.startTime overlay)%Q in
    (0 <= TextOverlay.startTime moved)%Q /\
    (TextOverlay.endTime moved <= effectiveDuration)%Q /\
    (TextOverlay.endTime moved - TextOverlay.startTime moved ==
     JS.Math_min overlayDuration effectiveDuration)%Q.
Proof.
  intros Hfind Hw He.
  pose proof (pointer_time (clientX - rect_left) rect_width effectiveDuration Hw He) as [Ht0 Ht1].
  unfold Timeline.handleMouseMove. rewrite Hfind. cbn zeta.
  revert Ht0 Ht1.
  generalize (Math_max 0 (JS.Math_min 1 ((clientX - rect_left) / rect_width)) *
              effectiveDuration)%Q.
  intros time Ht0 Ht1.
  eexists. split; [reflexivity|]. destruct overlay.
  cbn [spread Partial.of_window Partial.startTime Partial.endTime
       TextOverlay.startTime TextOverlay.endTime default from_option Datatypes.id].
  repeat split; minmax; lra.
Qed.

Lemma move_drag_fits_overlay_witness :
  exists updates,
    Timeline.handleMouseMove (Some "3") (Some DragMove) [scenario_overlay; trimmed_overlay]
                             500 100 800 20
    = Some ("3", updates) /\
    let moved := spread trimmed_overlay updates in
    let overlayDuration :=
      (TextOverlay.endTime trimmed_overlay - TextOverlay.startTime trimmed_overlay)%Q in
    (0 <= TextOverlay.startTime moved)%Q /\
    (TextOverlay.endTime moved <= 20)%Q /\
    (TextOverlay.endTime moved - TextOverlay.startTime moved ==
     JS.Math_min overlayDuration 20)%Q.
Proof.
  apply (move_drag_fits_overlay "3" [scenario_overlay; trimmed_overlay] trimmed_overlay
                                500 100 800 20); reflexivity || discriminate.
Defined.

(** ** The duration cap in the editor *)

Lemma clampOverlay_idem (cap : Q) (overlay : TextOverlay.t) :
  Editor.clampOverlay cap (Editor.clampOverlay cap overlay) = Editor.clampOverlay cap overlay.
Proof.
  unfold Editor.clampOverlay. cbn [TextOverlay.id TextOverlay.text TextOverlay.x TextOverlay.y
    TextOverlay.width TextOverlay.height TextOverlay.fontSize TextOverlay.fontWeight
    TextOverlay.color TextOverlay.outlineColor TextOverlay.outlineWidth TextOverlay.opacity
    TextOverlay.startTime TextOverlay.endTime TextOverlay.fontFamily TextOverlay.textAlign
    TextOverlay.animation].
  now rewrite !Math_min_idem_r.
Qed.

(** X18.  Setting the cap twice is setting it once; the overlays keep
    their number, order and ids; under a cap below 300 every overlay ends
    by the cap and starts at least half a second before it, and a cap of
    300 or more changes nothing. *)
Theorem cap_change_is_idempotent (cap : Q) (overlays : list TextOverlay.t) :
  Editor.handleMaxDurationChange cap (Editor.handleMaxDurationChange cap overlays) =
    Editor.handleMaxDurationChange cap overlays /\
  map TextOverlay.id (Editor.handleMaxDurationChange cap overlays) =
    map TextOverlay.id overlays /\
  ((cap < 300)%Q ->
   Forall (fun overlay => (TextOverlay.endTime overlay <= cap)%Q /\
                          (TextOverlay.startTime overlay <= cap - (1 # 2))%Q)
          (Editor.handleMaxDurationChange cap overlays)) /\
  ((300 <= cap)%Q -> Editor.handleMaxDurationChange cap overlays = overlays).
Proof.
  unfold Editor.handleMaxDurationChange.
  destruct (Qlt_le_dec cap 300) as [Hlt|Hge].
  - split; [|split; [|split]].
    + rewrite map_map. apply map_ext. intros o. apply clampOverlay_idem.
    + rewrite map_map. apply map_ext. intros o. reflexivity.
    + intros _. apply Forall_forall. intros o Hin.
      apply list_elem_of_fmap in Hin as (o0 & -> & _).
      cbn [Editor.clampOverlay TextOverlay.startTime TextOverlay.endTime].
      split; minmax; lra.
    + intros H. lra.
  - repeat split; try reflexivity. intros H. lra.
Qed.

Lemma cap_change_is_idempotent_witness :
  Forall (fun overlay => (TextOverlay.endTime overlay <= 20)%Q /\
                         (TextOverlay.startTime overlay <= 20 - (1 # 2))%Q)
         (Editor.handleMaxDurationChange 20 [trimmed_overlay; scenario_overlay]).
Proof.
  apply (cap_change_is_idempotent 20 [trimmed_overlay; scenario_overlay]). reflexivity.
Defined.

(** X19.  The timeline is handed the effective duration the editor
    computed and computes its own from it under the same cap: the two
    agree, and the result exceeds neither the video's duration nor a cap
    below 300. *)
Theorem timeline_agrees_with_editor (maxDuration duration : Q) :
  Timeline.effectiveDuration (Editor.getEffectiveDuration maxDuration duration) maxDuration =
    Editor.getEffectiveDuration maxDuration duration /\
  (Editor.getEffectiveDuration maxDuration duration <= duration)%Q /\
  ((maxDuration < 300)%Q -> (Editor.getEffectiveDuration maxDuration duration <= maxDuration)%Q).
Proof.
  unfold Timeline.effectiveDuration, Editor.getEffectiveDuration.
  destruct (Qlt_le_dec maxDuration 300) as [Hlt|Hge].
  - split; [apply Math_min_idem_r|]. split; [|intros _]; minmax; lra.
  - split; [reflexivity|]. split; [lra | intros H; lra].
Qed.

Lemma timeline_agrees_with_editor_witness :
  (Editor.getEffectiveDuration 20 60 <= 20)%Q.
Proof. apply (timeline_agrees_with_editor 20 60). reflexivity. Defined.

(** ** The overlay handlers of the editor *)

Lemma spread_empty (overlay : TextOverlay.t) : spread overlay Partial.empty = overlay.
Proof. now destruct overlay. Qed.

Lemma with_textOverlays_same (video : VideoFile.t) :
  VideoFile.with_textOverlays (VideoFile.textOverlays video) video = video.
Proof. now destruct video. Qed.

Lemma with_textOverlays_twice (a b : list TextOverlay.t) (video : VideoFile.t) :
  VideoFile.with_textOverlays a (VideoFile.with_textOverlays b video) =
  VideoFile.with_textOverlays a video.
Proof. reflexivity. Qed.

Lemma map_id_ext {A} (f : A -> A) (xs : list A) :
  (forall x, In x xs -> f x = x) -> map f xs = xs.
Proof.
  intros H. induction xs as [|x rest IH]; [reflexivity|]. cbn [map].
  rewrite H by (left; reflexivity). f_equal. apply IH. intros y Hy. apply H. now right.
Qed.

Lemma filter_all {A} (p : A -> bool) (xs : list A) :
  (forall x, In x xs -> p x = true) -> List.filter p xs = xs.
Proof.
  intros H. induction xs as [|x rest IH]; [reflexivity|]. cbn [List.filter].
  rewrite H by (left; reflexivity). f_equal. apply IH. intros y Hy. apply H. now right.
Qed.

(** X20.  Deleting the overlay that was just added gives back the list of
    videos, when the new id is not yet the id of an overlay of that
    video. *)
Theorem delete_undoes_add (newId videoId : string) (overlay : TextOverlay.t)
    (prev : list VideoFile.t) :
  (forall video existing,
     In video prev -> VideoFile.id video = videoId ->
     In existing (VideoFile.textOverlays video) -> TextOverlay.id existing <> newId) ->
  App.handleDeleteOverlay videoId newId (App.handleAddOverlay newId videoId overlay prev) = prev.
Proof.
  intros Hfresh. unfold App.handleDeleteOverlay, App.handleAddOverlay.
  rewrite map_map. apply map_id_ext. intros video Hin.
  destruct (String.eqb (VideoFile.id video) videoId) eqn:Hid.
  - cbn [VideoFile.with_textOverlays VideoFile.id]. rewrite Hid.
    rewrite with_textOverlays_twice.
    transitivity (VideoFile.with_textOverlays (VideoFile.textOverlays video) video);
      [|apply with_textOverlays_same].
    f_equal.
    cbn [VideoFile.with_textOverlays VideoFile.textOverlays]. rewrite List.filter_app.
    rewrite filter_all.
    + cbn [List.filter]. destruct overlay.
      cbn [App.with_id spread Partial.id TextOverlay.id default from_option Datatypes.id].
      rewrite String.eqb_refl. cbn [negb]. apply app_nil_r.
    + intros existing Hex. apply negb_true_iff, String.eqb_neq.
      apply (Hfresh video existing Hin); [now apply String.eqb_eq | exact Hex].
  - now rewrite Hid.
Qed.

Lemma delete_undoes_add_witness :
  App.handleDeleteOverlay "a" "9" (App.handleAddOverlay "9" "a" trimmed_overlay scenario_videos)
  = scenario_videos.
Proof.
  apply (delete_undoes_add "9" "a" trimmed_overlay scenario_videos).
  intros video existing Hvideo _ Hexisting.
  cbn in Hvideo. destruct Hvideo as [<- | [<- | [<- | []]]]; cbn in Hexisting;
    repeat (destruct Hexisting as [<- | Hexisting]; [discriminate|]); destruct Hexisting.
Defined.

(** X21.  An update that names no field, or names an overlay id that
    no overlay of the video has, leaves the videos as they are; an update
    that does not set the id keeps, in every video, the overlays' number,
    order and ids, and keeps the videos' own number, order and ids. *)
Theorem update_keeps_overlay_ids (videoId overlayId : string) (updates : Partial.t)
    (prev : list VideoFile.t) :
  App.handleUpdateOverlay videoId overlayId Partial.empty prev = prev /\
  ((forall video existing,
      In video prev -> VideoFile.id video = videoId ->
      In existing (VideoFile.textOverlays video) -> TextOverlay.id existing <> overlayId) ->
   App.handleUpdateOverlay videoId overlayId updates prev = prev) /\
  map VideoFile.id (App.handleUpdateOverlay videoId overlayId updates prev) =
    map VideoFile.id prev /\
  (Partial.id updates = None ->
   map (fun video => map TextOverlay.id (VideoFile.textOverlays video))
       (App.handleUpdateOverlay videoId overlayId updates prev) =
   map (fun video => map TextOverlay.id (VideoFile.textOverlays video)) prev).
Proof.
  unfold App.handleUpdateOverlay. split; [|split; [|split]].
  - apply map_id_ext. intros video _.
    destruct (String.eqb (VideoFile.id video) videoId); [|reflexivity].
    rewrite map_id_ext; [apply with_textOverlays_same|].
    intros o _. rewrite spread_empty. now destruct (String.eqb _ _).
  - intros Hfresh. apply map_id_ext. intros video Hin.
    destruct (String.eqb (VideoFile.id video) videoId) eqn:Hid; [|reflexivity].
    rewrite map_id_ext; [apply with_textOverlays_same|].
    intros o Ho. destruct (String.eqb (TextOverlay.id o) overlayId) eqn:Ho'; [|reflexivity].
    exfalso. apply (Hfresh video o Hin); [now apply String.eqb_eq | exact Ho |].
    now apply String.eqb_eq.
  - rewrite map_map. apply map_ext. intros video.
    now destruct (String.eqb (VideoFile.id video) videoId).
  - intros Hnone. rewrite map_map. apply map_ext. intros video.
    destruct (String.eqb (VideoFile.id video) videoId); [|reflexivity].
    cbn [VideoFile.with_textOverlays VideoFile.textOverlays]. rewrite map_map.
    apply map_ext. intros o. destruct (String.eqb (TextOverlay.id o) overlayId); [|reflexivity].
    destruct o. cbn [spread TextOverlay.id]. now rewrite Hnone.
Qed.

Lemma update_keeps_overlay_ids_witness :
  map (fun video => map TextOverlay.id (VideoFile.textOverlays video))
      (App.handleUpdateOverlay "a" "1" (Partial.of_window 2 4) scenario_videos) =
  map (fun video => map TextOverlay.id (VideoFile.textOverlays video)) scenario_videos.
Proof.
  apply (update_keeps_overlay_ids "a" "1" (Partial.of_window 2 4) scenario_videos). reflexivity.
Defined.

(** ** The list of videos *)

Lemma findIndex_from_spec {A} (p : A -> bool) (xs : list A) (i : Z) :
  (findIndex_from p xs i = -1 /\ Forall (fun x => p x = false) xs) \/
  (exists k x, findIndex_from p xs i = i + Z.of_nat k /\ xs !! k = Some x /\ p x = true /\
               Forall (fun y => p y = false) (take k xs)).
Proof.
  revert i. induction xs as [|x rest IH]; intros i; [left; split; [reflexivity|constructor]|].
  cbn [findIndex_from]. destruct (p x) eqn:Hp.
  - right. exists 0%nat, x. repeat split; [lia | exact Hp | constructor].
  - destruct (IH (i + 1)) as [[Hnone Hall] | (k & y & Hk & Hy & Hpy & Hbefore)].
    + left. split; [exact Hnone | now constructor].
    + right. exists (S k), y. repeat split; [lia | exact Hy | exact Hpy |].
      cbn [take]. now constructor.
Qed.

Lemma findIndex_spec {A} (p : A -> bool) (xs : list A) :
  (findIndex p xs = -1 /\ Forall (fun x => p x = false) xs) \/
  (exists k x, findIndex p xs = Z.of_nat k /\ xs !! k = Some x /\ p x = true /\
               Forall (fun y => p y = false) (take k xs)).
Proof.
  unfold findIndex. destruct (findIndex_from_spec p xs 0) as [H | (k & x & Hk & H)];
    [now left | right]. exists k, x. split; [lia | exact H].
Qed.

Lemma at_index_of_nat {A} (xs : list A) (k : nat) : at_index xs (Z.of_nat k) = xs !! k.
Proof.
  unfold at_index. destruct (Z.ltb_spec (Z.of_nat k) 0) as [Hneg|_]; [lia|]. now rewrite Nat2Z.id.
Qed.

(** X22.  Selecting a video by an id that some video has makes the first
    video with that id the current one: the index points at a video with
    that id and no video before it has the id; the time is set to 0, the
    player pauses and the list is left alone.  Selecting an id that no
    video has changes nothing. *)
Theorem select_finds_the_video (videoId : string) (s : App.State) :
  ((forall video, In video (App.videos s) -> VideoFile.id video <> videoId) ->
   App.handleSelectVideo videoId s = s) /\
  (forall video, In video (App.videos s) -> VideoFile.id video = videoId ->
   exists (k : nat) (selected : VideoFile.t),
     App.currentVideoIndex (App.handleSelectVideo videoId s) = Z.of_nat k /\
     App.videos s !! k = Some selected /\
     VideoFile.id selected = videoId /\
     (forall (j : nat) (earlier : VideoFile.t),
        (j < k)%nat -> App.videos s !! j = Some earlier -> VideoFile.id earlier <> videoId) /\
     App.currentVideo (App.handleSelectVideo videoId s) = Some selected /\
     App.videos (App.handleSelectVideo videoId s) = App.videos s /\
     App.currentTime (App.handleSelectVideo videoId s) = 0%Q /\
     App.isPlaying (App.handleSelectVideo videoId s) = false).
Proof.
  unfold App.handleSelectVideo. cbn zeta.
  destruct (findIndex_spec (fun v => String.eqb (VideoFile.id v) videoId) (App.videos s))
    as [[Hidx Hall] | (k & found & Hidx & Hk & Hp & Hbefore)]; rewrite Hidx.
  - split; [reflexivity|]. intros video Hin Hid. exfalso.
    rewrite Forall_forall in Hall. specialize (Hall video).
    rewrite <- list_elem_of_In in Hin. specialize (Hall Hin). cbn beta in Hall.
    apply String.eqb_neq in Hall. contradiction.
  - destruct (Z.eqb_spec (Z.of_nat k) (-1)) as [Hneg|_]; [lia|]. split.
    + intros Hnone. exfalso. apply (Hnone found).
      * rewrite <- list_elem_of_In. now apply list_elem_of_lookup_2 in Hk.
      * now apply String.eqb_eq.
    + intros _ _ _. exists k, found. unfold App.currentVideo.
      cbn [App.videos App.currentVideoIndex App.currentTime App.isPlaying].
      rewrite at_index_of_nat.
      split; [reflexivity|]. split; [exact Hk|]. split; [now apply String.eqb_eq|].
      split; [|repeat split; exact Hk].
      intros j earlier Hj Hearlier. rewrite Forall_forall in Hbefore.
      apply String.eqb_neq. apply (Hbefore earlier).
      apply (list_elem_of_lookup_2 _ j). rewrite lookup_take_lt by exact Hj. exact Hearlier.
Qed.

Lemma select_finds_the_video_witness :
  exists (k : nat) (selected : VideoFile.t),
    App.currentVideoIndex (App.handleSelectVideo "dup" duplicate_id_state) = Z.of_nat k /\
    App.videos duplicate_id_state !! k = Some selected /\
    VideoFile.id selected = "dup" /\
    (forall (j : nat) (earlier : VideoFile.t),
       (j < k)%nat -> App.videos duplicate_id_state !! j = Some earlier ->
       VideoFile.id earlier <> "dup") /\
    App.currentVideo (App.handleSelectVideo "dup" duplicate_id_state) = Some selected /\
    App.videos (App.handleSelectVideo "dup" duplicate_id_state) = App.videos duplicate_id_state /\
    App.currentTime (App.handleSelectVideo "dup" duplicate_id_state) = 0%Q /\
    App.isPlaying (App.handleSelectVideo "dup" duplicate_id_state) = false.
Proof.
  apply (proj2 (select_finds_the_video "dup" duplicate_id_state) (clip "dup" "late.mp4" [])).
  - cbn. right. right. left. reflexivity.
  - reflexivity.
Defined.

(** With two videos of one id, the earlier one is selected. *)
Example select_takes_the_first :
  App.currentVideo (App.handleSelectVideo "dup" duplicate_id_state) =
    Some (clip "dup" "early.mp4" []) /\
  App.currentVideoIndex (App.handleSelectVideo "dup" duplicate_id_state) = 1.
Proof. split; reflexivity. Qed.

Lemma filter_other_ids (videoId : string) (xs : list VideoFile.t) :
  ~ In videoId (map VideoFile.id xs) ->
  List.filter (fun v => negb (String.eqb (VideoFile.id v) videoId)) xs = xs.
Proof.
  intros Hnot. apply filter_all. intros v Hv. apply negb_true_iff, String.eqb_neq.
  intros Heq. apply Hnot. rewrite <- Heq. now apply in_map.
Qed.

Lemma filter_removes_the_video (xs : list VideoFile.t) :
  forall (k : nat) (removed : VideoFile.t),
    NoDup (map VideoFile.id xs) ->
    xs !! k = Some removed ->
    List.filter (fun v => negb (String.eqb (VideoFile.id v) (VideoFile.id removed))) xs =
    delete k xs.
Proof.
  induction xs as [|x rest IH]; intros k removed Hnd Hk; [discriminate|].
  cbn [map] in Hnd. apply NoDup_cons in Hnd as [Hnotin Hnd']. destruct k as [|k].
  - injection Hk as ->. cbn [List.filter]. rewrite String.eqb_refl. cbn [negb].
    apply filter_other_ids. now rewrite <- list_elem_of_In.
  - cbn [lookup list_lookup] in Hk. cbn [List.filter].
    assert (Hneq : VideoFile.id x <> VideoFile.id removed).
    { intros Heq. apply Hnotin. rewrite Heq. apply list_elem_of_fmap_2.
      now apply list_elem_of_lookup_2 in Hk. }
    apply String.eqb_neq in Hneq. rewrite Hneq. cbn [negb].
    change (delete (S k) (x :: rest)) with (x :: delete k rest). f_equal. now apply IH.
Qed.

Lemma findIndex_unique (xs : list VideoFile.t) (k : nat) (removed : VideoFile.t) :
  NoDup (map VideoFile.id xs) ->
  xs !! k = Some removed ->
  findIndex (fun v => String.eqb (VideoFile.id v) (VideoFile.id removed)) xs = Z.of_nat k.
Proof.
  intros Hnd Hk.
  destruct (findIndex_spec (fun v => String.eqb (VideoFile.id v) (VideoFile.id removed)) xs)
    as [[_ Hall] | (j & found & Hidx & Hj & Hp & _)].
  - exfalso. rewrite Forall_forall in Hall.
    specialize (Hall removed (list_elem_of_lookup_2 _ _ _ Hk)). cbn beta in Hall.
    now rewrite String.eqb_refl in Hall.
  - rewrite Hidx. f_equal. apply String.eqb_eq in Hp.
    apply (NoDup_lookup _ j k (VideoFile.id removed) Hnd).
    + rewrite list_lookup_fmap, Hj. cbn. now rewrite Hp.
    + now rewrite list_lookup_fmap, Hk.
Qed.

(** X23.  Removing a video from a list with distinct ids, while a video
    is selected: exactly that video leaves the list; as long as a video
    remains the index points into the list, and the time and the playing
    state are kept; removing another video than the selected one keeps
    the selected one selected; removing the selected one selects the
    video that followed it, or the one before it when it was the last.
    Removing the only video rewinds to 0 and pauses. *)
Theorem remove_video_keeps_selection (s : App.State) (k : nat) (removed : VideoFile.t) :
  NoDup (map VideoFile.id (App.videos s)) ->
  0 <= App.currentVideoIndex s < Z.of_nat (length (App.videos s)) ->
  App.videos s !! k = Some removed ->
  let s' := App.handleRemoveVideo (VideoFile.id removed) s in
  App.videos s' = delete k (App.videos s) /\
  (App.videos s' <> [] ->
   0 <= App.currentVideoIndex s' < Z.of_nat (length (App.videos s')) /\
   App.currentTime s' = App.currentTime s /\ App.isPlaying s' = App.isPlaying s) /\
  (App.videos s' = [] ->
   App.currentVideoIndex s' = 0 /\ App.currentTime s' = 0%Q /\ App.isPlaying s' = false) /\
  (Z.of_nat k <> App.currentVideoIndex s -> App.currentVideo s' = App.currentVideo s) /\
  (Z.of_nat k = App.currentVideoIndex s ->
   App.currentVideo s' =
     match App.videos s !! S k with
     | Some next => Some next
     | None => match k with O => None | S j => App.videos s !! j end
     end).
Proof.
  intros Hnd Hcur Hk. destruct s as [videos cur time playing].
  cbn [App.videos App.currentVideoIndex App.currentTime App.isPlaying] in *.
  pose proof (lookup_lt_Some _ _ _ Hk) as Hlt.
  assert (Hlen : length (delete k videos) = (length videos - 1)%nat).
  { apply length_delete. now exists removed. }
  unfold App.handleRemoveVideo.
  cbn [App.videos App.currentVideoIndex App.currentTime App.isPlaying].
  rewrite (findIndex_unique videos k removed Hnd Hk).
  rewrite (filter_removes_the_video videos k removed Hnd Hk).
  destruct (Z.eqb_spec (Z.of_nat k) (-1)) as [Hneg|_]; [lia|].
  assert (Hnil : delete k videos = [] -> length videos = 1%nat).
  { intros H. rewrite H in Hlen. cbn in Hlen. lia. }
  assert (Hcons : delete k videos <> [] -> (1 < length videos)%nat).
  { intros H. destruct (delete k videos); [contradiction | cbn in Hlen; lia]. }
  destruct (Z.of_nat k =? cur) eqn:Ekc; cbn [andb].
  - apply Z.eqb_eq in Ekc. subst cur.
    destruct (1 <? Z.of_nat (length videos)) eqn:E1.
    + apply Z.ltb_lt in E1.
      destruct (Z.of_nat k =? Z.of_nat (length videos) - 1) eqn:Elast; cbn zeta;
        cbn [App.videos App.currentVideoIndex App.currentTime App.isPlaying];
        (split; [reflexivity|]); (split; [intros _; rewrite Hlen; repeat split; lia|]);
        (split; [intros H; apply Hnil in H; lia|]); (split; [intros H; lia|]); intros _;
        unfold App.currentVideo; cbn [App.videos App.currentVideoIndex].
      * apply Z.eqb_eq in Elast. destruct k as [|j]; [lia|].
        replace (Z.of_nat (S j) - 1) with (Z.of_nat j) by lia.
        rewrite at_index_of_nat, list_lookup_delete_lt by lia.
        rewrite (lookup_ge_None_2 videos (S (S j))) by lia. reflexivity.
      * apply Z.eqb_neq in Elast.
        rewrite at_index_of_nat, list_lookup_delete_ge by lia.
        destruct (lookup_lt_is_Some_2 videos (S k)) as [next Hnext]; [lia|].
        now rewrite Hnext.
    + apply Z.ltb_ge in E1. assert (Hone : length videos = 1%nat) by lia.
      assert (k = 0%nat) by lia. subst k.
      destruct (Z.ltb_spec (Z.of_nat 0) (Z.of_nat 0)) as [Hneg|_]; [lia|].
      destruct (Z.eqb_spec (Z.of_nat (length videos)) 1) as [_|Hmore]; [|lia]. cbn zeta.
      cbn [App.videos App.currentVideoIndex App.currentTime App.isPlaying].
      destruct videos as [|only [|more rest]]; cbn in Hone; try lia.
      change (delete 0%nat [only]) with (@nil VideoFile.t).
      split; [reflexivity|]. split; [intros H; contradiction|].
      split; [intros _; repeat split|]. split; [intros H; cbn in H; lia|]. intros _.
      reflexivity.
  - apply Z.eqb_neq in Ekc.
    destruct (Z.of_nat k <? cur) eqn:Elt.
    + apply Z.ltb_lt in Elt. cbn zeta.
      cbn [App.videos App.currentVideoIndex App.currentTime App.isPlaying].
      split; [reflexivity|]. split; [intros _; rewrite Hlen; repeat split; lia|].
      split; [intros H; apply Hnil in H; lia|]. split; [|intros H; lia]. intros _.
      unfold App.currentVideo; cbn [App.videos App.currentVideoIndex].
      replace (cur - 1) with (Z.of_nat (Z.to_nat cur - 1)) by lia.
      replace cur with (Z.of_nat (Z.to_nat cur)) at 2 by lia.
      rewrite !at_index_of_nat, list_lookup_delete_ge by lia. f_equal. lia.
    + apply Z.ltb_ge in Elt.
      destruct (Z.eqb_spec (Z.of_nat (length videos)) 1) as [Hsingle|_]; [lia|]. cbn zeta.
      cbn [App.videos App.currentVideoIndex App.currentTime App.isPlaying].
      split; [reflexivity|]. split; [intros _; rewrite Hlen; repeat split; lia|].
      split; [intros H; apply Hnil in H; lia|]. split; [|intros H; lia]. intros _.
      unfold App.currentVideo; cbn [App.videos App.currentVideoIndex].
      replace cur with (Z.of_nat (Z.to_nat cur)) by lia.
      rewrite !at_index_of_nat, list_lookup_delete_lt by lia. reflexivity.
Qed.

Lemma remove_video_keeps_selection_witness :
  App.videos (App.handleRemoveVideo "a" scenario_state) =
    [clip "b" "city.mp4" []; clip "c" "hills.mp4" [trimmed_overlay]] /\
  App.currentVideo (App.handleRemoveVideo "a" scenario_state) = App.currentVideo scenario_state.
Proof.
  destruct (remove_video_keeps_selection scenario_state 0
              (clip "a" "beach.mp4" [scenario_overlay])) as (Hvideos & _ & _ & Hkeep & _).
  - apply (bool_decide_eq_true_1 _ (Decision0 := NoDup_dec _)). vm_compute. reflexivity.
  - cbn. lia.
  - reflexivity.
  - split; [exact Hvideos | apply Hkeep; cbn; lia].
Defined.

(** ** From the editor to the server and back *)

Lemma videosData_names (maxDuration : Q) (videos : list VideoFile.t) :
  map VideoData.name (form_videosData (videosToExport maxDuration videos)) =
  map VideoFile.name videos.
Proof.
  unfold form_videosData, videosToExport. rewrite !map_map. reflexivity.
Qed.

Lemma successes_rows (env : Env) (items : list (UploadedFile * VideoData.t)) :
  forall n,
    Forall (fun entry => success_downloadUrl entry = downloadUrl_of (success_filename entry))
           (successes env n items).
Proof.
  induction items as [|[file data] rest IH]; intros n; [constructor|].
  cbn [successes]. destruct (item_outcome env (uuidv4 env n) file data) as [err|entry] eqn:Hout;
    [apply IH|]. constructor; [|apply IH].
  unfold item_outcome in Hout. destruct (ffprobe env (file_path file)); [discriminate|].
  destruct (find _ _); [|discriminate]. destruct (run env _); [|discriminate].
  injection Hout as <-. reflexivity.
Qed.

(** X24.  An export of a non-empty list of videos, answered by the batch
    handler for the files and metadata the editor sends, shows one row
    per video: the rows' names are the videos' names, each as often as
    it occurs (successes first, so not always in the videos' order); a
    row of a rendered video carries its file name and the download address
    of that name and no error, a row of a failed one carries an error and
    no file name. *)
Theorem export_shows_a_row_per_video (env : Env) (maxDuration : Q)
    (videos : list VideoFile.t) (files : list UploadedFile) (w : World) :
  videos <> [] ->
  length files = length videos ->
  exists response reply rows,
    (process_batch env
       (BatchRequest.mk files (form_videosData (videosToExport maxDuration videos))) w).1
    = Return response /\
    reply_of response = Some reply /\
    handleMultiExport maxDuration videos true reply = Some rows /\
    map row_originalName rows ≡ₚ map VideoFile.name videos /\
    Forall (fun row =>
              if row_success row
              then exists filename,
                     row_filename row = Some filename /\
                     row_downloadUrl row = Some (downloadUrl_of filename) /\
                     row_error row = None
              else row_filename row = None /\ row_downloadUrl row = None /\
                   is_Some (row_error row))
           rows.
Proof.
  intros Hne Hlen.
  set (data := form_videosData (videosToExport maxDuration videos)).
  assert (Hdata : length data = length videos).
  { unfold data, form_videosData, videosToExport. now rewrite !length_map. }
  assert (Hfiles : files <> []) by (destruct files, videos; cbn in *; congruence).
  destruct (process_batch_covered env (BatchRequest.mk files data) w Hfiles) as (w' & Hrun);
    [cbn [BatchRequest.files BatchRequest.videos]; lia|].
  cbn [BatchRequest.files BatchRequest.videos] in Hrun.
  do 3 eexists. split; [rewrite Hrun; reflexivity|]. split; [reflexivity|].
  destruct videos as [|video rest]; [contradiction|]. cbn [handleMultiExport negb].
  split; [reflexivity|].
  cbn [exportMultipleVideos]. unfold formattedResults.
  cbn [BatchExportResult.results BatchExportResult.errors].
  split.
  - rewrite List.map_app, !List.map_map. cbn [row_originalName].
    rewrite (successes_failures_cover env (zip files data) (tokens w)).
    rewrite <- (videosData_names maxDuration (video :: rest)). fold data.
    rewrite <- (snd_zip files data) at 2 by lia. now rewrite <- list_fmap_compose.
  - apply Forall_app. split; apply Forall_forall; intros row Hrow;
      apply list_elem_of_fmap in Hrow as (entry & -> & Hentry); cbn.
    + eexists. split; [reflexivity|]. split; [|reflexivity]. f_equal.
      pose proof (successes_rows env (zip files data) (tokens w)) as Hall.
      rewrite Forall_forall in Hall. now apply Hall.
    + repeat split. eexists. reflexivity.
Qed.

Lemma export_shows_a_row_per_video_witness :
  exists response reply rows,
    (process_batch scenario_env
       (BatchRequest.mk scenario_files (form_videosData (videosToExport 20 scenario_videos)))
       scenario_world).1
    = Return response /\
    reply_of response = Some reply /\
    handleMultiExport 20 scenario_videos true reply = Some rows /\
    map row_originalName rows ≡ₚ map VideoFile.name scenario_videos /\
    Forall (fun row =>
              if row_success row
              then exists filename,
                     row_filename row = Some filename /\
                     row_downloadUrl row = Some (downloadUrl_of filename) /\
                     row_error row = None
              else row_filename row = None /\ row_downloadUrl row = None /\
                   is_Some (row_error row))
           rows.
Proof.
  apply (export_shows_a_row_per_video scenario_env 20 scenario_videos scenario_files
                                      scenario_world).
  - discriminate.
  - reflexivity.
Defined.

(** The rows of that export: the second video could not be probed, and its
    row comes last. *)
Example scenario_export_rows :
  forall response,
    (process_batch scenario_env
       (BatchRequest.mk scenario_files (form_videosData (videosToExport 20 scenario_videos)))
       scenario_world).1 = Return response ->
    option_map (fun reply => handleMultiExport 20 scenario_videos true reply) (reply_of response) =
    Some (Some
      [mkRow "beach.mp4" (Some "processed-beach.mp4-token0.mp4")
             (Some "/api/download/processed-beach.mp4-token0.mp4") true None;
       mkRow "hills.mp4" (Some "processed-hills.mp4-token2.mp4")
             (Some "/api/download/processed-hills.mp4-token2.mp4") true None;
       mkRow "city.mp4" None None false (Some "Invalid data found when processing input")]).
Proof.
  intros response Hrun. vm_compute in Hrun. injection Hrun as <-. vm_compute. reflexivity.
Qed.

(** X25.  When the batch request fails as a whole, every video gets a
    failed row with the failure's message, in the videos' order: the
    message of the network failure, or the server's [error] text, or
    "Batch export failed" when that text is empty.  With no video, or
    with the server unavailable, no export starts. *)
Theorem failed_export_marks_every_video (maxDuration : Q) (videos : list VideoFile.t)
    (reply : Reply) (message : string) :
  videos <> [] ->
  reply = NetworkFailure message \/
  (reply = NotOk message /\ message <> EmptyString) \/
  (reply = NotOk EmptyString /\ message = "Batch export failed") ->
  handleMultiExport maxDuration videos true reply =
    Some (map (fun video => mkRow (VideoFile.name video) None None false (Some message)) videos) /\
  handleMultiExport maxDuration videos false reply = None /\
  handleMultiExport maxDuration [] true reply = None.
Proof.
  intros Hne Hreply. destruct videos as [|video rest]; [contradiction|].
  split; [|split; reflexivity]. cbn [handleMultiExport negb]. f_equal.
  assert (Hrows : formattedResults (export_failed (videosToExport maxDuration (video :: rest))
                                                  message) =
                  map (fun video => mkRow (VideoFile.name video) None None false (Some message))
                      (video :: rest)).
  { unfold formattedResults, export_failed, videosToExport.
    cbn [BatchExportResult.results BatchExportResult.errors]. rewrite !map_map. reflexivity. }
  destruct Hreply as [-> | [[-> Hmsg] | [-> ->]]]; cbn [exportMultipleVideos].
  - exact Hrows.
  - unfold error_or, JS.truthy. apply String.eqb_neq in Hmsg. rewrite Hmsg. exact Hrows.
  - exact Hrows.
Qed.

Lemma failed_export_marks_every_video_witness :
  handleMultiExport 20 scenario_videos true (NotOk EmptyString) =
    Some (map (fun video => mkRow (VideoFile.name video) None None false
                                  (Some "Batch export failed")) scenario_videos).
Proof.
  apply (failed_export_marks_every_video 20 scenario_videos (NotOk EmptyString)
                                         "Batch export failed").
  - discriminate.
  - right. right. split; reflexivity.
Defined.

Lemma exported_duration (maxDuration : Q) (videos : list VideoFile.t) (data : VideoData.t) :
  In data (form_videosData (videosToExport maxDuration videos)) ->
  duration_option (VideoData.maxDuration data) =
    (if Qlt_le_dec 0 maxDuration
     then if Qlt_le_dec maxDuration 300 then Some maxDuration else None
     else None).
Proof.
  intros Hin. unfold form_videosData, videosToExport in Hin. rewrite map_map in Hin.
  apply in_map_iff in Hin as (video & <- & _).
  cbn [VideoData.maxDuration ExportVideo.maxDuration].
  unfold Editor.exported_maxDuration, duration_option.
  destruct (Qlt_le_dec maxDuration 300); destruct (Qlt_le_dec 0 maxDuration); reflexivity.
Qed.

Section SameEncoder.

Context (env env' : Env) (expected : option Q).
Hypothesis same_ffprobe : forall p, ffprobe env p = ffprobe env' p.
Hypothesis same_uuidv4 : forall n, uuidv4 env n = uuidv4 env' n.
Hypothesis same_now : now env = now env'.
Hypothesis same_run : forall command, duration command = expected -> run env command = run env' command.

(** One turn of the loop, for an item whose cap gives the expected output
    duration: the encoder is asked about one command, which carries it. *)
Lemma batch_item_same_encoder (file : UploadedFile) (videoData : option VideoData.t)
    (tally : Tally) (w : World) :
  (forall data, videoData = Some data ->
     duration_option (VideoData.maxDuration data) = expected) ->
  try_catch (process_item env file videoData tally) (item_failed file videoData tally) w =
  try_catch (process_item env' file videoData tally) (item_failed file videoData tally) w.
Proof.
  intros Hcap. destruct videoData as [data|]; [|reflexivity].
  specialize (Hcap data eq_refl).
  unfold process_item, item_failed. unfold_monad. cbn beta iota zeta.
  rewrite <- same_uuidv4, <- same_ffprobe, <- same_now.
  destruct (ffprobe env (file_path file)) as [err|videoInfo]; [reflexivity|].
  cbn beta iota zeta.
  destruct (find _ (streams videoInfo)) as [videoStream|]; [|reflexivity].
  cbn beta iota zeta. rewrite <- same_run by exact Hcap. reflexivity.
Qed.

Lemma batch_loop_same_encoder (videos : list VideoData.t) (files : list UploadedFile) :
  (forall data, In data videos -> duration_option (VideoData.maxDuration data) = expected) ->
  forall (i : nat) (tally : Tally) (w : World),
    batch_loop env videos i files tally w = batch_loop env' videos i files tally w.
Proof.
  intros Hcap. induction files as [|file rest IH]; intros i tally w; [reflexivity|].
  cbn [batch_loop]. unfold bind.
  rewrite (batch_item_same_encoder file (videos !! i) tally w).
  - destruct (try_catch _ _ w) as [[tally'|err] w']; [apply IH | reflexivity].
  - intros data Hdata. apply Hcap. rewrite <- list_elem_of_In.
    now apply list_elem_of_lookup_2 in Hdata.
Qed.

Lemma process_batch_same_encoder (req : BatchRequest.t) (w : World) :
  (forall data, In data (BatchRequest.videos req) ->
     duration_option (VideoData.maxDuration data) = expected) ->
  process_batch env req w = process_batch env' req w.
Proof.
  intros Hcap. unfold process_batch.
  destruct (BatchRequest.files req) as [|file rest]; [reflexivity|].
  unfold try_catch, bind.
  now rewrite (batch_loop_same_encoder (BatchRequest.videos req) (file :: rest) Hcap).
Qed.

End SameEncoder.

(** X26.  The cap the editor exports reaches the encoder of every batch
    item exactly when it is positive and below 300.  The batch handler,
    given the form the editor sends, asks the encoder only about commands
    whose output duration is [maxDuration] then, and about commands
    without an output duration otherwise: two encoders that agree on
    those commands give the same answer and the same final state,
    whatever they do on other commands.  The command built from an item
    of that form carries that duration, whatever the overlays and the
    frame. *)
Theorem exported_cap_reaches_encoder (env env' : Env) (maxDuration : Q)
    (videos : list VideoFile.t) (files : list UploadedFile) (w : World) :
  let expected :=
    if Qlt_le_dec 0 maxDuration
    then if Qlt_le_dec maxDuration 300 then Some maxDuration else None
    else None in
  (forall p, ffprobe env p = ffprobe env' p) ->
  (forall n, uuidv4 env n = uuidv4 env' n) ->
  now env = now env' ->
  (forall command, duration command = expected -> run env command = run env' command) ->
  process_batch env
    (BatchRequest.mk files (form_videosData (videosToExport maxDuration videos))) w =
  process_batch env'
    (BatchRequest.mk files (form_videosData (videosToExport maxDuration videos))) w /\
  (forall data inputPath outputPath videoWidth videoHeight,
     In data (form_videosData (videosToExport maxDuration videos)) ->
     duration (ffmpeg_command inputPath (VideoData.maxDuration data)
                              (VideoData.textOverlays data)
                              videoWidth videoHeight outputPath) = expected).
Proof.
  intros expected Hprobe Huuid Hnow Hrun. split.
  - apply (process_batch_same_encoder env env' expected Hprobe Huuid Hnow Hrun).
    intros data Hdata. now apply (exported_duration maxDuration videos).
  - intros data inputPath outputPath videoWidth videoHeight Hdata.
    cbn [ffmpeg_command duration]. now apply (exported_duration maxDuration videos).
Qed.

Lemma exported_cap_reaches_encoder_witness :
  process_batch (duration_checking_env (Some 20%Q))
    (BatchRequest.mk scenario_files (form_videosData (videosToExport 20 scenario_videos)))
    scenario_world =
  process_batch accepting_env
    (BatchRequest.mk scenario_files (form_videosData (videosToExport 20 scenario_videos)))
    scenario_world.
Proof.
  refine (proj1 (exported_cap_reaches_encoder (duration_checking_env (Some 20%Q)) accepting_env
                   20 scenario_videos scenario_files scenario_world _ _ _ _)).
  - reflexivity.
  - reflexivity.
  - reflexivity.
  - intros command Hduration. cbn. rewrite Hduration. reflexivity.
Defined.

(** An encoder that accepts only the output duration 20 renders all three
    videos of an export capped at 20 s, and none of an export capped at
    300, the editor's "no limit". *)
Example capped_export_runs :
  (process_batch (duration_checking_env (Some 20%Q))
     (BatchRequest.mk scenario_files (form_videosData (videosToExport 20 scenario_videos)))
     scenario_world).1 =
    Return (BatchOk 3 3
              [mkSuccess "beach.mp4" "processed-beach.mp4-token0.mp4"
                         "/api/download/processed-beach.mp4-token0.mp4";
               mkSuccess "city.mp4" "processed-city.mp4-token1.mp4"
                         "/api/download/processed-city.mp4-token1.mp4";
               mkSuccess "hills.mp4" "processed-hills.mp4-token2.mp4"
                         "/api/download/processed-hills.mp4-token2.mp4"] []) /\
  (process_batch (duration_checking_env (Some 20%Q))
     (BatchRequest.mk scenario_files (form_videosData (videosToExport 300 scenario_videos)))
     scenario_world).1 =
    Return (BatchOk 0 3 []
              [mkItemError "beach.mp4" "unexpected output duration";
               mkItemError "city.mp4" "unexpected output duration";
               mkItemError "hills.mp4" "unexpected output duration"]).
Proof. split; vm_compute; reflexivity. Qed.
